(** * gotenable: the paginated iterator and the export poller

    A shallow embedding of [pkg/base] (the generic [Iterator], its options
    and consumers, the error types) and of parts of [pkg/tio] (the
    exports: the submit, status and chunk calls, [WaitForExport],
    [AssetsIterator], [VulnsIterator], the [bytesReader] of a download;
    and two paged listings, [AgentsAPI.List] and [PluginsAPI.List]),
    followed by the properties proved about them.

    Conventions of the embedding:
    - a Go [int] is a [Z]; every addition the code performs goes through
      [GoInt.add], which wraps around at 64 bits;
    - a Go slice is a [list]; the nil slice and the empty slice are both
      [[]] (they have the same length and the same elements);
    - a Go [error] is a value of the inductive [error]; the nil error is
      [None] in an [option error];
    - code that calls out (the page fetcher, the HTTP client, the wait on
      the context) is explicit state passing over the state of that
      collaborator, and every call is appended to a log;
    - an index expression out of range is a run-time panic ([Panic]);
      loops that the code does not bound take fuel ([OutOfFuel]).

    [Channel] of the iterator, which runs it in a goroutine, and the
    compliance export but for its status call are left out: no property
    below involves them. *)

From Stdlib Require Import String Ascii DecimalString ZArith List Bool Lia.
Import ListNotations.
Local Open Scope Z_scope.

Set Implicit Arguments.

(* ================================================================== *)
(** ** Go's [int] on a 64-bit platform *)

Module GoInt.

Definition MaxInt : Z := 9223372036854775807.
Definition MinInt : Z := -9223372036854775808.

(** Two's complement wrap-around of a mathematical integer. *)
Definition wrap (z : Z) : Z :=
  (z + 9223372036854775808) mod 18446744073709551616 - 9223372036854775808.

Definition add (a b : Z) : Z := wrap (a + b).

(** [len(s)] of a slice. *)
Definition len {A : Type} (s : list A) : Z := Z.of_nat (List.length s).

(** [s[i]]: [None] stands for the index-out-of-range panic. *)
Definition index {A : Type} (s : list A) (i : Z) : option A :=
  if i <? 0 then None else nth_error s (Z.to_nat i).

End GoInt.

(* ================================================================== *)
(** ** Outcomes of running modelled code *)

Inductive outcome (A : Type) : Type :=
| Ret (a : A)       (* the call returns *)
| Panic             (* the Go runtime panics *)
| OutOfFuel.        (* the fuel given to an unbounded loop ran out *)

Arguments Ret {A} a.
Arguments Panic {A}.
Arguments OutOfFuel {A}.

Definition bind {A B : Type} (m : outcome A) (k : A -> outcome B) : outcome B :=
  match m with
  | Ret a => k a
  | Panic => Panic
  | OutOfFuel => OutOfFuel
  end.

Notation "' pat <- m ;; k" :=
  (bind m (fun x => match x with pat => k end))
  (at level 61, pat pattern, m at next level, right associativity).

(* ================================================================== *)
(** ** pkg/base: errors *)

Module base.

(** The error values of the program.  The first six are the structs of
    [errors.go] (without the raw response bytes of an [APIError], and
    without [FileDownloadError], which exports do not raise);
    [ContextCanceled] and [DeadlineExceeded] are the two
    values [ctx.Err()] can return; [LibError] is an error of the Go
    standard library ([encoding/json], [io]), and the [cause] of a
    [ConnectionError] is the message of one; [Errorf] is
    [fmt.Errorf(format, err)] with a [%w] verb, which keeps the wrapped
    error. *)
Inductive error : Type :=
| APIError (StatusCode : Z) (Message RequestID : string)
| AuthenticationError (Message : string)
| ConnectionError (URL Message : string) (cause : string)
| ValidationError (Field Message : string)
| ExportError (ExportType UUID Message : string)
| ExportTimeoutError (ExportType UUID : string)
| ContextCanceled
| DeadlineExceeded
| LibError (msg : string)
| Errorf (format : string) (wrapped : error).

Definition isExportError (e : error) : bool :=
  match e with ExportError _ _ _ => true | _ => false end.

Definition isContextError (e : error) : bool :=
  match e with ContextCanceled | DeadlineExceeded => true | _ => false end.

Definition isNil {A : Type} (e : option A) : bool :=
  match e with None => true | Some _ => false end.

(* ---------------------------------------------------------------- *)
(** ** pkg/base: the iterator *)

(** [json.RawMessage] is a byte slice. *)
Definition RawMessage : Type := string.

Record PaginationInfo : Type := {
  Total : Z;
  Limit : Z;
  Offset : Z
}.

(** What one invocation of a page fetcher returned: the triple
    [(json.RawMessage, *PaginationInfo, error)]. *)
Definition FetchResult : Type :=
  (RawMessage * option PaginationInfo * option error)%type.

(** One entry of the log of fetcher invocations. *)
Record FetchCall : Type := {
  call_offset : Z;
  call_limit : Z;
  call_result : FetchResult
}.

Section Iterator.

(** The item type [T], and the state [FS] the fetcher closes over
    (captured variables, the backend, the context it is given). *)
Variable T : Type.
Variable FS : Type.

(** A fetcher may also panic or never return, hence the [outcome]. *)
Definition PageFetcher : Type := Z -> Z -> FS -> outcome (FetchResult * FS).
Definition ItemTransformer : Type := RawMessage -> list T * option error.

Variable fetcher : PageFetcher.
Variable transformer : ItemTransformer.

(** The fields of [Iterator[T]] but [ctx], [fetcher] and
    [transformer], which never change. *)
Record Iterator : Type := {
  limit : Z;
  offset : Z;
  total : Z;
  page : list T;
  pageIndex : Z;
  count : Z;
  maxPages : Z;
  pagesLoaded : Z;
  done : bool;
  err : option error;
  current : T
}.

(** The fetcher's state together with the log of its invocations. *)
Record World : Type := {
  fstate : FS;
  calls : list FetchCall
}.

Definition fresh (s : FS) : World := {| fstate := s; calls := [] |}.

(** [it.fetcher(it.ctx, offset, limit)], logged. *)
Definition call_fetcher (off lim : Z) (w : World)
  : outcome (FetchResult * World) :=
  '(r, s') <- fetcher off lim (fstate w) ;;
  Ret (r, {| fstate := s';
             calls := calls w ++ [{| call_offset := off; call_limit := lim;
                                     call_result := r |}] |}).

Inductive IteratorOption : Type :=
| WithLimit (l : Z)
| WithOffset (o : Z)
| WithMaxPages (m : Z).

Definition apply_option (opt : IteratorOption) (it : Iterator) : Iterator :=
  match opt with
  | WithLimit l =>
      {| limit := l; offset := offset it; total := total it; page := page it;
         pageIndex := pageIndex it; count := count it; maxPages := maxPages it;
         pagesLoaded := pagesLoaded it; done := done it; err := err it;
         current := current it |}
  | WithOffset o =>
      {| limit := limit it; offset := o; total := total it; page := page it;
         pageIndex := pageIndex it; count := count it; maxPages := maxPages it;
         pagesLoaded := pagesLoaded it; done := done it; err := err it;
         current := current it |}
  | WithMaxPages m =>
      {| limit := limit it; offset := offset it; total := total it; page := page it;
         pageIndex := pageIndex it; count := count it; maxPages := m;
         pagesLoaded := pagesLoaded it; done := done it; err := err it;
         current := current it |}
  end.

(** The zero value of [T] ([current] before the first item). *)
Variable zero : T.

Definition NewIterator (opts : list IteratorOption) : Iterator :=
  fold_left (fun it opt => apply_option opt it) opts
    {| limit := 100; offset := 0; total := -1; page := [];
       pageIndex := 0; count := 0; maxPages := 0; pagesLoaded := 0;
       done := false; err := None; current := zero |}.

Definition set_done (it : Iterator) : Iterator :=
  {| limit := limit it; offset := offset it; total := total it; page := page it;
     pageIndex := pageIndex it; count := count it; maxPages := maxPages it;
     pagesLoaded := pagesLoaded it; done := true; err := err it;
     current := current it |}.

Definition set_err (it : Iterator) (e : error) : Iterator :=
  {| limit := limit it; offset := offset it; total := total it; page := page it;
     pageIndex := pageIndex it; count := count it; maxPages := maxPages it;
     pagesLoaded := pagesLoaded it; done := done it; err := Some e;
     current := current it |}.

Definition set_total (it : Iterator) (t : Z) : Iterator :=
  {| limit := limit it; offset := offset it; total := t; page := page it;
     pageIndex := pageIndex it; count := count it; maxPages := maxPages it;
     pagesLoaded := pagesLoaded it; done := done it; err := err it;
     current := current it |}.

(** [it.current = it.page[it.pageIndex]; it.pageIndex++; it.count++]
    where the indexed item is [x]. *)
Definition advance (it : Iterator) (x : T) : Iterator :=
  {| limit := limit it; offset := offset it; total := total it; page := page it;
     pageIndex := GoInt.add (pageIndex it) 1; count := GoInt.add (count it) 1;
     maxPages := maxPages it; pagesLoaded := pagesLoaded it; done := done it;
     err := err it; current := x |}.

(** [it.page = items; it.pageIndex = 0; it.offset += len(items);
    it.pagesLoaded++]. *)
Definition load_page (it : Iterator) (items : list T) : Iterator :=
  {| limit := limit it; offset := GoInt.add (offset it) (GoInt.len items);
     total := total it; page := items; pageIndex := 0; count := count it;
     maxPages := maxPages it; pagesLoaded := GoInt.add (pagesLoaded it) 1;
     done := done it; err := err it; current := current it |}.

Definition fetchNextPage (it : Iterator) (w : World)
  : outcome (bool * Iterator * World) :=
  if (0 <? maxPages it) && (maxPages it <=? pagesLoaded it) then
    Ret (false, set_done it, w)
  else if (0 <=? total it) && (total it <=? offset it) then
    Ret (false, set_done it, w)
  else
    '(data, pagination, e, w1) <- call_fetcher (offset it) (limit it) w ;;
    match e with
    | Some e => Ret (false, set_err it e, w1)
    | None =>
        let it1 := match pagination with
                   | Some p => set_total it (Total p)
                   | None => it
                   end in
        let (items, e') := transformer data in
        match e' with
        | Some e' =>
            Ret (false,
                 set_err it1 (Errorf "failed to transform page data: %w" e'), w1)
        | None =>
            if GoInt.len items =? 0 then Ret (false, set_done it1, w1)
            else
              let it2 := load_page it1 items in
              match GoInt.index (page it2) (pageIndex it2) with
              | None => Panic
              | Some x => Ret (true, advance it2 x, w1)
              end
        end
    end.

Definition Next (it : Iterator) (w : World)
  : outcome (bool * Iterator * World) :=
  if done it || negb (isNil (err it)) then Ret (false, it, w)
  else if (0 <=? total it) && (total it <=? count it) then
    Ret (false, set_done it, w)
  else if GoInt.len (page it) <=? pageIndex it then
    fetchNextPage it w
  else
    match GoInt.index (page it) (pageIndex it) with
    | None => Panic
    | Some x => Ret (true, advance it x, w)
    end.

Definition Item (it : Iterator) : T := current it.
Definition Err (it : Iterator) : option error := err it.
Definition Count (it : Iterator) : Z := count it.

(** The loop [for it.Next() { results = append(results, it.Item()) }]. *)
Fixpoint collect (fuel : nat) (results : list T) (it : Iterator) (w : World)
  : outcome (list T * Iterator * World) :=
  match fuel with
  | O => OutOfFuel
  | S fuel' =>
      match Next it w with
      | Ret (true, it', w') => collect fuel' (results ++ [Item it']) it' w'
      | Ret (false, it', w') => Ret (results, it', w')
      | Panic => Panic
      | OutOfFuel => OutOfFuel
      end
  end.

(** The loop [for i := 0; i < n && it.Next(); i++ { ... }], which runs
    at most [n] times: [k] is the number of iterations left. *)
Fixpoint collect_upto (k : nat) (results : list T) (it : Iterator) (w : World)
  : outcome (list T * Iterator * World) :=
  match k with
  | O => Ret (results, it, w)
  | S k' =>
      match Next it w with
      | Ret (true, it', w') => collect_upto k' (results ++ [Item it']) it' w'
      | Ret (false, it', w') => Ret (results, it', w')
      | Panic => Panic
      | OutOfFuel => OutOfFuel
      end
  end.

(** The tail shared by [All] and [Take]:
    [if it.err != nil { return nil, it.err }; return results, nil]. *)
Definition finish (r : outcome (list T * Iterator * World))
  : outcome ((list T * option error) * Iterator * World) :=
  match r with
  | Ret (results, it', w') =>
      match err it' with
      | Some e => Ret (([], Some e), it', w')
      | None => Ret ((results, None), it', w')
      end
  | Panic => Panic
  | OutOfFuel => OutOfFuel
  end.

Definition All (fuel : nat) (it : Iterator) (w : World) :=
  finish (collect fuel [] it w).

Definition Take (n : Z) (it : Iterator) (w : World) :=
  finish (collect_upto (Z.to_nat n) [] it w).

(** [n] successive calls of [Next], whatever they return: the result
    lists, call by call, [Some x] where [Next] returned true and
    [Item()] was [x], [None] where it returned false. *)
Fixpoint pulls (n : nat) (it : Iterator) (w : World)
  : outcome (list (option T) * Iterator * World) :=
  match n with
  | O => Ret ([], it, w)
  | S n' =>
      match Next it w with
      | Ret (b, it', w') =>
          match pulls n' it' w' with
          | Ret (outs, it'', w'') =>
              Ret ((if b then Some (Item it') else None) :: outs, it'', w'')
          | Panic => Panic
          | OutOfFuel => OutOfFuel
          end
      | Panic => Panic
      | OutOfFuel => OutOfFuel
      end
  end.

(** The items among the results of [pulls]. *)
Fixpoint yielded (outs : list (option T)) : list T :=
  match outs with
  | [] => []
  | Some x :: outs' => x :: yielded outs'
  | None :: outs' => yielded outs'
  end.

(** *** Where the total is read and written *)

(** The two tests that read [total]: the one of [Next] and the one of
    [fetchNextPage]. *)
Definition total_checks (it : Iterator) : bool * bool :=
  ((0 <=? total it) && (total it <=? count it),
   (0 <=? total it) && (total it <=? offset it)).

(** The total a logged invocation reported: the [Total] of its
    [PaginationInfo], when it has one and the fetch did not fail. *)
Definition reported (c : FetchCall) : option Z :=
  match call_result c with
  | (_, Some p, None) => Some (Total p)
  | _ => None
  end.

(** *** Fetchers over a fixed collection *)

(** The items of [src] from position [off] on, at most [lim] of them:
    the positions from [off] up to the smaller of [off + lim] and the
    length. *)
Definition window (src : list T) (off lim : Z) : list T :=
  firstn (Z.to_nat lim) (skipn (Z.to_nat off) src).

(** The fetcher is backed by the collection [src]: asked for a page at
    an offset, it returns data that decode to that window of [src], and
    the length of [src] as total. *)
Definition serves (src : list T) : Prop :=
  forall (off lim : Z) (s : FS),
    0 <= off ->
    exists data p s',
      fetcher off lim s = Ret ((data, Some p, None), s') /\
      Total p = GoInt.len src /\
      transformer data = (window src off lim, None).

(** An iterator started at offset [o] with page size [l] over [src],
    between two items, with the items [rem] still to come: the current
    page is a stretch of [src], the offset points behind it, and the
    count is the number of items from [o] up to the current one. *)
Definition draining (src : list T) (o l : Z) (it : Iterator) (rem : list T) : Prop :=
  limit it = l /\ maxPages it <= 0 /\ done it = false /\ err it = None /\
  0 <= o /\
  exists pre post,
    src = pre ++ page it ++ post /\
    offset it = GoInt.len pre + GoInt.len (page it) /\
    0 <= pageIndex it <= GoInt.len (page it) /\
    rem = skipn (Z.to_nat (pageIndex it)) (page it) ++ post /\
    o <= GoInt.len pre /\
    count it = GoInt.len pre + pageIndex it - o /\
    (total it = GoInt.len src \/
     (total it = -1 /\ page it = [] /\ GoInt.len pre = o)).

(** *** Reading the log of fetcher invocations back *)

(** The items a logged invocation delivered: those the transformer
    decodes from its data, when neither it nor the fetch failed. *)
Definition decoded (c : FetchCall) : list T :=
  match call_result c with
  | (data, _, None) =>
      match transformer data with
      | (items, None) => items
      | (_, Some _) => []
      end
  | (_, _, Some _) => []
  end.

(** The error [fetchNextPage] records for a logged invocation. *)
Definition failure (c : FetchCall) : option error :=
  match call_result c with
  | (_, _, Some e) => Some e
  | (data, _, None) =>
      match transformer data with
      | (_, Some e') => Some (Errorf "failed to transform page data: %w" e')
      | (_, None) => None
      end
  end.

(** A page that was fetched and decoded, and holds items. *)
Definition call_ok (c : FetchCall) : Prop :=
  failure c = None /\ decoded c <> [].

(** The iterator is between two items: no error, not done, and the
    items handed out so far, followed by the rest of the current page,
    are the items of the pages fetched so far. *)
Definition running (it : Iterator) (w : World) (ys : list T) : Prop :=
  err it = None /\ done it = false /\
  Forall call_ok (calls w) /\
  0 <= pageIndex it <= GoInt.len (page it) /\
  GoInt.len (page it) <= GoInt.MaxInt /\
  ys ++ skipn (Z.to_nat (pageIndex it)) (page it)
    = concat (map decoded (calls w)).

(** The iterator stopped on the error of the last logged invocation,
    after the items [ys] of the pages before it. *)
Definition failed (it : Iterator) (w : World) (ys : list T) : Prop :=
  exists good bad,
    calls w = good ++ [bad] /\ Forall call_ok good /\
    failure bad = err it /\ err it <> None /\
    ys = concat (map decoded good).

(** *** The rest of the iterator *)

(** [Total()]: the total number of items available, -1 if unknown. *)
Definition Iterator_Total (it : Iterator) : Z := total it.

(** [ForEach(fn)].  The visitor [fn] is a closure: [VS] is the state it
    closes over, and it returns its error with the state it leaves. *)
Fixpoint ForEach (VS : Type) (fn : T -> VS -> option error * VS)
    (fuel : nat) (it : Iterator) (w : World) (vs : VS)
  : outcome (option error * Iterator * World * VS) :=
  match fuel with
  | O => OutOfFuel
  | S fuel' =>
      match Next it w with
      | Ret (true, it', w') =>
          match fn (Item it') vs with
          | (Some e, vs') => Ret (Some e, it', w', vs')
          | (None, vs') => ForEach fn fuel' it' w' vs'
          end
      | Ret (false, it', w') => Ret (err it', it', w', vs)
      | Panic => Panic
      | OutOfFuel => OutOfFuel
      end
  end.

(** The totals the logged invocations reported, in order. *)
Definition reports (cs : list FetchCall) : list Z :=
  flat_map (fun c => match reported c with Some t => [t] | None => [] end) cs.

(** The items handed out so far, followed by the rest of the current
    page, are the items of the pages fetched so far. *)
Definition in_page_order (it : Iterator) (w : World) (ys : list T) : Prop :=
  0 <= pageIndex it <= GoInt.len (page it) /\
  GoInt.len (page it) <= GoInt.MaxInt /\
  ys ++ skipn (Z.to_nat (pageIndex it)) (page it)
    = concat (map decoded (calls w)).

(** The fetcher was invoked at most [k] times, and as long as the
    iterator goes on, once for each page loaded. *)
Definition within_cap (k : Z) (it : Iterator) (w : World) : Prop :=
  maxPages it = k /\
  GoInt.len (calls w) <= k /\
  (done it = false -> err it = None -> pagesLoaded it = GoInt.len (calls w)).

(** The visitor of [ForEach] applied to the items [xs] in turn, up to
    its first error. *)
Fixpoint visits (VS : Type) (fn : T -> VS -> option error * VS)
    (xs : list T) (vs : VS) : option error * VS :=
  match xs with
  | [] => (None, vs)
  | x :: xs' =>
      match fn x vs with
      | (Some e, vs') => (Some e, vs')
      | (None, vs') => visits fn xs' vs'
      end
  end.

(** The offset the logged invocations [cs] leave, starting from [o]:
    each one moves it by the number of items it delivered. *)
Definition end_offset (o : Z) (cs : list FetchCall) : Z :=
  fold_left (fun o c => GoInt.add o (GoInt.len (decoded c))) cs o.

(** Every logged invocation asked for [l] items, at the offset the
    invocations before it left; and as long as the iterator goes on, its
    offset is the one they all left. *)
Definition asked_in_turn (o l : Z) (it : Iterator) (w : World) : Prop :=
  limit it = l /\
  (forall pre c post,
     calls w = pre ++ c :: post ->
     call_limit c = l /\ call_offset c = end_offset o pre) /\
  (done it = false -> err it = None -> offset it = end_offset o (calls w)).

(** [draining] under a page cap [k > 0]: [j] pages are loaded so far,
    and the items still to come are what is left of the current page
    and what the [k - j] pages still allowed hold. *)
Definition draining_capped (src : list T) (o l k : Z) (it : Iterator)
    (rem : list T) : Prop :=
  limit it = l /\ maxPages it = k /\ done it = false /\ err it = None /\
  0 <= o /\
  exists pre post,
    src = pre ++ page it ++ post /\
    offset it = GoInt.len pre + GoInt.len (page it) /\
    0 <= pageIndex it <= GoInt.len (page it) /\
    0 <= pagesLoaded it <= k /\
    rem = skipn (Z.to_nat (pageIndex it)) (page it)
            ++ firstn (Z.to_nat ((k - pagesLoaded it) * l)) post /\
    o <= GoInt.len pre /\
    count it = GoInt.len pre + pageIndex it - o /\
    (total it = GoInt.len src \/
     (total it = -1 /\ page it = [] /\ GoInt.len pre = o)).

(** *** What the proofs keep track of *)

(** Every slice the transformer returns has an [int] length. *)
Definition slices_fit : Prop :=
  forall data, GoInt.len (fst (transformer data)) <= GoInt.MaxInt.

(** [NewIterator] only sets what its options say. *)
Definition pristine (it : Iterator) : Prop :=
  total it = -1 /\ page it = [] /\ pageIndex it = 0 /\ count it = 0 /\
  pagesLoaded it = 0 /\ done it = false /\ err it = None /\ current it = zero.

End Iterator.

End base.

(* ================================================================== *)
(** ** pkg/tio: exports *)

Module tio.

Import base.

(** [time.Second], in nanoseconds. *)
Definition Second : Z := 1000000000.

(** [fmt.Sprintf("%d", n)]. *)
Definition Itoa (n : Z) : string := NilZero.string_of_int (Z.to_int n).

(** A [map[string]interface{}] of filters: keys with their JSON values. *)
Definition FilterMap : Type := list (string * RawMessage).

Module ExportAssetsRequest.
Record t : Type := {
  ChunkSize : Z;
  Filters : FilterMap;
  IncludeUnlicensed : bool
}.
(** [&ExportAssetsRequest{}]. *)
Definition empty : t :=
  {| ChunkSize := 0; Filters := []; IncludeUnlicensed := false |}.
End ExportAssetsRequest.

Module ExportVulnsRequest.
Record t : Type := {
  NumAssets : Z;
  Filters : FilterMap;
  IncludeUnlicensed : bool
}.
Definition empty : t :=
  {| NumAssets := 0; Filters := []; IncludeUnlicensed := false |}.
End ExportVulnsRequest.

Record ExportResponse : Type := {
  ExportUUID : string
}.

Record ExportStatus : Type := {
  Status : string;
  ChunksAvailable : list Z;
  ChunksCancelled : list Z;
  ChunksFailed : list Z;
  TotalChunks : Z;
  ChunksFinished : Z;
  NumAssetsPerChunk : Z;
  Created : Z;
  UUID : string;
  EmptyChunksCount : Z;
  Filters : FilterMap
}.

(** The body of a POST. *)
Inductive Body : Type :=
| AssetsBody (req : ExportAssetsRequest.t)
| VulnsBody (req : ExportVulnsRequest.t).

(** What the client was asked to do, in order. *)
Inductive Event : Type :=
| EvPost (path : string) (body : Body)
| EvGet (path : string)
| EvDownload (path : string)
| EvSelect (pollInterval : Z).

(** [io.EOF]. *)
Definition io_EOF : error := LibError "EOF".

(** [bytesReader], the [io.Reader] the chunk and file downloads return:
    the bytes it wraps and the position of the next one to hand out. *)
Module bytesReader.
Record t : Type := {
  data : list ascii;
  pos : Z
}.
End bytesReader.

(** [r.Read(p)] for a buffer [p] of [m] bytes: the bytes copied to the
    front of [p], their number [n], the error, and the reader after the
    call.  Slicing [r.data[r.pos:]] panics for a negative position. *)
Definition bytesReader_Read (m : Z) (r : bytesReader.t)
  : outcome ((list ascii * Z * option error) * bytesReader.t) :=
  if GoInt.len (bytesReader.data r) <=? bytesReader.pos r then
    Ret (([], 0, Some io_EOF), r)
  else if bytesReader.pos r <? 0 then Panic
  else
    let copied :=
      firstn (Z.to_nat m) (skipn (Z.to_nat (bytesReader.pos r)) (bytesReader.data r)) in
    let n := GoInt.len copied in
    Ret ((copied, n, None),
         {| bytesReader.data := bytesReader.data r;
            bytesReader.pos := GoInt.add (bytesReader.pos r) n |}).

(** Successive calls of [Read] with buffers of the sizes [ms]: what each
    returned, and the reader after the last. *)
Fixpoint reads (ms : list Z) (r : bytesReader.t)
  : outcome (list (list ascii * Z * option error) * bytesReader.t) :=
  match ms with
  | [] => Ret ([], r)
  | m :: ms' =>
      '(o, r1) <- bytesReader_Read m r ;;
      '(os, r2) <- reads ms' r1 ;;
      Ret (o :: os, r2)
  end.

Section Exports.

(** The remote service, the HTTP transport and the caller's context:
    everything behind [e.client] and [ctx]. *)
Variable B : Type.

(** [client.Post(ctx, path, body, &result)] with an [ExportResponse]
    result: the result after the call and the error. *)
Variable post : string -> Body -> B -> ExportResponse * option error * B.
(** [client.Get(ctx, path, &result)] with an [ExportStatus] result. *)
Variable get : string -> B -> ExportStatus * option error * B.
(** [client.Download(ctx, path)]. *)
Variable download : string -> B -> string * option error * B.
(** [select { case <-ctx.Done(): ...; case <-time.After(d): }]:
    [Some e] when the context's channel was selected, [e] being
    [ctx.Err()]; [None] when the timer was. *)
Variable select : Z -> B -> option error * B.

(** The items of the two exports, with [json.Unmarshal] into a slice
    of each: the decoded slice and the error. *)
Variable ExportedAsset : Type.
Variable ExportedVuln : Type.
Variable unmarshalAssets : string -> list ExportedAsset * option error.
Variable unmarshalVulns : string -> list ExportedVuln * option error.

Record Net : Type := {
  remote : B;
  trace : list Event
}.

Definition connect (b : B) : Net := {| remote := b; trace := [] |}.

Definition client_Post (path : string) (body : Body) (n : Net)
  : ExportResponse * option error * Net :=
  let '(r, e, b) := post path body (remote n) in
  (r, e, {| remote := b; trace := trace n ++ [EvPost path body] |}).

Definition client_Get (path : string) (n : Net)
  : ExportStatus * option error * Net :=
  let '(r, e, b) := get path (remote n) in
  (r, e, {| remote := b; trace := trace n ++ [EvGet path] |}).

Definition client_Download (path : string) (n : Net)
  : string * option error * Net :=
  let '(r, e, b) := download path (remote n) in
  (r, e, {| remote := b; trace := trace n ++ [EvDownload path] |}).

Definition ctx_select (d : Z) (n : Net) : option error * Net :=
  let '(e, b) := select d (remote n) in
  (e, {| remote := b; trace := trace n ++ [EvSelect d] |}).

(** [AssetsExport(ctx, req)]: the identifier, the error, and the
    request [req] points to after the call ([None] for a nil [req],
    whose replacement is local to the call). *)
Definition AssetsExport (req : option ExportAssetsRequest.t) (n : Net)
  : string * option error * option ExportAssetsRequest.t * Net :=
  let r := match req with
           | None => ExportAssetsRequest.empty
           | Some r => r
           end in
  let r := if ExportAssetsRequest.ChunkSize r =? 0
           then {| ExportAssetsRequest.ChunkSize := 1000;
                   ExportAssetsRequest.Filters := ExportAssetsRequest.Filters r;
                   ExportAssetsRequest.IncludeUnlicensed :=
                     ExportAssetsRequest.IncludeUnlicensed r |}
           else r in
  let req' := match req with None => None | Some _ => Some r end in
  let '(result, e, n1) := client_Post "assets/export" (AssetsBody r) n in
  match e with
  | Some e => (""%string, Some e, req', n1)
  | None => (ExportUUID result, None, req', n1)
  end.

Definition VulnsExport (req : option ExportVulnsRequest.t) (n : Net)
  : string * option error * option ExportVulnsRequest.t * Net :=
  let r := match req with
           | None => ExportVulnsRequest.empty
           | Some r => r
           end in
  let r := if ExportVulnsRequest.NumAssets r =? 0
           then {| ExportVulnsRequest.NumAssets := 500;
                   ExportVulnsRequest.Filters := ExportVulnsRequest.Filters r;
                   ExportVulnsRequest.IncludeUnlicensed :=
                     ExportVulnsRequest.IncludeUnlicensed r |}
           else r in
  let req' := match req with None => None | Some _ => Some r end in
  let '(result, e, n1) := client_Post "vulns/export" (VulnsBody r) n in
  match e with
  | Some e => (""%string, Some e, req', n1)
  | None => (ExportUUID result, None, req', n1)
  end.

(** The three status calls differ by their path only. *)
Definition exportStatus (path : string) (n : Net)
  : option ExportStatus * option error * Net :=
  let '(result, e, n1) := client_Get path n in
  match e with
  | Some e => (None, Some e, n1)
  | None => (Some result, None, n1)
  end.

Definition AssetsExportStatus (exportUUID : string) :=
  exportStatus ("assets/export/" ++ exportUUID ++ "/status").
Definition VulnsExportStatus (exportUUID : string) :=
  exportStatus ("vulns/export/" ++ exportUUID ++ "/status").
Definition ComplianceExportStatus (exportUUID : string) :=
  exportStatus ("compliance/export/" ++ exportUUID ++ "/status").

(** The chunk calls return a [bytesReader] over the downloaded bytes,
    modelled by the bytes. *)
Definition exportChunk (path : string) (n : Net)
  : string * option error * Net :=
  let '(data, e, n1) := client_Download path n in
  match e with
  | Some e => (""%string, Some e, n1)
  | None => (data, None, n1)
  end.

Definition AssetsExportChunk (exportUUID : string) (chunkID : Z) :=
  exportChunk ("assets/export/" ++ exportUUID ++ "/chunks/" ++ Itoa chunkID).
Definition VulnsExportChunk (exportUUID : string) (chunkID : Z) :=
  exportChunk ("vulns/export/" ++ exportUUID ++ "/chunks/" ++ Itoa chunkID).

(** [io.ReadAll] of a fresh [bytesReader]: its [Read] hands out the
    bytes and then [io.EOF], which [ReadAll] does not report. *)
Definition ReadAll (reader : string) : string * option error :=
  (reader, None).

(** The loop of [WaitForExport]. *)
Fixpoint waitLoop (fuel : nat) (exportType exportUUID : string)
    (pollInterval : Z) (n : Net)
  : outcome (option ExportStatus * option error * Net) :=
  match fuel with
  | O => OutOfFuel
  | S fuel' =>
      let polled :=
        if (exportType =? "assets")%string
        then Some (AssetsExportStatus exportUUID n)
        else if (exportType =? "vulns")%string
        then Some (VulnsExportStatus exportUUID n)
        else if (exportType =? "compliance")%string
        then Some (ComplianceExportStatus exportUUID n)
        else None in
      match polled with
      | None =>
          Ret (None, Some (ValidationError "exportType" "invalid export type"), n)
      | Some (_, Some e, n1) => Ret (None, Some e, n1)
      | Some (None, None, n1) => Panic (* status.Status of a nil status *)
      | Some (Some status, None, n1) =>
          if (Status status =? "FINISHED")%string
          then Ret (Some status, None, n1)
          else if (Status status =? "CANCELLED")%string
          then Ret (None,
                    Some (ExportError exportType exportUUID "export cancelled"), n1)
          else if (Status status =? "ERROR")%string
          then Ret (None,
                    Some (ExportError exportType exportUUID "export failed"), n1)
          else
            match ctx_select pollInterval n1 with
            | (Some e, n2) => Ret (None, Some e, n2)
            | (None, n2) => waitLoop fuel' exportType exportUUID pollInterval n2
            end
      end
  end.

Definition WaitForExport (fuel : nat) (exportType exportUUID : string)
    (pollInterval : Z) (n : Net)
  : outcome (option ExportStatus * option error * Net) :=
  let pollInterval := if pollInterval =? 0 then 5 * Second else pollInterval in
  waitLoop fuel exportType exportUUID pollInterval n.

(** *** Runs of the polling loop *)

(** The path [WaitForExport] polls for an export type it knows. *)
Definition statusPath (exportType exportUUID : string) : option string :=
  if (exportType =? "assets")%string
  then Some ("assets/export/" ++ exportUUID ++ "/status")%string
  else if (exportType =? "vulns")%string
  then Some ("vulns/export/" ++ exportUUID ++ "/status")%string
  else if (exportType =? "compliance")%string
  then Some ("compliance/export/" ++ exportUUID ++ "/status")%string
  else None.

(** The statuses that end the loop. *)
Definition terminal (status : string) : bool :=
  (status =? "FINISHED")%string || (status =? "CANCELLED")%string
  || (status =? "ERROR")%string.

(** [k] rounds of the loop take the client from [n] to [n']: in each,
    the poll of [path] succeeds with a status that does not end the loop
    and the wait of [d] ends by the timer. *)
Inductive pending (path : string) (d : Z) : nat -> Net -> Net -> Prop :=
| pending_O (n : Net) : pending path d 0 n n
| pending_S (k : nat) (n n1 n2 n3 : Net) (st : ExportStatus) :
    client_Get path n = (st, None, n1) ->
    terminal (Status st) = false ->
    ctx_select d n1 = (None, n2) ->
    pending path d k n2 n3 ->
    pending path d (S k) n n3.

(** *** The shape of the trace of an export iterator *)

Definition isPoll (ev : Event) : bool :=
  match ev with
  | EvGet _ | EvSelect _ => true
  | _ => false
  end.

Definition isDownload (ev : Event) : bool :=
  match ev with
  | EvDownload _ => true
  | _ => false
  end.

(** One submit to [path], then the polls and waits of one
    [WaitForExport], then chunk downloads only. *)
Definition submitted_once (path : string) (tr : list Event) : Prop :=
  exists body polls downloads,
    tr = EvPost path body :: polls ++ downloads /\
    Forall (fun ev => isPoll ev = true) polls /\
    Forall (fun ev => isDownload ev = true) downloads.

(** The submit endpoint never answers a success without an identifier. *)
Definition gives_identifiers : Prop :=
  forall path body b r b',
    post path body b = (r, None, b') -> ExportUUID r <> ""%string.

(** The variables the fetcher of [AssetsIterator] closes over. *)
Record AssetsVars : Type := {
  a_req : option ExportAssetsRequest.t;
  a_exportUUID : string;
  a_status : option ExportStatus;
  a_currentChunk : Z;
  a_chunkData : list ExportedAsset
}.

Definition AssetsState : Type := (AssetsVars * Net)%type.

(** The fetcher of [AssetsIterator]; [fuel] bounds the polls of its
    [WaitForExport]. *)
Definition AssetsIterator_fetcher (fuel : nat) : PageFetcher AssetsState :=
  fun _ _ '(v, n) =>
    (* Initialize export if needed *)
    let '(stop1, v1, n1) :=
      if (a_exportUUID v =? "")%string then
        let '(uuid, e, req', n1) := AssetsExport (a_req v) n in
        let v' := {| a_req := req'; a_exportUUID := a_exportUUID v;
                     a_status := a_status v;
                     a_currentChunk := a_currentChunk v;
                     a_chunkData := a_chunkData v |} in
        match e with
        | Some e => (Some e, v', n1)
        | None =>
            (None,
             {| a_req := req'; a_exportUUID := uuid; a_status := a_status v;
                a_currentChunk := a_currentChunk v;
                a_chunkData := a_chunkData v |}, n1)
        end
      else (None, v, n) in
    match stop1 with
    | Some e => Ret ((""%string, None, Some e), (v1, n1))
    | None =>
        (* Wait for export and get status *)
        '(stop2, v2, n2) <-
          match a_status v1 with
          | None =>
              '(s, e, n2) <-
                WaitForExport fuel "assets" (a_exportUUID v1) (5 * Second) n1 ;;
              match e with
              | Some e => Ret (Some e, v1, n2)
              | None =>
                  Ret (None,
                       {| a_req := a_req v1; a_exportUUID := a_exportUUID v1;
                          a_status := s;
                          a_currentChunk := a_currentChunk v1;
                          a_chunkData := a_chunkData v1 |}, n2)
              end
          | Some _ => Ret (None, v1, n1)
          end ;;
        match stop2 with
        | Some e => Ret ((""%string, None, Some e), (v2, n2))
        | None =>
            match a_status v2 with
            | None => Panic (* status.ChunksAvailable of a nil status *)
            | Some status =>
                (* Check if we have more chunks *)
                if GoInt.len (ChunksAvailable status) <=? a_currentChunk v2 then
                  Ret (("[]"%string,
                        Some {| Total := 0; Limit := 0; Offset := 0 |}, None),
                       (v2, n2))
                else
                  (* Download chunk *)
                  match GoInt.index (ChunksAvailable status) (a_currentChunk v2) with
                  | None => Panic
                  | Some chunkID =>
                      let '(reader, e, n3) :=
                        AssetsExportChunk (a_exportUUID v2) chunkID n2 in
                      match e with
                      | Some e => Ret ((""%string, None, Some e), (v2, n3))
                      | None =>
                          let '(data, e) := ReadAll reader in
                          match e with
                          | Some e => Ret ((""%string, None, Some e), (v2, n3))
                          | None =>
                              let '(decoded, e) := unmarshalAssets data in
                              let v3 :=
                                {| a_req := a_req v2;
                                   a_exportUUID := a_exportUUID v2;
                                   a_status := a_status v2;
                                   a_currentChunk := a_currentChunk v2;
                                   a_chunkData := decoded |} in
                              match e with
                              | Some e => Ret ((""%string, None, Some e), (v3, n3))
                              | None =>
                                  Ret ((data,
                                        Some {| Total :=
                                                  GoInt.len (ChunksAvailable status);
                                                Limit := 0; Offset := 0 |},
                                        None),
                                       ({| a_req := a_req v3;
                                           a_exportUUID := a_exportUUID v3;
                                           a_status := a_status v3;
                                           a_currentChunk :=
                                             GoInt.add (a_currentChunk v3) 1;
                                           a_chunkData := a_chunkData v3 |}, n3))
                              end
                          end
                      end
                  end
            end
        end
    end.

Definition AssetsIterator_transformer : ItemTransformer ExportedAsset :=
  unmarshalAssets.

(** [AssetsIterator(ctx, req)]: the iterator [NewIterator] returns and
    the variables of its fetcher as declared. *)
Definition AssetsIterator (zero : ExportedAsset)
    (req : option ExportAssetsRequest.t)
  : Iterator ExportedAsset * AssetsVars :=
  (NewIterator zero [],
   {| a_req := req; a_exportUUID := ""; a_status := None;
      a_currentChunk := 0; a_chunkData := [] |}).

(** The variables the fetcher of [VulnsIterator] closes over. *)
Record VulnsVars : Type := {
  v_req : option ExportVulnsRequest.t;
  v_exportUUID : string;
  v_status : option ExportStatus;
  v_currentChunk : Z
}.

Definition VulnsState : Type := (VulnsVars * Net)%type.

Definition VulnsIterator_fetcher (fuel : nat) : PageFetcher VulnsState :=
  fun _ _ '(v, n) =>
    (* Initialize export if needed *)
    let '(stop1, v1, n1) :=
      if (v_exportUUID v =? "")%string then
        let '(uuid, e, req', n1) := VulnsExport (v_req v) n in
        let v' := {| v_req := req'; v_exportUUID := v_exportUUID v;
                     v_status := v_status v;
                     v_currentChunk := v_currentChunk v |} in
        match e with
        | Some e => (Some e, v', n1)
        | None =>
            (None,
             {| v_req := req'; v_exportUUID := uuid; v_status := v_status v;
                v_currentChunk := v_currentChunk v |}, n1)
        end
      else (None, v, n) in
    match stop1 with
    | Some e => Ret ((""%string, None, Some e), (v1, n1))
    | None =>
        (* Wait for export and get status *)
        '(stop2, v2, n2) <-
          match v_status v1 with
          | None =>
              '(s, e, n2) <-
                WaitForExport fuel "vulns" (v_exportUUID v1) (5 * Second) n1 ;;
              match e with
              | Some e => Ret (Some e, v1, n2)
              | None =>
                  Ret (None,
                       {| v_req := v_req v1; v_exportUUID := v_exportUUID v1;
                          v_status := s;
                          v_currentChunk := v_currentChunk v1 |}, n2)
              end
          | Some _ => Ret (None, v1, n1)
          end ;;
        match stop2 with
        | Some e => Ret ((""%string, None, Some e), (v2, n2))
        | None =>
            match v_status v2 with
            | None => Panic (* status.ChunksAvailable of a nil status *)
            | Some status =>
                (* Check if we have more chunks *)
                if GoInt.len (ChunksAvailable status) <=? v_currentChunk v2 then
                  Ret (("[]"%string,
                        Some {| Total := 0; Limit := 0; Offset := 0 |}, None),
                       (v2, n2))
                else
                  (* Download chunk *)
                  match GoInt.index (ChunksAvailable status) (v_currentChunk v2) with
                  | None => Panic
                  | Some chunkID =>
                      let '(reader, e, n3) :=
                        VulnsExportChunk (v_exportUUID v2) chunkID n2 in
                      match e with
                      | Some e => Ret ((""%string, None, Some e), (v2, n3))
                      | None =>
                          let '(data, e) := ReadAll reader in
                          match e with
                          | Some e => Ret ((""%string, None, Some e), (v2, n3))
                          | None =>
                              Ret ((data,
                                    Some {| Total :=
                                              GoInt.len (ChunksAvailable status);
                                            Limit := 0; Offset := 0 |},
                                    None),
                                   ({| v_req := v_req v2;
                                       v_exportUUID := v_exportUUID v2;
                                       v_status := v_status v2;
                                       v_currentChunk :=
                                         GoInt.add (v_currentChunk v2) 1 |}, n3))
                          end
                      end
                  end
            end
        end
    end.

Definition VulnsIterator_transformer : ItemTransformer ExportedVuln :=
  unmarshalVulns.

Definition VulnsIterator (zero : ExportedVuln)
    (req : option ExportVulnsRequest.t)
  : Iterator ExportedVuln * VulnsVars :=
  (NewIterator zero [],
   {| v_req := req; v_exportUUID := ""; v_status := None;
      v_currentChunk := 0 |}).

(** What holds of the state of the fetcher of [AssetsIterator]
    throughout: nothing was asked of the client yet, or one job was
    submitted. *)
Definition assets_shape (s : AssetsState) : Prop :=
  trace (snd s) = [] \/ submitted_once "assets/export" (trace (snd s)).

(** What holds of it as long as no fetch failed: it is as declared, or
    it holds the identifier and the status of the one job submitted. *)
Definition assets_inv (s : AssetsState) : Prop :=
  (a_exportUUID (fst s) = ""%string /\ a_status (fst s) = None /\
   trace (snd s) = []) \/
  (a_exportUUID (fst s) <> ""%string /\ a_status (fst s) <> None /\
   submitted_once "assets/export" (trace (snd s))).

(** What holds of the state of the fetcher of [VulnsIterator]
    throughout: nothing was asked of the client yet, or one job was
    submitted. *)
Definition vulns_shape (s : VulnsState) : Prop :=
  trace (snd s) = [] \/ submitted_once "vulns/export" (trace (snd s)).

(** What holds of it as long as no fetch failed: it is as declared, or
    it holds the identifier and the status of the one job submitted. *)
Definition vulns_inv (s : VulnsState) : Prop :=
  (v_exportUUID (fst s) = ""%string /\ v_status (fst s) = None /\
   trace (snd s) = []) \/
  (v_exportUUID (fst s) <> ""%string /\ v_status (fst s) <> None /\
   submitted_once "vulns/export" (trace (snd s))).

(** *** The downloads of an export iterator *)

(** The downloads among the requests made. *)
Definition downloads (tr : list Event) : list Event := filter isDownload tr.

(** The downloads of the chunks [ids] of the export [uuid], in turn. *)
Definition assets_chunk_events (uuid : string) (ids : list Z) : list Event :=
  map (fun c => EvDownload ("assets/export/" ++ uuid ++ "/chunks/" ++ Itoa c)) ids.
Definition vulns_chunk_events (uuid : string) (ids : list Z) : list Event :=
  map (fun c => EvDownload ("vulns/export/" ++ uuid ++ "/chunks/" ++ Itoa c)) ids.

(** What holds of the fetcher of [AssetsIterator] as long as no fetch
    failed: before the status is known nothing was downloaded; from then
    on the chunks before the current one were, in the order listed. *)
Definition assets_downloads_inv (s : AssetsState) : Prop :=
  match a_status (fst s) with
  | None =>
      a_exportUUID (fst s) = ""%string /\ a_currentChunk (fst s) = 0 /\
      downloads (trace (snd s)) = []
  | Some st =>
      a_exportUUID (fst s) <> ""%string /\
      GoInt.MinInt <= a_currentChunk (fst s) <= GoInt.MaxInt /\
      (0 <= a_currentChunk (fst s) ->
       downloads (trace (snd s))
       = assets_chunk_events (a_exportUUID (fst s))
           (firstn (Z.to_nat (a_currentChunk (fst s))) (ChunksAvailable st)))
  end.

(** What holds of it throughout: the downloads made are those of the
    first chunks listed, in the order listed. *)
Definition assets_downloads_shape (s : AssetsState) : Prop :=
  match a_status (fst s) with
  | None => downloads (trace (snd s)) = []
  | Some st =>
      exists j,
        downloads (trace (snd s))
        = assets_chunk_events (a_exportUUID (fst s)) (firstn j (ChunksAvailable st))
  end.

Definition vulns_downloads_inv (s : VulnsState) : Prop :=
  match v_status (fst s) with
  | None =>
      v_exportUUID (fst s) = ""%string /\ v_currentChunk (fst s) = 0 /\
      downloads (trace (snd s)) = []
  | Some st =>
      v_exportUUID (fst s) <> ""%string /\
      GoInt.MinInt <= v_currentChunk (fst s) <= GoInt.MaxInt /\
      (0 <= v_currentChunk (fst s) ->
       downloads (trace (snd s))
       = vulns_chunk_events (v_exportUUID (fst s))
           (firstn (Z.to_nat (v_currentChunk (fst s))) (ChunksAvailable st)))
  end.

Definition vulns_downloads_shape (s : VulnsState) : Prop :=
  match v_status (fst s) with
  | None => downloads (trace (snd s)) = []
  | Some st =>
      exists j,
        downloads (trace (snd s))
        = vulns_chunk_events (v_exportUUID (fst s)) (firstn j (ChunksAvailable st))
  end.

End Exports.

(* ---------------------------------------------------------------- *)
(** ** pkg/tio: a paged listing, [AgentsAPI.List] *)

Module AgentListOptions.
Record t : Type := {
  ScannerID : Z;
  Limit : Z;
  Offset : Z;
  Sort : string;
  Filter : string;
  Wildcard : string;
  WildcardFields : string
}.
End AgentListOptions.

Section Agents.

(** The remote service behind the client, and the item type [Agent]. *)
Variable B : Type.
Variable Agent : Type.

(** [client.GetWithParams(ctx, path, params, &result)] with the result
    struct of [List]: the agents and the pagination it decoded, and the
    error.  The [map[string]string] of parameters is given as the list
    of its entries; its keys are distinct. *)
Variable getWithParams :
  string -> list (string * string) -> B
  -> (list Agent * PaginationInfo) * option error * B.
(** [json.Marshal] of the agents, whose error [List] drops, and
    [json.Unmarshal] into a slice of them. *)
Variable Marshal : list Agent -> RawMessage.
Variable Unmarshal : RawMessage -> list Agent * option error.

(** The service with the requests made of it, in order: the path and
    the parameters of each. *)
Record Listing : Type := {
  service : B;
  asked : list (string * list (string * string))
}.

Definition listing (b : B) : Listing := {| service := b; asked := [] |}.

Definition client_GetWithParams (path : string) (params : list (string * string))
    (n : Listing)
  : (list Agent * PaginationInfo) * option error * Listing :=
  let '(r, e, b) := getWithParams path params (service n) in
  (r, e, {| service := b; asked := asked n ++ [(path, params)] |}).

(** The fetcher of [List], a closure over [opts] and [scannerID]. *)
Definition AgentsAPI_List_fetcher (opts : option AgentListOptions.t)
    (scannerID : Z) : PageFetcher Listing :=
  fun offset limit n =>
    let params := [("limit", Itoa limit); ("offset", Itoa offset)]%string in
    let params :=
      match opts with
      | Some o =>
          let params :=
            if (AgentListOptions.Sort o =? "")%string then params
            else params ++ [("sort"%string, AgentListOptions.Sort o)] in
          let params :=
            if (AgentListOptions.Filter o =? "")%string then params
            else params ++ [("f"%string, AgentListOptions.Filter o)] in
          let params :=
            if (AgentListOptions.Wildcard o =? "")%string then params
            else params ++ [("w"%string, AgentListOptions.Wildcard o)] in
          if (AgentListOptions.WildcardFields o =? "")%string then params
          else params ++ [("wf"%string, AgentListOptions.WildcardFields o)]
      | None => params
      end in
    let '(result, e, n1) :=
      client_GetWithParams ("scanners/" ++ Itoa scannerID ++ "/agents") params n in
    match e with
    | Some e => Ret ((""%string, None, Some e), n1)
    | None =>
        Ret ((Marshal (fst result),
              Some {| Total := Total (snd result);
                      Limit := Limit (snd result);
                      Offset := Offset (snd result) |},
              None), n1)
    end.

Definition AgentsAPI_List_transformer : ItemTransformer Agent := Unmarshal.

(** [List(ctx, opts)]: the iterator it returns, with its fetcher. *)
Definition AgentsAPI_List (zero : Agent) (opts : option AgentListOptions.t)
  : Iterator Agent * PageFetcher Listing :=
  let scannerID :=
    match opts with
    | Some o => if 0 <? AgentListOptions.ScannerID o
                then AgentListOptions.ScannerID o else 1
    | None => 1
    end in
  let limit :=
    match opts with
    | Some o => if 0 <? AgentListOptions.Limit o
                then AgentListOptions.Limit o else 100
    | None => 100
    end in
  let offset :=
    match opts with
    | Some o => if 0 <? AgentListOptions.Offset o
                then AgentListOptions.Offset o else 0
    | None => 0
    end in
  (NewIterator zero [WithLimit limit; WithOffset offset],
   AgentsAPI_List_fetcher opts scannerID).

(** What holds of the requests of a listing that asks for pages of [l]
    agents of the scanner [sid], from the offset [o] on: the iterator
    keeps its page size; every request made is for that scanner and that
    page size; the first one is for the offset [o], and until it is made
    the iterator's offset is [o]. *)
Definition listing_requests (sid l o : Z) (it : Iterator Agent)
    (n : Listing) : Prop :=
  limit it = l /\
  Forall (fun q =>
            fst q = ("scanners/" ++ Itoa sid ++ "/agents")%string /\
            exists off rest,
              snd q = ("limit"%string, Itoa l) :: ("offset"%string, Itoa off) :: rest)
         (asked n) /\
  match asked n with
  | [] => offset it = o
  | q :: _ => In ("offset"%string, Itoa o) (snd q)
  end.

End Agents.

(* ---------------------------------------------------------------- *)
(** ** pkg/tio: a listing by page number, [PluginsAPI.List] *)

Module Plugin.
Record t : Type := {
  ID : Z;
  Name : string;
  FamilyName : string
}.
End Plugin.

Module PluginListOptions.
Record t : Type := {
  Size : Z;
  Page : Z;
  LastUpdated : Z
}.
End PluginListOptions.

(** An entry of [plugin_family_details] in the result of the listing. *)
Module PluginFamilyDetail.
Record t : Type := {
  ID : Z;
  Name : string;
  Plugins : list Plugin.t
}.
End PluginFamilyDetail.

(** The result struct of the listing: the counts of its [PluginData],
    and the families. *)
Record PluginsResult : Type := {
  FamilyCount : Z;
  PluginCount : Z;
  PluginFamilyDetails : list PluginFamilyDetail.t
}.

Section Plugins.

Variable B : Type.

(** [client.GetWithParams(ctx, path, params, &result)] with the result
    struct of [PluginsAPI.List]. *)
Variable getPlugins :
  string -> list (string * string) -> B -> PluginsResult * option error * B.
Variable Marshal : list Plugin.t -> RawMessage.
Variable Unmarshal : RawMessage -> list Plugin.t * option error.

Definition client_GetPlugins (path : string) (params : list (string * string))
    (n : Listing B) : PluginsResult * option error * Listing B :=
  let '(r, e, b) := getPlugins path params (service n) in
  (r, e, {| service := b; asked := asked n ++ [(path, params)] |}).

(** The fetcher of [List].  [offset / limit] is Go's integer division,
    which truncates and panics on a zero divisor. *)
Definition PluginsAPI_List_fetcher (opts : option PluginListOptions.t)
  : PageFetcher (Listing B) :=
  fun offset limit n =>
    if limit =? 0 then Panic
    else
      let params :=
        [("size", Itoa limit);
         ("page", Itoa (GoInt.wrap (Z.quot offset limit)))]%string in
      let params :=
        match opts with
        | Some o =>
            if 0 <? PluginListOptions.LastUpdated o
            then params ++ [("last_updated"%string,
                             Itoa (PluginListOptions.LastUpdated o))]
            else params
        | None => params
        end in
      let '(result, e, n1) := client_GetPlugins "plugins" params n in
      match e with
      | Some e => Ret ((""%string, None, Some e), n1)
      | None =>
          let plugins :=
            flat_map
              (fun family =>
                 map (fun plugin =>
                        {| Plugin.ID := Plugin.ID plugin;
                           Plugin.Name := Plugin.Name plugin;
                           Plugin.FamilyName := PluginFamilyDetail.Name family |})
                     (PluginFamilyDetail.Plugins family))
              (PluginFamilyDetails result) in
          Ret ((Marshal plugins,
                Some {| Total := PluginCount result; Limit := 0; Offset := 0 |},
                None), n1)
      end.

(** [List(ctx, opts)]: the iterator it returns, with its fetcher. *)
Definition PluginsAPI_List (zero : Plugin.t) (opts : option PluginListOptions.t)
  : Iterator Plugin.t * PageFetcher (Listing B) :=
  (NewIterator zero [], PluginsAPI_List_fetcher opts).

(** The parameter [last_updated] of a request, when the options ask for
    one. *)
Definition last_updated_param (opts : option PluginListOptions.t)
  : list (string * string) :=
  match opts with
  | Some o =>
      if 0 <? PluginListOptions.LastUpdated o
      then [("last_updated"%string, Itoa (PluginListOptions.LastUpdated o))]
      else []
  | None => []
  end.

(** The request [List] makes for the logged invocation [c] of its
    fetcher. *)
Definition plugins_request (opts : option PluginListOptions.t) (c : FetchCall)
  : string * list (string * string) :=
  ("plugins"%string,
   ("size"%string, Itoa 100)
     :: ("page"%string, Itoa (GoInt.wrap (Z.quot (call_offset c) 100)))
     :: last_updated_param opts).

End Plugins.

End tio.

(* ================================================================== *)
(** ** Test doubles

    Fetchers and backends in the manner of the mocks of
    [iterator_test.go], on which the properties below are run. *)

Module scenario.

Import base.

(** Items are characters, and the raw data of a page is the string of
    its items; data longer than a page can be is rejected. *)
Definition chars : ItemTransformer ascii :=
  fun data =>
    if (String.length data <=? 64)%nat
    then (list_ascii_of_string data, None)
    else ([], Some (LibError "page too long")).

(** A fetcher that plays a script: its state is the list of the results
    it still has to return; past the script it returns empty pages. *)
Definition scripted : PageFetcher (list FetchResult) :=
  fun _ _ script =>
    match script with
    | [] => Ret ((""%string, None, None), [])
    | r :: rest => Ret (r, rest)
    end.

Definition page_of (data : string) (t : Z) : FetchResult :=
  (data, Some {| Total := t; Limit := 0; Offset := 0 |}, None).

Definition fetch_error (e : error) : FetchResult :=
  (""%string, None, Some e).

(** Two pages of two items, then a transport error on the third fetch. *)
Definition two_pages_then_error : list FetchResult :=
  [page_of "ab" 9; page_of "cd" 9;
   fetch_error (ConnectionError "u" "request failed" "reset")].

(** A backend whose second page reports a smaller total than the first. *)
Definition shrinking_total : list FetchResult :=
  [page_of "ab" 5; page_of "cd" 3].

(** A fetcher over a fixed collection, as [createFetcher] of
    [TestIterator]: the items from [offset], at most [limit] of them,
    and the size of the collection as total. *)
Definition collection (allItems : string) : PageFetcher unit :=
  fun off lim _ =>
    Ret ((substring (Z.to_nat off) (Z.to_nat lim) allItems,
          Some {| Total := Z.of_nat (String.length allItems);
                  Limit := lim; Offset := off |},
          None), tt).

(** A remote service in the manner of an [httptest] server.  Its state:
    what the submit endpoint answers; the answers the status endpoint
    has yet to give, in order (once it has given them all it answers a
    finished export without chunks); what the waits between polls have
    yet to end by (the timer, once the list is used up); and the bodies
    of the chunk files by path. *)
Inductive Answer : Type :=
| Answers (st : tio.ExportStatus)
| Fails (e : error).

Record Remote : Type := {
  submit_answer : tio.ExportResponse * option error;
  poll_answers : list Answer;
  wait_ends : list (option error);
  files : list (string * string)
}.

(** A status with the given name and available chunks, all else zero. *)
Definition status_of (name : string) (chunks : list Z) : tio.ExportStatus :=
  {| tio.Status := name; tio.ChunksAvailable := chunks; tio.ChunksCancelled := [];
     tio.ChunksFailed := []; tio.TotalChunks := 0; tio.ChunksFinished := 0;
     tio.NumAssetsPerChunk := 0; tio.Created := 0; tio.UUID := "";
     tio.EmptyChunksCount := 0; tio.Filters := [] |}.

Definition remote_post (path : string) (body : tio.Body) (b : Remote)
  : tio.ExportResponse * option error * Remote :=
  (fst (submit_answer b), snd (submit_answer b), b).

Definition remote_get (path : string) (b : Remote)
  : tio.ExportStatus * option error * Remote :=
  match poll_answers b with
  | [] => (status_of "FINISHED" [], None, b)
  | a :: rest =>
      let b' := {| submit_answer := submit_answer b; poll_answers := rest;
                   wait_ends := wait_ends b; files := files b |} in
      match a with
      | Answers st => (st, None, b')
      | Fails e => (status_of "" [], Some e, b')
      end
  end.

(** A submit endpoint that accepts every job, under one identifier. *)
Definition accepting_post (path : string) (body : tio.Body) (b : Remote)
  : tio.ExportResponse * option error * Remote :=
  ({| tio.ExportUUID := "job-1" |}, None, b).

Fixpoint lookup (path : string) (fs : list (string * string)) : option string :=
  match fs with
  | [] => None
  | (p, body) :: fs' => if (p =? path)%string then Some body else lookup path fs'
  end.

Definition remote_download (path : string) (b : Remote)
  : string * option error * Remote :=
  match lookup path (files b) with
  | Some body => (body, None, b)
  | None => (""%string, Some (APIError 404 "Not Found" ""), b)
  end.

Definition remote_select (d : Z) (b : Remote) : option error * Remote :=
  match wait_ends b with
  | [] => (None, b)
  | e :: rest =>
      (e, {| submit_answer := submit_answer b; poll_answers := poll_answers b;
             wait_ends := rest; files := files b |})
  end.

(** Exported items are characters; a chunk body is the string of its
    items, and the literal the fetchers use for the empty page decodes
    to no item. *)
Definition unmarshal : string -> list ascii * option error :=
  fun data => if (data =? "[]")%string then ([], None) else chars data.

(** The job of property P6: two polls answer SUBMITTED, the third
    FINISHED with the chunks 1, 2 and 3, which hold the items [ab], [cd]
    and [e]. *)
Definition three_chunks : Remote :=
  {| submit_answer := ({| tio.ExportUUID := "job-1" |}, None);
     poll_answers := [Answers (status_of "SUBMITTED" []);
                      Answers (status_of "SUBMITTED" []);
                      Answers (status_of "FINISHED" [1; 2; 3])];
     wait_ends := [];
     files := [("assets/export/job-1/chunks/1", "ab");
               ("assets/export/job-1/chunks/2", "cd");
               ("assets/export/job-1/chunks/3", "e");
               ("vulns/export/job-1/chunks/1", "ab");
               ("vulns/export/job-1/chunks/2", "cd");
               ("vulns/export/job-1/chunks/3", "e")]%string |}.

(** A service whose submit endpoint answers 200 without an
    [export_uuid], so that the identifier decodes to the empty string;
    the export is finished at once, with two chunks of one item. *)
Definition no_uuid : Remote :=
  {| submit_answer := ({| tio.ExportUUID := "" |}, None);
     poll_answers := [Answers (status_of "FINISHED" [1; 2])];
     wait_ends := [];
     files := [("assets/export//chunks/1", "a");
               ("assets/export//chunks/2", "b");
               ("vulns/export//chunks/1", "a");
               ("vulns/export//chunks/2", "b")]%string |}.

(** The iterators of [AssetsIterator] and [VulnsIterator] over such a
    service: the fetcher (with fuel for 9 polls), the transformer, the
    new iterator and the initial state of the fetcher. *)
Definition assets_fetcher :=
  tio.AssetsIterator_fetcher remote_post remote_get remote_download remote_select
    unmarshal 9.

Definition vulns_fetcher :=
  tio.VulnsIterator_fetcher remote_post remote_get remote_download remote_select 9.

Definition assets_start (b : Remote) :=
  fresh (snd (tio.AssetsIterator " "%char None), tio.connect b).

Definition vulns_start (b : Remote) :=
  fresh (snd (tio.VulnsIterator " "%char None), tio.connect b).

(** Two visitors for [ForEach]: one gathers the items it is given, the
    other does so until it meets the item [c], which it refuses. *)
Definition gather : ascii -> list ascii -> option error * list ascii :=
  fun x seen => (None, seen ++ [x]).

Definition refuse (c : ascii) : ascii -> list ascii -> option error * list ascii :=
  fun x seen =>
    if Ascii.eqb x c then (Some (LibError "refused"), seen)
    else (None, seen ++ [x]).

(** A listing endpoint that plays a script: its state is the list of
    the pages it still has to return, each with its pagination; past the
    script it returns empty pages. *)
Definition scripted_listing (path : string) (params : list (string * string))
    (script : list (list ascii * PaginationInfo))
  : (list ascii * PaginationInfo) * option error
    * list (list ascii * PaginationInfo) :=
  match script with
  | [] => (([], {| Total := 0; Limit := 0; Offset := 0 |}), None, [])
  | r :: rest => (r, None, rest)
  end.

(** Three agents in pages of two. *)
Definition three_agents : list (list ascii * PaginationInfo) :=
  [(["a"; "b"]%char, {| Total := 3; Limit := 2; Offset := 0 |});
   (["c"]%char, {| Total := 3; Limit := 2; Offset := 2 |})].

(** Options that ask for pages of two, sorted by name, and leave the
    scanner and the offset to the defaults, the offset by a negative
    value. *)
Definition by_name : tio.AgentListOptions.t :=
  {| tio.AgentListOptions.ScannerID := 0;
     tio.AgentListOptions.Limit := 2;
     tio.AgentListOptions.Offset := -3;
     tio.AgentListOptions.Sort := "name";
     tio.AgentListOptions.Filter := "";
     tio.AgentListOptions.Wildcard := "";
     tio.AgentListOptions.WildcardFields := "" |}.

(** A plugin listing endpoint that plays a script, and a coding of
    plugins by the first letter of their names. *)
Definition scripted_plugins (path : string) (params : list (string * string))
    (script : list tio.PluginsResult)
  : tio.PluginsResult * option error * list tio.PluginsResult :=
  match script with
  | [] => ({| tio.FamilyCount := 0; tio.PluginCount := 0;
              tio.PluginFamilyDetails := [] |}, None, [])
  | r :: rest => (r, None, rest)
  end.

Definition plugin_named (c : ascii) : tio.Plugin.t :=
  {| tio.Plugin.ID := 0; tio.Plugin.Name := String c "";
     tio.Plugin.FamilyName := "" |}.

Definition initials (ps : list tio.Plugin.t) : string :=
  string_of_list_ascii
    (map (fun p => match tio.Plugin.Name p with
                   | String c _ => c
                   | EmptyString => " "%char
                   end) ps).

Definition by_initials (data : string) : list tio.Plugin.t * option error :=
  (map plugin_named (list_ascii_of_string data), None).

(** A service with four plugins that hands out two on every page. *)
Definition short_pages : list tio.PluginsResult :=
  let page := {| tio.FamilyCount := 1; tio.PluginCount := 4;
                 tio.PluginFamilyDetails :=
                   [{| tio.PluginFamilyDetail.ID := 7;
                       tio.PluginFamilyDetail.Name := "F";
                       tio.PluginFamilyDetail.Plugins :=
                         [plugin_named "a"; plugin_named "b"] |}] |} in
  [page; page; page].

Definition isPost (ev : tio.Event) : bool :=
  match ev with tio.EvPost _ _ => true | _ => false end.

End scenario.

(* ================================================================== *)
(** * Properties *)

Unset Implicit Arguments.

(** Case analysis along the branches of the code in [H], innermost
    scrutinee first. *)
Ltac split_code H :=
  repeat match type of H with
         | context [match ?x with _ => _ end] =>
             lazymatch x with
             | context [match _ with _ => _ end] => fail
             | _ => destruct x eqn:?
             end
         end.

Module GoIntFacts.

Import GoInt.

Lemma wrap_small (z : Z) : MinInt <= z <= MaxInt -> wrap z = z.
Proof.
  unfold wrap, MinInt, MaxInt. intros H.
  rewrite Z.mod_small by lia. lia.
Qed.

Lemma add_small (a b : Z) : MinInt <= a + b <= MaxInt -> add a b = a + b.
Proof. apply wrap_small. Qed.

Lemma len_nonneg {A : Type} (s : list A) : 0 <= len s.
Proof. unfold len. lia. Qed.

Lemma len_app {A : Type} (s t : list A) : len (s ++ t) = len s + len t.
Proof. unfold len. rewrite length_app. lia. Qed.

Lemma len_zero {A : Type} (s : list A) : len s = 0 -> s = [].
Proof. unfold len. destruct s; cbn; [reflexivity | lia]. Qed.

Lemma index_in_range {A : Type} (s : list A) (i : Z) :
  0 <= i < len s ->
  exists x, index s i = Some x /\ nth_error s (Z.to_nat i) = Some x.
Proof.
  unfold index, len. intros H.
  destruct (i <? 0) eqn:E; [apply Z.ltb_lt in E; lia|].
  destruct (nth_error s (Z.to_nat i)) as [x|] eqn:N.
  - exists x. auto.
  - apply nth_error_None in N. lia.
Qed.

Lemma skipn_step {A : Type} (s : list A) (k : nat) (x : A) :
  nth_error s k = Some x -> skipn k s = x :: skipn (S k) s.
Proof.
  revert k. induction s as [|a s IH]; intros [|k] H; cbn in *; try discriminate.
  - now inversion H.
  - now apply IH.
Qed.

Lemma skipn_len_app {A : Type} (a b : list A) :
  skipn (Z.to_nat (len a)) (a ++ b) = b.
Proof.
  unfold len. rewrite Nat2Z.id, skipn_app, skipn_all, Nat.sub_diag. reflexivity.
Qed.

Lemma len_cons {A : Type} (x : A) (s : list A) : len (x :: s) = len s + 1.
Proof. unfold len. cbn [length]. lia. Qed.

Lemma len_firstn_le {A : Type} (k : nat) (s : list A) : len (firstn k s) <= len s.
Proof. unfold len. rewrite length_firstn. lia. Qed.

End GoIntFacts.

Module IteratorFacts.

Import GoInt GoIntFacts base.

Section Steps.

Variables T FS : Type.
Variable fetcher : PageFetcher FS.
Variable transformer : ItemTransformer T.

Abbreviation Next := (Next fetcher transformer).
Abbreviation pulls := (pulls fetcher transformer).
Abbreviation running := (running transformer).
Abbreviation failed := (failed transformer).
Abbreviation slices_fit := (slices_fit transformer).

Lemma Next_stopped (it : Iterator T) (w : World FS) :
  done it = true \/ err it <> None -> Next it w = Ret (false, it, w).
Proof.
  intros H. unfold base.Next.
  destruct (done it); [reflexivity|].
  destruct (err it); [reflexivity|].
  destruct H as [H|H]; [discriminate | congruence].
Qed.

Lemma pulls_stopped (k : nat) (it : Iterator T) (w : World FS) :
  done it = true \/ err it <> None ->
  pulls k it w = Ret (repeat None k, it, w).
Proof.
  intros H. induction k as [|k IH]; cbn [base.pulls repeat]; [reflexivity|].
  rewrite (Next_stopped _ _ H), IH. reflexivity.
Qed.

Lemma skipn_past (l : list T) (i : Z) :
  len l <= i -> skipn (Z.to_nat i) l = [].
Proof. unfold len. intros H. apply skipn_all2. lia. Qed.

(** One call of [Next] between two items: it hands out the next item
    of the fetched pages, or stops, cleanly or on the error of the
    invocation it just made. *)
Lemma Next_running (it it' : Iterator T) (w w' : World FS) (ys : list T) (b : bool) :
  slices_fit ->
  running it w ys ->
  Next it w = Ret (b, it', w') ->
  (b = true /\ running it' w' (ys ++ [current it'])) \/
  (b = false /\ ((done it' = true /\ err it' = None) \/ failed it' w' ys)).
Proof.
  intros Hfit (He & Hd & Hok & Hidx & Hmax & Hys) HN.
  unfold base.Next in HN. rewrite Hd, He in HN. cbn [orb isNil negb] in HN.
  destruct ((0 <=? total it) && (total it <=? count it)).
  { inversion HN; subst b it' w'. right. split; [reflexivity|]. left. cbn. auto. }
  destruct (len (page it) <=? pageIndex it) eqn:Epi.
  - apply Z.leb_le in Epi.
    assert (Hall : ys = concat (map (decoded transformer) (calls w))).
    { rewrite <- Hys, skipn_past by assumption. now rewrite app_nil_r. }
    unfold fetchNextPage in HN.
    destruct ((0 <? maxPages it) && (maxPages it <=? pagesLoaded it)).
    { inversion HN; subst b it' w'. right. split; [reflexivity|]. left. cbn. auto. }
    destruct ((0 <=? total it) && (total it <=? offset it)).
    { inversion HN; subst b it' w'. right. split; [reflexivity|]. left. cbn. auto. }
    unfold call_fetcher, bind in HN.
    destruct (fetcher (offset it) (limit it) (fstate w))
      as [[[[data pagination] e] s']| |]; try discriminate.
    set (c := {| call_offset := offset it; call_limit := limit it;
                 call_result := (data, pagination, e) |}) in HN.
    destruct e as [e|].
    { inversion HN; subst b it' w'. right. split; [reflexivity|]. right.
      exists (calls w), c. cbn. repeat split; auto. discriminate. }
    destruct (transformer data) as [items e'] eqn:Etr.
    assert (Hdec : failure transformer c = match e' with
                     | Some e' => Some (Errorf "failed to transform page data: %w" e')
                     | None => None end).
    { unfold failure, c. cbn. rewrite Etr. reflexivity. }
    destruct e' as [e'|].
    { inversion HN; subst b it' w'. right. split; [reflexivity|]. right.
      exists (calls w), c. cbn [calls err set_err].
      repeat split; auto. discriminate. }
    destruct (len items =? 0) eqn:El.
    { inversion HN; subst b it' w'. right. split; [reflexivity|]. left.
      destruct pagination; cbn; auto. }
    apply Z.eqb_neq in El.
    cbn [page pageIndex load_page] in HN.
    destruct items as [|x items]; [now elim El|].
    cbn [index Z.ltb Z.compare Z.to_nat nth_error] in HN.
    inversion HN; subst b it' w'. left. split; [reflexivity|].
    assert (Hc : decoded transformer c = x :: items).
    { unfold decoded, c. cbn. rewrite Etr. reflexivity. }
    assert (Hfx : len (x :: items) <= MaxInt).
    { specialize (Hfit data). now rewrite Etr in Hfit. }
    assert (Hone : add 0 1 = 1) by reflexivity.
    unfold running. cbn [err done calls pageIndex page advance load_page current].
    rewrite Hone.
    repeat split.
    + destruct pagination; cbn; assumption.
    + destruct pagination; cbn; assumption.
    + apply Forall_app. split; [assumption|]. constructor; [|constructor].
      split; [exact Hdec | rewrite Hc; discriminate].
    + lia.
    + unfold len in *. cbn [length] in *. lia.
    + assumption.
    + rewrite map_app, concat_app. cbn [map concat]. rewrite Hc, app_nil_r.
      change (Z.to_nat 1) with 1%nat. cbn [skipn].
      rewrite <- app_assoc. cbn [app]. now rewrite Hall.
  - apply Z.leb_gt in Epi.
    destruct (index_in_range (page it) (pageIndex it)) as (x & Hx & Hnth); [lia|].
    rewrite Hx in HN. inversion HN; subst b it' w'. left. split; [reflexivity|].
    unfold running. cbn [err done calls pageIndex page advance current].
    rewrite add_small by (unfold MinInt, MaxInt in *; lia).
    repeat split; auto; try lia.
    rewrite <- Hys, (skipn_step _ _ _ Hnth), <- app_assoc. cbn [app].
    replace (Z.to_nat (pageIndex it + 1)) with (S (Z.to_nat (pageIndex it))) by lia.
    reflexivity.
Qed.

Lemma NewIterator_pristine (zero : T) (opts : list IteratorOption) :
  pristine zero (NewIterator zero opts).
Proof.
  unfold NewIterator.
  match goal with |- pristine _ (fold_left _ _ ?i) =>
    assert (H : pristine zero i) by (unfold pristine; cbn; tauto);
    generalize dependent i end.
  induction opts as [|o opts IH]; intros i H; cbn [fold_left]; [exact H|].
  apply IH. destruct o; unfold pristine in *; cbn; tauto.
Qed.

Lemma NewIterator_running (zero : T) (opts : list IteratorOption) (s : FS) :
  running (NewIterator zero opts) (fresh s) [].
Proof.
  destruct (NewIterator_pristine zero opts) as (_ & Hp & Hi & _ & _ & Hd & He & _).
  unfold base.running. rewrite Hp, Hi, Hd, He. cbn.
  repeat split; auto; try lia. unfold MaxInt. lia.
Qed.

(** Any number of calls of [Next], from between two items: the calls
    hand out items of the fetched pages in order, until one returns
    false, after which all do. *)
Lemma pulls_running (n : nat) :
  slices_fit ->
  forall (it it' : Iterator T) (w w' : World FS) (ys : list T) outs,
  running it w ys ->
  pulls n it w = Ret (outs, it', w') ->
  (running it' w' (ys ++ yielded outs) /\ outs = map Some (yielded outs)) \/
  (done it' = true /\ err it' = None) \/
  (exists zs m, outs = map Some zs ++ repeat None (S m) /\
                failed it' w' (ys ++ zs)).
Proof.
  intros Hfit. induction n as [|n IH]; intros it it' w w' ys outs Hr Hp.
  - cbn in Hp. inversion Hp; subst. left. cbn. rewrite app_nil_r. auto.
  - cbn [base.pulls] in Hp.
    destruct (Next it w) as [[[b it1] w1]| |] eqn:HN; try discriminate.
    destruct (Next_running _ _ _ _ _ _ Hfit Hr HN)
      as [[Hb Hr1] | [Hb [Hstop | Hfail]]]; subst b.
    + destruct (pulls n it1 w1) as [[[outs' it2] w2]| |] eqn:Hp'; try discriminate.
      inversion Hp; subst outs it2 w2. clear Hp.
      destruct (IH _ _ _ _ _ _ Hr1 Hp') as [[Hr2 Ho] | [Hs | (zs & m & Ho & Hf)]].
      * left. cbn [yielded map]. unfold Item. rewrite <- Ho.
        rewrite <- app_assoc in Hr2. cbn [app] in Hr2. auto.
      * right. left. exact Hs.
      * right. right. exists (current it1 :: zs), m.
        rewrite <- app_assoc in Hf. cbn [app] in Hf. subst outs'.
        cbn [map app]. auto.
    + rewrite pulls_stopped in Hp by (left; tauto).
      inversion Hp; subst. right. left. exact Hstop.
    + rewrite pulls_stopped in Hp
        by (right; destruct Hfail as (g & c & _ & _ & _ & Hne & _); exact Hne).
      inversion Hp; subst. right. right. exists [], n.
      cbn [map app repeat]. rewrite app_nil_r. auto.
Qed.

(** A call of [Next] leaves the log alone or adds one invocation to it;
    when that invocation failed, by the fetcher or by the transformer
    on its data, [Next] returns false and records its error. *)
Lemma Next_log (it it' : Iterator T) (w w' : World FS) (b : bool) :
  Next it w = Ret (b, it', w') ->
  calls w' = calls w \/
  exists c,
    calls w' = calls w ++ [c] /\
    (failure transformer c <> None ->
     b = false /\ err it' = failure transformer c).
Proof.
  intros HN.
  unfold base.Next, fetchNextPage, call_fetcher, bind in HN.
  split_code HN; try discriminate; inversion HN; subst b it' w';
    cbn [calls]; first [left; reflexivity | right];
    (eexists; split; [reflexivity|]);
    unfold failure; cbn [call_result err set_err set_done set_total advance
                         load_page];
    repeat match goal with
           | H : transformer _ = _ |- _ => rewrite H; clear H
           end;
    intros Hf; first [now elim Hf | split; reflexivity].
Qed.

(** The log only grows. *)
Lemma pulls_log (n : nat) :
  forall (it it' : Iterator T) (w w' : World FS) outs,
  pulls n it w = Ret (outs, it', w') ->
  exists new, calls w' = calls w ++ new.
Proof.
  induction n as [|n IH]; intros it it' w w' outs Hp; cbn [base.pulls] in Hp.
  - inversion Hp; subst. exists []. now rewrite app_nil_r.
  - destruct (Next it w) as [[[b it1] w1]| |] eqn:HN; try discriminate.
    destruct (pulls n it1 w1) as [[[outs' it2] w2]| |] eqn:Hp'; try discriminate.
    inversion Hp; subst outs it2 w2.
    destruct (IH _ _ _ _ _ Hp') as (new2 & H2).
    destruct (Next_log _ _ _ _ _ HN) as [H1 | (c & H1 & _)]; rewrite H2, H1.
    + eauto.
    + exists (c :: new2). now rewrite <- app_assoc.
Qed.

(** An invocation that fails during a run ends it: once it is logged,
    the iterator holds its error, whatever the state the run began in
    and however many calls of [Next] follow. *)
Lemma pulls_failing (n : nat) :
  forall (it it' : Iterator T) (w w' : World FS) outs new bad,
  pulls n it w = Ret (outs, it', w') ->
  calls w' = calls w ++ new ->
  In bad new ->
  failure transformer bad <> None ->
  err it' = failure transformer bad.
Proof.
  induction n as [|n IH]; intros it it' w w' outs new bad Hp Hc Hin Hf;
    cbn [base.pulls] in Hp.
  - inversion Hp; subst it' w'.
    rewrite <- (app_nil_r (calls w)) in Hc at 1.
    apply app_inv_head in Hc. subst new. now elim Hin.
  - destruct (Next it w) as [[[b it1] w1]| |] eqn:HN; try discriminate.
    destruct (pulls n it1 w1) as [[[outs' it2] w2]| |] eqn:Hp'; try discriminate.
    inversion Hp; subst outs it2 w2.
    destruct (pulls_log _ _ _ _ _ _ Hp') as (new2 & H2).
    destruct (Next_log _ _ _ _ _ HN) as [H1 | (c & H1 & Hbad)].
    + rewrite H2, H1 in Hc. apply app_inv_head in Hc. subst new2.
      exact (IH _ _ _ _ _ _ _ Hp' H2 Hin Hf).
    + rewrite H2, H1, <- app_assoc in Hc. apply app_inv_head in Hc.
      cbn [app] in Hc. subst new. destruct Hin as [-> | Hin].
      * destruct (Hbad Hf) as [_ He].
        rewrite pulls_stopped in Hp' by (right; rewrite He; exact Hf).
        inversion Hp'; subst. exact He.
      * exact (IH _ _ _ _ _ _ _ Hp' H2 Hin Hf).
Qed.


Lemma no_page_cap_yet (m : Z) : (0 <? m) && (m <=? 0) = false.
Proof. destruct m; reflexivity. Qed.

(** The first call of [Next] on a new iterator, when the fetcher returns
    a page with items. *)
Lemma first_Next (zero : T) (opts : list IteratorOption) (s s' : FS)
    (data : RawMessage) (p : option PaginationInfo) (x : T) (rest : list T) :
  let it0 := NewIterator zero opts in
  fetcher (offset it0) (limit it0) s = Ret ((data, p, None), s') ->
  transformer data = (x :: rest, None) ->
  Next it0 (fresh s)
  = Ret (true,
         advance (load_page (match p with
                             | Some p => set_total it0 (Total p)
                             | None => it0
                             end) (x :: rest)) x,
         {| fstate := s';
            calls := [{| call_offset := offset it0; call_limit := limit it0;
                         call_result := (data, p, None) |}] |}).
Proof.
  intros it0 Hf Htr.
  destruct (NewIterator_pristine zero opts) as (P1 & P2 & P3 & P4 & P5 & P6 & P7 & P8).
  fold it0 in P1, P2, P3, P4, P5, P6, P7, P8.
  unfold base.Next. rewrite P6, P7, P1, P2, P3. cbn [orb negb isNil andb].
  change (0 <=? -1) with false. cbn [andb].
  change (len [] <=? 0) with true. cbn iota.
  unfold fetchNextPage. rewrite P5, P1, no_page_cap_yet.
  change (0 <=? -1) with false. cbn [andb].
  unfold call_fetcher. cbn [fstate fresh calls app bind]. rewrite Hf. cbn [bind].
  rewrite Htr.
  replace (len (x :: rest) =? 0) with false
    by (symmetry; apply Z.eqb_neq; unfold len; cbn [length]; lia).
  reflexivity.
Qed.

(** C9.  When the first fetch of a new iterator returns a non-nil
    [PaginationInfo] whose [Total] is 0 and data that decode to a
    non-empty page, the first [Next] returns true with the first item of
    that page, and every later [Next] returns false: one item is handed
    out whatever the page holds, [Err()] stays nil, and the fetcher was
    invoked once. *)
Theorem zero_total_one_item (zero : T) (opts : list IteratorOption) (s s' : FS)
    (data : RawMessage) (p : PaginationInfo) (x : T) (rest : list T) (k : nat) :
  let it0 := NewIterator zero opts in
  fetcher (offset it0) (limit it0) s = Ret ((data, Some p, None), s') ->
  Total p = 0 ->
  transformer data = (x :: rest, None) ->
  exists it w,
    pulls (S (S k)) it0 (fresh s) = Ret (Some x :: repeat None (S k), it, w) /\
    Err it = None /\ Count it = 1 /\ total it = 0 /\
    List.length (calls w) = 1%nat.
Proof.
  intros it0 Hf Ht Htr.
  pose proof (first_Next zero opts s s' data (Some p) x rest Hf Htr) as H1.
  fold it0 in H1. cbv beta iota in H1. rewrite Ht in H1.
  destruct (NewIterator_pristine zero opts) as (P1 & P2 & P3 & P4 & P5 & P6 & P7 & P8).
  fold it0 in P1, P2, P3, P4, P5, P6, P7, P8.
  match type of H1 with _ = Ret (_, ?i, ?w) => set (it1 := i) in *; set (w1 := w) in * end.
  assert (H2 : Next it1 w1 = Ret (false, set_done it1, w1)).
  { unfold base.Next, it1. cbn [done err total count advance load_page set_total].
    rewrite P6, P7, P4. reflexivity. }
  exists (set_done it1), w1.
  split.
  - cbn [base.pulls]. rewrite H1, H2.
    rewrite (pulls_stopped k) by (left; reflexivity).
    reflexivity.
  - unfold Err, Count, it1, w1.
    cbn [err count total calls set_done advance load_page set_total length].
    rewrite P7, P4. repeat split; reflexivity.
Qed.

(** The loop of [All] returns what its calls of [Next] handed out,
    after one of them returned false. *)
Lemma collect_pulls (fuel : nat) :
  forall (acc results : list T) (it it' : Iterator T) (w w' : World FS),
  collect fetcher transformer fuel acc it w = Ret (results, it', w') ->
  exists ys,
    results = acc ++ ys /\
    pulls (S (List.length ys)) it w = Ret (map Some ys ++ [None], it', w').
Proof.
  induction fuel as [|fuel IH]; intros acc results it it' w w' Hc;
    cbn [base.collect] in Hc; [discriminate|].
  destruct (Next it w) as [[[[|] it1] w1]| |] eqn:HN; try discriminate.
  - destruct (IH _ _ _ _ _ _ Hc) as (ys & Hr & Hp).
    exists (Item it1 :: ys). rewrite <- app_assoc in Hr. split; [exact Hr|].
    cbn [length]. change (base.pulls fetcher transformer (S (S (List.length ys))) it w)
      with (bind (Next it w) (fun '(b, i, x) =>
              match pulls (S (List.length ys)) i x with
              | Ret (outs, it'', w'') =>
                  Ret ((if b then Some (Item i) else None) :: outs, it'', w'')
              | Panic => Panic
              | OutOfFuel => OutOfFuel
              end)).
    rewrite HN. cbn [bind]. rewrite Hp. reflexivity.
  - inversion Hc; subst results it1 w1.
    exists []. rewrite app_nil_r. split; [reflexivity|].
    cbn [length base.pulls map app]. rewrite HN. reflexivity.
Qed.

(** The loop of [Take] returns what its calls of [Next] handed out; it
    stops after as many calls as asked for, or after one returned
    false. *)
Lemma collect_upto_pulls (k : nat) :
  forall (acc results : list T) (it it' : Iterator T) (w w' : World FS),
  collect_upto fetcher transformer k acc it w = Ret (results, it', w') ->
  exists ys,
    results = acc ++ ys /\
    ((List.length ys = k /\
      pulls (List.length ys) it w = Ret (map Some ys, it', w')) \/
     ((List.length ys < k)%nat /\
      pulls (S (List.length ys)) it w = Ret (map Some ys ++ [None], it', w'))).
Proof.
  induction k as [|k IH]; intros acc results it it' w w' Hc;
    cbn [base.collect_upto] in Hc.
  - inversion Hc; subst results it' w'. exists []. rewrite app_nil_r.
    split; [reflexivity|]. left. split; reflexivity.
  - destruct (Next it w) as [[[[|] it1] w1]| |] eqn:HN; try discriminate.
    + destruct (IH _ _ _ _ _ _ Hc) as (ys & Hr & Hp).
      exists (Item it1 :: ys). rewrite <- app_assoc in Hr. split; [exact Hr|].
      cbn [length].
      destruct Hp as [[Hk Hp] | [Hk Hp]]; [left | right];
        (split; [lia|]).
      * cbn [base.pulls map]. rewrite HN, Hp. reflexivity.
      * change (base.pulls fetcher transformer (S (S (List.length ys))) it w)
          with (bind (Next it w) (fun '(b, i, x) =>
                  match pulls (S (List.length ys)) i x with
                  | Ret (outs, it'', w'') =>
                      Ret ((if b then Some (Item i) else None) :: outs, it'', w'')
                  | Panic => Panic
                  | OutOfFuel => OutOfFuel
                  end)).
        rewrite HN. cbn [bind]. rewrite Hp. reflexivity.
    + inversion Hc; subst results it1 w1.
      exists []. rewrite app_nil_r. split; [reflexivity|]. right.
      split; [cbn; lia|].
      cbn [length base.pulls map app]. rewrite HN. reflexivity.
Qed.

(** What [All] and [Take] return, read back to their loop. *)
Lemma finish_inv (r : outcome (list T * Iterator T * World FS))
    (res : list T) (e : option error) (it' : Iterator T) (w' : World FS) :
  finish r = Ret ((res, e), it', w') ->
  exists results,
    r = Ret (results, it', w') /\ e = err it' /\
    res = match err it' with Some _ => [] | None => results end.
Proof.
  unfold finish. destruct r as [[[results it1] w1]| |]; try discriminate.
  destruct (err it1) as [e1|] eqn:He; intros H; inversion H; subst;
    eexists; (split; [reflexivity|]); rewrite He; auto.
Qed.


(** C6 as the code has it.  [NewIterator] cannot fail and does not
    fetch, whatever the limit: a limit [l], positive or not, is stored as
    given, the new iterator carries no error, and the first [Next] hands
    that same [l] to the fetcher. *)
Theorem limit_stored_unchecked (zero : T) (l : Z) (s s' : FS) (r : FetchResult) :
  fetcher 0 l s = Ret (r, s') ->
  let it := NewIterator zero [WithLimit l] in
  limit it = l /\ Err it = None /\ done it = false /\
  exists b it' w',
    Next it (fresh s) = Ret (b, it', w') /\
    calls w' = [{| call_offset := 0; call_limit := l; call_result := r |}].
Proof.
  intros Hf it. repeat split; try reflexivity.
  unfold base.Next, it. cbn. unfold fetchNextPage. cbn.
  unfold call_fetcher. cbn [fstate fresh calls app]. rewrite Hf. cbn [bind].
  destruct r as [[data p] [e|]].
  - eexists _, _, _. split; reflexivity.
  - destruct (transformer data) as [items [e'|]].
    + destruct p; eexists _, _, _; split; reflexivity.
    + destruct items as [|x items].
      * destruct p; eexists _, _, _; split; reflexivity.
      * replace (len (x :: items) =? 0) with false
          by (symmetry; apply Z.eqb_neq; unfold len; cbn [length]; lia).
        destruct p; eexists _, _, _; split; reflexivity.
Qed.

Lemma Next_total (it it' : Iterator T) (w w' : World FS) (b : bool) :
  Next it w = Ret (b, it', w') ->
  (calls w' = calls w /\ total it' = total it) \/
  (exists c, calls w' = calls w ++ [c] /\
             total it' = match reported c with
                         | Some t => t
                         | None => total it
                         end).
Proof.
  intros HN.
  unfold base.Next, fetchNextPage, call_fetcher, bind in HN.
  split_code HN; try discriminate; inversion HN; subst b it' w';
    cbn [calls total set_done set_err set_total advance load_page];
    try (left; split; reflexivity);
    right; eexists; (split; [reflexivity|]);
    unfold reported; cbn [call_result];
    repeat match goal with
           | |- context [match ?x with _ => _ end] => is_var x; destruct x
           end;
    reflexivity.
Qed.

Lemma Next_count (it it' : Iterator T) (w w' : World FS) (b : bool) :
  Next it w = Ret (b, it', w') ->
  count it' = if b then add (count it) 1 else count it.
Proof.
  intros HN.
  unfold base.Next, fetchNextPage, call_fetcher, bind in HN.
  split_code HN; try discriminate; inversion HN; subst b it' w'; reflexivity.
Qed.

Lemma Next_total_only_checked (it it' : Iterator T) (w w' : World FS) (b : bool) (t : Z) :
  Next it w = Ret (b, it', w') ->
  total_checks (set_total it t) = total_checks it ->
  exists t', Next (set_total it t) w = Ret (b, set_total it' t', w').
Proof.
  intros HN Hc. unfold total_checks in Hc.
  cbn [total count offset set_total] in Hc. injection Hc as H1 H2.
  unfold base.Next, fetchNextPage, call_fetcher, bind in *.
  cbn [done err total count page pageIndex maxPages pagesLoaded offset limit
       set_total load_page] in *.
  rewrite H1, H2.
  split_code HN; try discriminate; inversion HN; subst b it' w';
    eexists; reflexivity.
Qed.

(** A call of [Next] leaves the fetcher alone, or invokes it once, at
    the iterator's offset and limit; an error of that invocation is
    recorded. *)
Lemma Next_fetches (it it' : Iterator T) (w w' : World FS) (b : bool) :
  Next it w = Ret (b, it', w') ->
  (fstate w' = fstate w /\ err it' = err it) \/
  (err it = None /\
   exists r, fetcher (offset it) (limit it) (fstate w) = Ret (r, fstate w') /\
             (snd r <> None -> err it' <> None)).
Proof.
  intros HN.
  unfold base.Next, fetchNextPage, call_fetcher, bind in HN.
  destruct (err it) eqn:He;
    [destruct (done it); inversion HN; subst; left; auto|].
  split_code HN; try discriminate; inversion HN; subst b it' w';
    cbn [fstate err set_done set_err set_total advance load_page];
    try (left; split; [reflexivity | assumption]).
  all: right; (split; [reflexivity|]); eexists; (split; [reflexivity|]).
  all: cbn [snd]; intros Hr; try discriminate; now elim Hr.
Qed.

(** What holds of the fetcher's state as long as the iterator has no
    error ([Inv]) and what holds of it throughout ([Shape]), if every
    invocation of the fetcher keeps them, are kept by any number of
    calls of [Next]. *)
Lemma pulls_preserve (Inv Shape : FS -> Prop) :
  (forall off lim s r s',
     Inv s -> fetcher off lim s = Ret (r, s') ->
     Shape s' /\ (snd r = None -> Inv s')) ->
  forall (n : nat) (it it' : Iterator T) (w w' : World FS) outs,
    Shape (fstate w) ->
    (err it = None -> Inv (fstate w)) ->
    pulls n it w = Ret (outs, it', w') ->
    Shape (fstate w') /\ (err it' = None -> Inv (fstate w')).
Proof.
  intros Hstep. induction n as [|n IH]; intros it it' w w' outs Hs Hi Hp;
    cbn [base.pulls] in Hp.
  - inversion Hp; subst. auto.
  - destruct (Next it w) as [[[b it1] w1]| |] eqn:HN; try discriminate.
    destruct (pulls n it1 w1) as [[[outs' it2] w2]| |] eqn:Hp'; try discriminate.
    inversion Hp; subst outs it2 w2.
    apply (IH _ _ _ _ _) in Hp'; [exact Hp'| |].
    + destruct (Next_fetches _ _ _ _ _ HN) as [[Hw _] | (He & r & Hf & _)].
      * now rewrite Hw.
      * exact (proj1 (Hstep _ _ _ _ _ (Hi He) Hf)).
    + intros He1.
      destruct (Next_fetches _ _ _ _ _ HN) as [[Hw He'] | (He & r & Hf & Hr)].
      * rewrite Hw. apply Hi. congruence.
      * apply (proj2 (Hstep _ _ _ _ _ (Hi He) Hf)).
        destruct (snd r); [|reflexivity]. elim Hr; [discriminate | exact He1].
Qed.

(** C2 as the code has it.  A call of [Next] either makes no fetch and
    leaves the stored total alone, or makes one fetch and sets the total
    to what that fetch reported, larger or smaller than before (leaving
    it alone when the fetch failed or carried no [PaginationInfo]).  The
    count grows by one when [Next] returns true and not otherwise.  And
    the total matters through the two tests only: with any other total
    under which both tests come out the same, [Next] returns the same,
    makes the same fetch and leaves the same iterator but for the
    total. *)
Theorem total_follows_reports (it it' : Iterator T) (w w' : World FS) (b : bool) :
  Next it w = Ret (b, it', w') ->
  ((calls w' = calls w /\ total it' = total it) \/
   (exists c, calls w' = calls w ++ [c] /\
              total it' = match reported c with
                          | Some t => t
                          | None => total it
                          end)) /\
  count it' = (if b then add (count it) 1 else count it) /\
  forall t, total_checks (set_total it t) = total_checks it ->
            exists t', Next (set_total it t) w = Ret (b, set_total it' t', w').
Proof.
  intros HN. split; [|split].
  - exact (Next_total _ _ _ _ _ HN).
  - exact (Next_count _ _ _ _ _ HN).
  - intros t. exact (Next_total_only_checked _ _ _ _ _ t HN).
Qed.

End Steps.

(** *** The test doubles *)

Lemma list_ascii_length (d : string) :
  List.length (list_ascii_of_string d) = String.length d.
Proof. induction d as [|c d IH]; cbn; [reflexivity | now rewrite IH]. Qed.

Lemma chars_fit : slices_fit scenario.chars.
Proof.
  intros data. unfold scenario.chars.
  destruct (String.length data <=? 64)%nat eqn:E; cbn [fst].
  - apply Nat.leb_le in E. unfold len, MaxInt. rewrite list_ascii_length. lia.
  - unfold len, MaxInt. cbn. lia.
Qed.


(** A first page whose total is reported as 0 although it holds three
    items. *)
Lemma zero_total_one_item_witness :
  let it0 := NewIterator " "%char [] in
  let s := [scenario.page_of "abc" 0; scenario.page_of "de" 0] in
  scenario.scripted (offset it0) (limit it0) s
    = Ret (scenario.page_of "abc" 0, [scenario.page_of "de" 0]) /\
  scenario.chars "abc"%string = (["a"; "b"; "c"]%char, None) /\
  exists it w,
    pulls scenario.scripted scenario.chars 4 it0 (fresh s)
      = Ret ([Some "a"%char; None; None; None], it, w) /\
    Err it = None /\ Count it = 1 /\ total it = 0 /\
    List.length (calls w) = 1%nat.
Proof.
  intros it0 s.
  split; [reflexivity|]. split; [reflexivity|].
  exact (zero_total_one_item _ _ scenario.scripted scenario.chars " "%char [] s
           [scenario.page_of "de" 0] "abc"%string
           {| Total := 0; Limit := 0; Offset := 0 |} "a"%char ["b"; "c"]%char 2%nat
           eq_refl eq_refl eq_refl).
Defined.


(** A limit of -5 is kept and reaches the fetcher. *)
Lemma limit_stored_unchecked_witness :
  let it := NewIterator " "%char [WithLimit (-5)] in
  scenario.scripted 0 (-5) [scenario.page_of "ab" 2]
    = Ret (scenario.page_of "ab" 2, []) /\
  limit it = -5 /\ Err it = None /\ done it = false /\
  exists b it' w',
    Next scenario.scripted scenario.chars it (fresh [scenario.page_of "ab" 2])
      = Ret (b, it', w') /\
    calls w' = [{| call_offset := 0; call_limit := -5;
                   call_result := scenario.page_of "ab" 2 |}].
Proof.
  intros it. split; [reflexivity|].
  exact (limit_stored_unchecked _ _ scenario.scripted scenario.chars " "%char (-5)
           [scenario.page_of "ab" 2] [] (scenario.page_of "ab" 2) eq_refl).
Defined.

(** C6 as stated fails: an iterator built with limit 0 carries no error,
    and its first [Next] does fetch, with limit 0, and hands out an item
    of the page it got. *)
Lemma limit_zero_accepted :
  let it := NewIterator " "%char [WithLimit 0] in
  Err it = None /\
  exists it' w',
    Next scenario.scripted scenario.chars it (fresh [scenario.page_of "ab" 2])
      = Ret (true, it', w') /\
    Item it' = "a"%char /\ Err it' = None /\
    map call_limit (calls w') = [0].
Proof.
  intros it. split; [reflexivity|].
  eexists _, _. split; [vm_compute; reflexivity|].
  repeat split; reflexivity.
Qed.

(** C2 as stated fails: after two items the stored total is the 5 the
    first page reported; the next call fetches the second page, which
    reports 3, and the stored total drops to 3. *)
Lemma total_drops :
  exists outs it w it' w',
    pulls scenario.scripted scenario.chars 2 (NewIterator " "%char [])
      (fresh scenario.shrinking_total) = Ret (outs, it, w) /\
    total it = 5 /\
    Next scenario.scripted scenario.chars it w = Ret (true, it', w') /\
    total it' = 3 /\ total it' < total it.
Proof.
  eexists _, _, _, _, _.
  split; [vm_compute; reflexivity|].
  split; [reflexivity|].
  split; [vm_compute; reflexivity|].
  split; reflexivity.
Qed.

(** The same run: the total follows the report of the fetch. *)
Lemma total_follows_reports_witness :
  exists outs it w it' w',
    pulls scenario.scripted scenario.chars 2 (NewIterator " "%char [])
      (fresh scenario.shrinking_total) = Ret (outs, it, w) /\
    Next scenario.scripted scenario.chars it w = Ret (true, it', w') /\
    ((calls w' = calls w /\ total it' = total it) \/
     (exists c, calls w' = calls w ++ [c] /\
                total it' = match reported c with
                            | Some t => t
                            | None => total it
                            end)) /\
    count it' = add (count it) 1 /\
    forall t, total_checks (set_total it t) = total_checks it ->
              exists t', Next scenario.scripted scenario.chars (set_total it t) w
                         = Ret (true, set_total it' t', w').
Proof.
  eexists _, _, _, _, _.
  split; [vm_compute; reflexivity|].
  split; [vm_compute; reflexivity|].
  match goal with |- context [calls ?w' = calls ?w /\ total ?it' = total ?it] =>
    apply (total_follows_reports _ _ scenario.scripted scenario.chars it it' w w' true)
  end.
  vm_compute. reflexivity.
Defined.

End IteratorFacts.
Module DrainFacts.

Import GoInt GoIntFacts base IteratorFacts.

Section Drain.

Variables T FS : Type.
Variable fetcher : PageFetcher FS.
Variable transformer : ItemTransformer T.
Variable src : list T.

Abbreviation Next := (Next fetcher transformer).
Abbreviation collect := (collect fetcher transformer).
Abbreviation All := (All fetcher transformer).
Abbreviation draining := (draining src).

Hypothesis Hserves : serves fetcher transformer src.
Hypothesis Hfits : len src <= MaxInt.

(** One call of [Next] while draining: the next item of the collection,
    or false without error when none is left. *)
Lemma drain_step (o l : Z) (it : Iterator T) (w : World FS) (rem : list T) :
  1 <= l ->
  draining o l it rem ->
  match rem with
  | [] => exists it' w', Next it w = Ret (false, it', w') /\ err it' = None
  | x :: rem' =>
      exists it' w',
        Next it w = Ret (true, it', w') /\ current it' = x /\
        draining o l it' rem'
  end.
Proof.
  intros Hl (Hlim & Hmp & Hd & He & Ho & pre & post & Hsrc & Hoff & Hidx & Hrem
             & Hop & Hcnt & Htot).
  assert (Hlen : len src = len pre + len (page it) + len post).
  { rewrite Hsrc, !len_app. lia. }
  pose proof (len_nonneg pre) as Hp0. pose proof (len_nonneg post) as Hq0.
  unfold base.Next. rewrite Hd, He. cbn [orb negb isNil].
  destruct ((0 <=? total it) && (total it <=? count it)) eqn:E1.
  { apply andb_true_iff in E1. destruct E1 as [E1 E2].
    apply Z.leb_le in E1, E2.
    destruct Htot as [Htot | (Htot & _)]; [|lia].
    assert (len post = 0) by lia. assert (pageIndex it = len (page it)) by lia.
    rewrite (len_zero _ H), skipn_past in Hrem by lia. subst rem.
    eexists _, _. split; [reflexivity | exact He]. }
  destruct (len (page it) <=? pageIndex it) eqn:E2.
  - apply Z.leb_le in E2.
    rewrite skipn_past in Hrem by lia. cbn [app] in Hrem. subst rem.
    unfold fetchNextPage.
    replace ((0 <? maxPages it) && (maxPages it <=? pagesLoaded it)) with false
      by (symmetry; apply andb_false_iff; left; apply Z.ltb_ge; lia).
    destruct ((0 <=? total it) && (total it <=? offset it)) eqn:E3.
    { apply andb_true_iff in E3. destruct E3 as [E3 E4].
      apply Z.leb_le in E3, E4.
      destruct Htot as [Htot | (Htot & _)]; [|lia].
      assert (Hz : len post = 0) by lia. rewrite (len_zero _ Hz).
      eexists _, _. split; [reflexivity | exact He]. }
    destruct (Hserves (offset it) l (fstate w)) as (data & p & s' & Hf & Hp & Htr);
      [lia|].
    unfold call_fetcher. rewrite Hlim, Hf. cbn [bind]. rewrite Htr.
    assert (Hwin : window src (offset it) l = firstn (Z.to_nat l) post).
    { unfold window. rewrite Hsrc, app_assoc, Hoff, <- len_app, skipn_len_app.
      reflexivity. }
    rewrite Hwin.
    destruct post as [|x post'].
    + rewrite firstn_nil. cbn [len length Z.of_nat Z.eqb].
      eexists _, _. split; [reflexivity | exact He].
    + destruct (Z.to_nat l) as [|k] eqn:Ek; [lia|].
      cbn [firstn]. set (items := x :: firstn k post').
      assert (Hitems : x :: post' = items ++ skipn k post').
      { unfold items. cbn [app]. now rewrite firstn_skipn. }
      assert (Hil : len items <= len (x :: post')).
      { rewrite Hitems, len_app. pose proof (len_nonneg (skipn k post')). lia. }
      assert (Hi1 : 1 <= len items) by (unfold items; rewrite len_cons;
                                          pose proof (len_nonneg (firstn k post')); lia).
      replace (len items =? 0) with false by (symmetry; apply Z.eqb_neq; lia).
      cbn [page pageIndex load_page]. unfold items at 1.
      cbn [index Z.ltb Z.compare Z.to_nat nth_error].
      eexists _, _. split; [reflexivity|]. split; [reflexivity|].
      unfold base.draining.
      cbn [limit maxPages done err page offset pageIndex count total
           advance load_page set_total].
      change (add 0 1) with 1.
      rewrite (add_small (offset it)), (add_small (count it))
        by (unfold MinInt, MaxInt in *; lia).
      repeat split; auto; try lia.
      exists (pre ++ page it), (skipn k post').
      rewrite len_app.
      repeat split; try lia.
      * rewrite Hsrc, <- app_assoc, Hitems. reflexivity.
      * change (Z.to_nat 1) with 1%nat. unfold items. cbn [skipn app].
        rewrite firstn_skipn. reflexivity.
  - apply Z.leb_gt in E2.
    destruct (index_in_range (page it) (pageIndex it)) as (x & Hx & Hnth); [lia|].
    rewrite Hx. rewrite (skipn_step _ _ _ Hnth) in Hrem. cbn [app] in Hrem.
    subst rem.
    eexists _, _. split; [reflexivity|]. split; [reflexivity|].
    assert (Htot' : total it = len src).
    { destruct Htot as [Htot | (_ & Hnil & _)]; [exact Htot|].
      rewrite Hnil in E2. cbn in E2. lia. }
    unfold base.draining.
    cbn [limit maxPages done err page offset pageIndex count total advance].
    rewrite (add_small (pageIndex it)), (add_small (count it))
      by (unfold MinInt, MaxInt in *; lia).
    repeat split; auto.
    exists pre, post.
    repeat split; auto; try lia.
    replace (Z.to_nat (pageIndex it + 1)) with (S (Z.to_nat (pageIndex it))) by lia.
    reflexivity.
Qed.

(** The loop of [All] while draining: with more fuel than items left it
    returns, having appended the items left. *)
Lemma collect_draining (o l : Z) (rem : list T) :
  1 <= l ->
  forall (fuel : nat) (acc : list T) (it : Iterator T) (w : World FS),
  draining o l it rem ->
  (List.length rem < fuel)%nat ->
  exists it' w',
    collect fuel acc it w = Ret (acc ++ rem, it', w') /\ err it' = None.
Proof.
  intros Hl. induction rem as [|x rem IH]; intros fuel acc it w Hdr Hfuel;
    (destruct fuel as [|fuel]; [cbn in Hfuel; lia|]);
    pose proof (drain_step o l it w _ Hl Hdr) as Hstep; cbn iota in Hstep.
  - destruct Hstep as (it' & w' & HN & He).
    exists it', w'. cbn [base.collect]. rewrite HN, app_nil_r. auto.
  - destruct Hstep as (it' & w' & HN & Hcur & Hdr').
    cbn [base.collect]. rewrite HN. unfold Item. rewrite Hcur.
    destruct (IH fuel (acc ++ [x]) it' w' Hdr') as (it'' & w'' & Hc & He).
    { cbn [length] in Hfuel. lia. }
    exists it'', w''. rewrite Hc, <- app_assoc. auto.
Qed.

(** A new iterator with options [WithLimit l] and [WithOffset o] is
    draining the collection from position [o]. *)
Lemma NewIterator_draining (zero : T) (o l : Z) :
  0 <= o <= len src ->
  draining o l (NewIterator zero [WithLimit l; WithOffset o])
    (skipn (Z.to_nat o) src).
Proof.
  intros Ho. unfold base.draining. cbn.
  repeat split; try lia.
  exists (firstn (Z.to_nat o) src), (skipn (Z.to_nat o) src).
  assert (Hl : len (firstn (Z.to_nat o) src) = o).
  { unfold len in *. rewrite length_firstn. lia. }
  rewrite Hl, firstn_skipn.
  repeat split; try lia. right. auto.
Qed.

(** C7 (offset resume).  Over a fetcher backed by a collection [src] of
    [int] length, an iterator built with a starting offset [o] within
    the collection and any page size of at least 1 is drained by [All],
    given more fuel than there are items, to exactly the items of [src]
    from position [o] on, in order, and no error. *)
Theorem offset_resume (zero : T) (o limit : Z) (s : FS) (fuel : nat) :
  0 <= o <= len src ->
  1 <= limit ->
  (List.length src < fuel)%nat ->
  exists it' w',
    All fuel (NewIterator zero [WithLimit limit; WithOffset o]) (fresh s)
      = Ret ((skipn (Z.to_nat o) src, None), it', w') /\
    Err it' = None.
Proof.
  intros Ho Hl Hfuel.
  destruct (collect_draining o limit _ Hl fuel [] _ (fresh s)
              (NewIterator_draining zero o limit Ho)) as (it' & w' & Hc & He).
  { rewrite length_skipn. lia. }
  exists it', w'. unfold base.All. rewrite Hc. cbn [finish app].
  rewrite He. auto.
Qed.

(** C4 (exhaustiveness).  Over a fetcher backed by a collection [src]
    of [N] items, an iterator built with a page size between 1 and [N]
    is drained by [All], given more fuel than there are items, to exactly
    the items of [src], in order, and [Err()] is nil afterwards. *)
Theorem exhaustive_drain (zero : T) (limit : Z) (s : FS) (fuel : nat) :
  1 <= limit <= len src ->
  (List.length src < fuel)%nat ->
  exists it' w',
    All fuel (NewIterator zero [WithLimit limit]) (fresh s)
      = Ret ((src, None), it', w') /\
    Err it' = None.
Proof.
  intros Hl Hfuel.
  assert (Ho : 0 <= 0 <= len src) by (pose proof (len_nonneg src); lia).
  destruct (collect_draining 0 limit _ (proj1 Hl) fuel [] _ (fresh s)
              (NewIterator_draining zero 0 limit Ho)) as (it' & w' & Hc & He).
  { rewrite length_skipn. lia. }
  exists it', w'. unfold base.All.
  change (NewIterator zero [WithLimit limit])
    with (NewIterator zero [WithLimit limit; WithOffset 0]).
  rewrite Hc. cbn [finish app Z.to_nat skipn]. rewrite He. auto.
Qed.

End Drain.

(** *** The test double over a fixed collection *)

Lemma list_ascii_substring (s : string) :
  forall a b : nat,
    list_ascii_of_string (substring a b s)
    = firstn b (skipn a (list_ascii_of_string s)).
Proof.
  induction s as [|c s IH]; intros [|a] [|b]; cbn; try reflexivity.
  - now rewrite IH.
  - apply IH.
  - apply IH.
Qed.

Lemma collection_serves (allItems : string) :
  (String.length allItems <= 64)%nat ->
  serves (scenario.collection allItems) scenario.chars
    (list_ascii_of_string allItems).
Proof.
  intros Hlen off lim s Hoff.
  eexists _, _, _. split; [reflexivity|]. cbn [Total]. split.
  - unfold len. now rewrite list_ascii_length.
  - unfold scenario.chars, window.
    assert (Hle : (String.length (substring (Z.to_nat off) (Z.to_nat lim) allItems)
                   <= 64)%nat).
    { rewrite <- list_ascii_length, list_ascii_substring, length_firstn,
        length_skipn, list_ascii_length. lia. }
    apply Nat.leb_le in Hle. rewrite Hle, list_ascii_substring. reflexivity.
Qed.

(** Five items, pages of two. *)
Lemma exhaustive_drain_witness :
  let src := ["a"; "b"; "c"; "d"; "e"]%char in
  serves (scenario.collection "abcde") scenario.chars src /\
  len src <= MaxInt /\
  1 <= 2 <= len src /\
  (List.length src < 9)%nat /\
  exists it' w',
    All (scenario.collection "abcde") scenario.chars 9
      (NewIterator " "%char [WithLimit 2]) (fresh tt)
      = Ret ((src, None), it', w') /\
    Err it' = None.
Proof.
  intros src.
  assert (Hs : serves (scenario.collection "abcde") scenario.chars src)
    by (apply (collection_serves "abcde"); cbn; lia).
  assert (Hf : len src <= MaxInt) by (vm_compute; discriminate).
  assert (Hl : 1 <= 2 <= len src) by (vm_compute; split; discriminate).
  assert (Hn : (List.length src < 9)%nat) by (cbn; lia).
  repeat (split; [assumption|]).
  exact (exhaustive_drain _ _ _ _ src Hs Hf " "%char 2 tt 9%nat Hl Hn).
Defined.

(** Five items, pages of two, from offset 2: the items 3, 4 and 5. *)
Lemma offset_resume_witness :
  let src := ["a"; "b"; "c"; "d"; "e"]%char in
  serves (scenario.collection "abcde") scenario.chars src /\
  len src <= MaxInt /\
  0 <= 2 <= len src /\
  1 <= 2 /\
  (List.length src < 9)%nat /\
  exists it' w',
    All (scenario.collection "abcde") scenario.chars 9
      (NewIterator " "%char [WithLimit 2; WithOffset 2]) (fresh tt)
      = Ret ((["c"; "d"; "e"]%char, None), it', w') /\
    Err it' = None.
Proof.
  intros src.
  assert (Hs : serves (scenario.collection "abcde") scenario.chars src)
    by (apply (collection_serves "abcde"); cbn; lia).
  assert (Hf : len src <= MaxInt) by (vm_compute; discriminate).
  assert (Ho : 0 <= 2 <= len src) by (vm_compute; split; discriminate).
  assert (Hl : 1 <= 2) by lia.
  assert (Hn : (List.length src < 9)%nat) by (cbn; lia).
  repeat (split; [assumption|]).
  exact (offset_resume _ _ _ _ src Hs Hf " "%char 2 2 tt 9%nat Ho Hl Hn).
Defined.

End DrainFacts.

Module ExportFacts.

Import GoInt GoIntFacts base tio.

Section Polling.

Variable B : Type.
Variable get : string -> B -> ExportStatus * option error * B.
Variable select : Z -> B -> option error * B.

Abbreviation client_Get := (client_Get get).
Abbreviation ctx_select := (ctx_select select).
Abbreviation waitLoop := (waitLoop get select).
Abbreviation WaitForExport := (WaitForExport get select).
Abbreviation pending := (pending get select).

(** One turn of the loop, for an export type it knows. *)
Lemma waitLoop_turn (fuel : nat) (exportType exportUUID path : string) (d : Z)
    (n : Net B) :
  statusPath exportType exportUUID = Some path ->
  waitLoop (S fuel) exportType exportUUID d n
  = match client_Get path n with
    | (_, Some e, n1) => Ret (None, Some e, n1)
    | (status, None, n1) =>
        if (Status status =? "FINISHED")%string
        then Ret (Some status, None, n1)
        else if (Status status =? "CANCELLED")%string
        then Ret (None, Some (ExportError exportType exportUUID "export cancelled"), n1)
        else if (Status status =? "ERROR")%string
        then Ret (None, Some (ExportError exportType exportUUID "export failed"), n1)
        else
          match ctx_select d n1 with
          | (Some e, n2) => Ret (None, Some e, n2)
          | (None, n2) => waitLoop fuel exportType exportUUID d n2
          end
    end.
Proof.
  unfold statusPath. intros Hp. cbn [tio.waitLoop].
  unfold AssetsExportStatus, VulnsExportStatus, ComplianceExportStatus, exportStatus.
  destruct (exportType =? "assets")%string;
    [|destruct (exportType =? "vulns")%string;
      [|destruct (exportType =? "compliance")%string; [|discriminate]]];
    inversion Hp; subst path;
    destruct (tio.client_Get get _ n) as [[status [e|]] n1]; reflexivity.
Qed.

Lemma terminal_false (status : string) :
  terminal status = false ->
  (status =? "FINISHED")%string = false /\
  (status =? "CANCELLED")%string = false /\
  (status =? "ERROR")%string = false.
Proof.
  unfold terminal. intros H.
  apply orb_false_iff in H. destruct H as [H H3].
  apply orb_false_iff in H. tauto.
Qed.

(** The rounds that do not end the loop are passed over. *)
Lemma waitLoop_pending (exportType exportUUID path : string) (d : Z)
    (k : nat) (n n' : Net B) :
  statusPath exportType exportUUID = Some path ->
  pending path d k n n' ->
  forall fuel,
    waitLoop (k + fuel) exportType exportUUID d n
    = waitLoop fuel exportType exportUUID d n'.
Proof.
  intros Hp Hk. induction Hk as [n | k n n1 n2 n3 st Hg Ht Hs Hk IH]; intros fuel.
  - reflexivity.
  - cbn [Nat.add]. rewrite (waitLoop_turn _ _ _ _ _ _ Hp), Hg.
    destruct (terminal_false _ Ht) as (H1 & H2 & H3).
    rewrite H1, H2, H3, Hs. apply IH.
Qed.


End Polling.

Section Submission.

Variable B : Type.
Variable post : string -> Body -> B -> ExportResponse * option error * B.
Variable get : string -> B -> ExportStatus * option error * B.
Variable download : string -> B -> string * option error * B.
Variable select : Z -> B -> option error * B.
Variable ExportedAsset : Type.
Variable unmarshalAssets : string -> list ExportedAsset * option error.

Abbreviation polled := (Forall (fun ev => isPoll ev = true)).
Abbreviation downloaded := (Forall (fun ev => isDownload ev = true)).

(** [WaitForExport] only polls and waits, and returns a status when it
    returns no error. *)
Lemma waitLoop_trace (fuel : nat) :
  forall (exportType exportUUID : string) (d : Z) (n n' : Net B)
         (s : option ExportStatus) (e : option error),
  tio.waitLoop get select fuel exportType exportUUID d n = Ret (s, e, n') ->
  exists polls,
    trace n' = trace n ++ polls /\ polled polls /\ (e = None -> s <> None).
Proof.
  induction fuel as [|fuel IH]; intros exportType exportUUID d n n' s e HW;
    cbn [tio.waitLoop] in HW; [discriminate|].
  unfold AssetsExportStatus, VulnsExportStatus, ComplianceExportStatus,
    exportStatus, tio.client_Get, tio.ctx_select in HW.
  assert (Hone : forall path b,
            polled [EvGet path] /\ polled [EvGet path; EvSelect b])
    by (intros; split; repeat constructor).
  split_code HW; try discriminate.
  all: first
    [ apply IH in HW; cbn [trace] in HW;
      destruct HW as (polls & Ht & Hp & Hs);
      eexists (_ :: _ :: polls);
      rewrite Ht, <- !app_assoc; cbn [app];
      split; [reflexivity|]; split; [|exact Hs];
      repeat constructor; exact Hp
    | inversion HW; subst s e n'; cbn [trace]; rewrite <- ?app_assoc;
      first [ eexists; split; [reflexivity|]
            | exists []; split; [symmetry; apply app_nil_r|] ];
      (split; [repeat constructor | intros; discriminate]) ].
Qed.

Lemma AssetsExport_trace (req req' : option ExportAssetsRequest.t) (n n1 : Net B)
    (uuid : string) (e : option error) :
  AssetsExport post req n = (uuid, e, req', n1) ->
  (exists body, trace n1 = trace n ++ [EvPost "assets/export" body]) /\
  (gives_identifiers post -> e = None -> uuid <> ""%string).
Proof.
  unfold AssetsExport, client_Post. intros H.
  destruct (post _ _ (remote n)) as [[r e0] b'] eqn:Hp.
  destruct e0; inversion H; subst; cbn [trace]; (split; [eexists; reflexivity|]);
    intros Hid He; try discriminate.
  exact (Hid _ _ _ _ _ Hp).
Qed.

Lemma exportChunk_trace (path data : string) (e : option error) (n n' : Net B) :
  exportChunk download path n = (data, e, n') ->
  trace n' = trace n ++ [EvDownload path].
Proof.
  unfold exportChunk, client_Download. intros H.
  destruct (download path (remote n)) as [[r e0] b'].
  destruct e0; inversion H; subst; reflexivity.
Qed.

Lemma submitted_once_wait (path : string) (body : Body) (tr polls : list Event) :
  tr = [EvPost path body] ->
  polled polls ->
  submitted_once path (tr ++ polls).
Proof.
  intros -> Hp. exists body, polls, []. rewrite app_nil_r. repeat split; auto.
Qed.

Lemma submitted_once_download (path q : string) (tr : list Event) :
  submitted_once path tr ->
  submitted_once path (tr ++ [EvDownload q]).
Proof.
  intros (body & polls & downloads & -> & Hp & Hd).
  exists body, polls, (downloads ++ [EvDownload q]).
  cbn [app]. rewrite <- app_assoc. repeat split; auto.
  apply Forall_app. split; [exact Hd | repeat constructor].
Qed.

Abbreviation assets_fetcher :=
  (AssetsIterator_fetcher post get download select unmarshalAssets).

(** With an identifier and a status, a fetch downloads at most. *)
Lemma assets_fetcher_ready (fuel : nat) (off lim : Z)
    (v : AssetsVars ExportedAsset) (n : Net B) (r : FetchResult)
    (s' : AssetsState B ExportedAsset) :
  a_exportUUID v <> ""%string ->
  a_status v <> None ->
  submitted_once "assets/export" (trace n) ->
  assets_fetcher fuel off lim (v, n) = Ret (r, s') ->
  a_exportUUID (fst s') <> ""%string /\ a_status (fst s') <> None /\
  submitted_once "assets/export" (trace (snd s')).
Proof.
  intros Hu Hs Ht HF. unfold AssetsIterator_fetcher in HF.
  apply String.eqb_neq in Hu. rewrite Hu in HF.
  destruct (a_status v) as [status|] eqn:Est; [|now elim Hs].
  cbn [bind] in HF. rewrite Est in HF.
  unfold AssetsExportChunk, ReadAll in HF.
  split_code HF; try discriminate; inversion HF; subst r s';
    cbn [fst snd a_exportUUID a_status];
    rewrite ?Est; apply String.eqb_neq in Hu;
    (split; [exact Hu|]); (split; [discriminate|]);
    try exact Ht;
    match goal with
    | Hc : exportChunk _ _ _ = _ |- _ =>
        rewrite (exportChunk_trace _ _ _ _ _ Hc);
        apply submitted_once_download; exact Ht
    end.
Qed.

(** Every fetch keeps the shape of the trace, and the invariant when it
    does not fail. *)
Lemma assets_fetcher_step (fuel : nat) (off lim : Z)
    (s s' : AssetsState B ExportedAsset) (r : FetchResult) :
  gives_identifiers post ->
  assets_inv s ->
  assets_fetcher fuel off lim s = Ret (r, s') ->
  assets_shape s' /\ (snd r = None -> assets_inv s').
Proof.
  intros Hid Hinv HF. destruct s as [v n].
  unfold assets_inv in Hinv. cbn [fst snd] in Hinv.
  destruct Hinv as [(Hu & Hs & Ht) | (Hu & Hs & Ht)].
  2:{ pose proof (assets_fetcher_ready _ _ _ _ _ _ _ Hu Hs Ht HF) as H.
      split; [right; tauto | intros _; right; exact H]. }
  pose proof HF as HF0.
  unfold AssetsIterator_fetcher in HF. rewrite Hu in HF. cbn [String.eqb] in HF.
  destruct (AssetsExport post (a_req v) n) as [[[uuid e] req'] n1] eqn:Hsub.
  destruct (AssetsExport_trace _ _ _ _ _ _ Hsub) as [(body & Hn1) Hne].
  rewrite Ht in Hn1. cbn [app] in Hn1.
  assert (Hposted : submitted_once "assets/export" (trace n1)).
  { rewrite <- (app_nil_r (trace n1)).
    apply (submitted_once_wait _ body); [exact Hn1 | constructor]. }
  destruct e as [e|].
  { inversion HF; subst r s'. cbn [fst snd].
    split; [right; exact Hposted | discriminate]. }
  specialize (Hne Hid eq_refl).
  cbn [a_status] in HF. rewrite Hs in HF.
  unfold WaitForExport in HF. cbn [a_exportUUID bind] in HF.
  destruct (waitLoop get select fuel "assets" uuid _ n1)
    as [[[st e2] n2]| |] eqn:Hwait; cbn [bind] in HF; try discriminate.
  destruct (waitLoop_trace _ _ _ _ _ _ _ _ Hwait) as (polls & Hn2 & Hp & Hst).
  assert (Hwaited : submitted_once "assets/export" (trace n2)).
  { rewrite Hn2. apply (submitted_once_wait _ body); assumption. }
  destruct e2 as [e2|].
  { inversion HF; subst r s'. cbn [fst snd].
    split; [right; exact Hwaited | discriminate]. }
  specialize (Hst eq_refl).
  pose (v2 := {| a_req := req'; a_exportUUID := uuid; a_status := st;
                 a_currentChunk := a_currentChunk v;
                 a_chunkData := a_chunkData v |}).
  assert (H : a_exportUUID (fst s') <> ""%string /\ a_status (fst s') <> None /\
              submitted_once "assets/export" (trace (snd s')));
    [apply (assets_fetcher_ready fuel off lim v2 n2 r s');
     [exact Hne | exact Hst | exact Hwaited |]|].
  - unfold AssetsIterator_fetcher, v2. cbn [a_exportUUID a_status].
    apply String.eqb_neq in Hne. rewrite Hne.
    destruct st as [st|]; [|now elim Hst]. cbn [bind]. exact HF.
  - split; [right; tauto | intros _; right; exact H].
Qed.

Lemma VulnsExport_trace (req req' : option ExportVulnsRequest.t) (n n1 : Net B)
    (uuid : string) (e : option error) :
  VulnsExport post req n = (uuid, e, req', n1) ->
  (exists body, trace n1 = trace n ++ [EvPost "vulns/export" body]) /\
  (gives_identifiers post -> e = None -> uuid <> ""%string).
Proof.
  unfold VulnsExport, client_Post. intros H.
  destruct (post _ _ (remote n)) as [[r e0] b'] eqn:Hp.
  destruct e0; inversion H; subst; cbn [trace]; (split; [eexists; reflexivity|]);
    intros Hid He; try discriminate.
  exact (Hid _ _ _ _ _ Hp).
Qed.

Abbreviation vulns_fetcher :=
  (VulnsIterator_fetcher post get download select).

(** With an identifier and a status, a fetch downloads at most. *)
Lemma vulns_fetcher_ready (fuel : nat) (off lim : Z)
    (v : VulnsVars) (n : Net B) (r : FetchResult)
    (s' : VulnsState B) :
  v_exportUUID v <> ""%string ->
  v_status v <> None ->
  submitted_once "vulns/export" (trace n) ->
  vulns_fetcher fuel off lim (v, n) = Ret (r, s') ->
  v_exportUUID (fst s') <> ""%string /\ v_status (fst s') <> None /\
  submitted_once "vulns/export" (trace (snd s')).
Proof.
  intros Hu Hs Ht HF. unfold VulnsIterator_fetcher in HF.
  apply String.eqb_neq in Hu. rewrite Hu in HF.
  destruct (v_status v) as [status|] eqn:Est; [|now elim Hs].
  cbn [bind] in HF. rewrite Est in HF.
  unfold VulnsExportChunk, ReadAll in HF.
  split_code HF; try discriminate; inversion HF; subst r s';
    cbn [fst snd v_exportUUID v_status];
    rewrite ?Est; apply String.eqb_neq in Hu;
    (split; [exact Hu|]); (split; [discriminate|]);
    try exact Ht;
    match goal with
    | Hc : exportChunk _ _ _ = _ |- _ =>
        rewrite (exportChunk_trace _ _ _ _ _ Hc);
        apply submitted_once_download; exact Ht
    end.
Qed.

(** Every fetch keeps the shape of the trace, and the invariant when it
    does not fail. *)
Lemma vulns_fetcher_step (fuel : nat) (off lim : Z)
    (s s' : VulnsState B) (r : FetchResult) :
  gives_identifiers post ->
  vulns_inv s ->
  vulns_fetcher fuel off lim s = Ret (r, s') ->
  vulns_shape s' /\ (snd r = None -> vulns_inv s').
Proof.
  intros Hid Hinv HF. destruct s as [v n].
  unfold vulns_inv in Hinv. cbn [fst snd] in Hinv.
  destruct Hinv as [(Hu & Hs & Ht) | (Hu & Hs & Ht)].
  2:{ pose proof (vulns_fetcher_ready _ _ _ _ _ _ _ Hu Hs Ht HF) as H.
      split; [right; tauto | intros _; right; exact H]. }
  pose proof HF as HF0.
  unfold VulnsIterator_fetcher in HF. rewrite Hu in HF. cbn [String.eqb] in HF.
  destruct (VulnsExport post (v_req v) n) as [[[uuid e] req'] n1] eqn:Hsub.
  destruct (VulnsExport_trace _ _ _ _ _ _ Hsub) as [(body & Hn1) Hne].
  rewrite Ht in Hn1. cbn [app] in Hn1.
  assert (Hposted : submitted_once "vulns/export" (trace n1)).
  { rewrite <- (app_nil_r (trace n1)).
    apply (submitted_once_wait _ body); [exact Hn1 | constructor]. }
  destruct e as [e|].
  { inversion HF; subst r s'. cbn [fst snd].
    split; [right; exact Hposted | discriminate]. }
  specialize (Hne Hid eq_refl).
  cbn [v_status] in HF. rewrite Hs in HF.
  unfold WaitForExport in HF. cbn [v_exportUUID bind] in HF.
  destruct (waitLoop get select fuel "vulns" uuid _ n1)
    as [[[st e2] n2]| |] eqn:Hwait; cbn [bind] in HF; try discriminate.
  destruct (waitLoop_trace _ _ _ _ _ _ _ _ Hwait) as (polls & Hn2 & Hp & Hst).
  assert (Hwaited : submitted_once "vulns/export" (trace n2)).
  { rewrite Hn2. apply (submitted_once_wait _ body); assumption. }
  destruct e2 as [e2|].
  { inversion HF; subst r s'. cbn [fst snd].
    split; [right; exact Hwaited | discriminate]. }
  specialize (Hst eq_refl).
  pose (v2 := {| v_req := req'; v_exportUUID := uuid; v_status := st;
                 v_currentChunk := v_currentChunk v |}).
  assert (H : v_exportUUID (fst s') <> ""%string /\ v_status (fst s') <> None /\
              submitted_once "vulns/export" (trace (snd s')));
    [apply (vulns_fetcher_ready fuel off lim v2 n2 r s');
     [exact Hne | exact Hst | exact Hwaited |]|].
  - unfold VulnsIterator_fetcher, v2. cbn [v_exportUUID v_status].
    apply String.eqb_neq in Hne. rewrite Hne.
    destruct st as [st|]; [|now elim Hst]. cbn [bind]. exact HF.
  - split; [right; tauto | intros _; right; exact H].
Qed.


Variable ExportedVuln : Type.
Variable unmarshalVulns : string -> list ExportedVuln * option error.

(** C8 as the code has it.  The fetchers take an empty identifier for
    "not submitted yet".  So let the service give every job it accepts
    a non-empty identifier.  Then, whatever the number of calls of
    [Next] on an export iterator: its client was asked nothing, or was
    asked to submit once, then to poll and wait as one [WaitForExport]
    does, then to download chunks and nothing else; and unless the
    iterator stopped on an error, the fetcher is as declared, nothing
    asked, or holds the identifier and the status of that one job. *)
Theorem submits_once_given_identifiers (fuel n : nat) (b : B) :
  gives_identifiers post ->
  (forall (zero : ExportedAsset) req outs it w,
     pulls (assets_fetcher fuel) unmarshalAssets n
       (fst (AssetsIterator zero req))
       (fresh (snd (AssetsIterator zero req), connect b)) = Ret (outs, it, w) ->
     (trace (snd (fstate w)) = [] \/
      submitted_once "assets/export" (trace (snd (fstate w)))) /\
     (Err it = None -> assets_inv (fstate w))) /\
  (forall (zero : ExportedVuln) req outs it w,
     pulls (vulns_fetcher fuel) unmarshalVulns n
       (fst (VulnsIterator zero req))
       (fresh (snd (VulnsIterator zero req), connect b)) = Ret (outs, it, w) ->
     (trace (snd (fstate w)) = [] \/
      submitted_once "vulns/export" (trace (snd (fstate w)))) /\
     (Err it = None -> vulns_inv (fstate w))).
Proof.
  intros Hid. split; intros zero req outs it w Hp.
  - refine (IteratorFacts.pulls_preserve _ _ _ _
              (@assets_inv B ExportedAsset) (@assets_shape B ExportedAsset)
              _ n _ _ _ _ _ _ _ Hp).
    + intros off lim s r s'. apply assets_fetcher_step. exact Hid.
    + left. reflexivity.
    + intros _. left. cbn. auto.
  - refine (IteratorFacts.pulls_preserve _ _ _ _
              (@vulns_inv B) (@vulns_shape B)
              _ n _ _ _ _ _ _ _ Hp).
    + intros off lim s r s'. apply vulns_fetcher_step. exact Hid.
    + left. reflexivity.
    + intros _. left. cbn. auto.
Qed.

End Submission.

(** *** The polling loop on the test double *)


(** The same job run to its end: the status is returned after the third
    poll and not before, with the chunks in the order reported. *)
Example WaitForExport_ready_after_third_poll :
  exists n',
    tio.WaitForExport scenario.remote_get scenario.remote_select 9
      "assets" "job-1" (5 * Second) (tio.connect scenario.three_chunks)
    = Ret (Some (scenario.status_of "FINISHED" [1; 2; 3]), None, n') /\
    trace n' = [EvGet "assets/export/job-1/status"; EvSelect 5000000000;
                EvGet "assets/export/job-1/status"; EvSelect 5000000000;
                EvGet "assets/export/job-1/status"].
Proof. eexists. split; vm_compute; reflexivity. Qed.

(** A context cancelled during the first wait ends the loop there, with
    the error of the context, although the export would have finished. *)
Example WaitForExport_cancelled_in_wait :
  let b := {| scenario.submit_answer := ({| ExportUUID := "job-1" |}, None);
              scenario.poll_answers :=
                [scenario.Answers (scenario.status_of "PROCESSING" []);
                 scenario.Answers (scenario.status_of "FINISHED" [1])];
              scenario.wait_ends := [Some ContextCanceled];
              scenario.files := [] |} in
  exists n',
    tio.WaitForExport scenario.remote_get scenario.remote_select 9
      "vulns" "job-1" (5 * Second) (tio.connect b)
    = Ret (None, Some ContextCanceled, n') /\
    trace n' = [EvGet "vulns/export/job-1/status"; EvSelect 5000000000].
Proof. eexists. split; vm_compute; reflexivity. Qed.

(** *** The export iterators on the test double *)

(** C1 fails on the job of P6, whose chunks 1, 2 and 3 hold the items
    [ab], [cd] and [e]: the fetcher reports the number of chunks, 3, as
    the total, and the iterator stops once it has handed out 3 items.
    Both iterators yield [a], [b], [c] and then end without error; the
    item [d] is dropped and chunk 3 is never downloaded. *)
Theorem export_iterators_stop_at_chunk_count :
  (exists it w,
     pulls scenario.assets_fetcher scenario.unmarshal 7
       (fst (AssetsIterator " "%char None)) (scenario.assets_start scenario.three_chunks)
     = Ret ([Some "a"; Some "b"; Some "c"; None; None; None; None]%char, it, w) /\
     Err it = None /\ total it = 3 /\ Count it = 3 /\
     a_currentChunk (fst (fstate w)) = 2 /\
     filter (fun ev => match ev with EvDownload _ => true | _ => false end)
       (trace (snd (fstate w)))
     = [EvDownload "assets/export/job-1/chunks/1";
        EvDownload "assets/export/job-1/chunks/2"]) /\
  (exists it w,
     pulls scenario.vulns_fetcher scenario.unmarshal 7
       (fst (VulnsIterator " "%char None)) (scenario.vulns_start scenario.three_chunks)
     = Ret ([Some "a"; Some "b"; Some "c"; None; None; None; None]%char, it, w) /\
     Err it = None /\ total it = 3 /\ Count it = 3 /\
     v_currentChunk (fst (fstate w)) = 2 /\
     filter (fun ev => match ev with EvDownload _ => true | _ => false end)
       (trace (snd (fstate w)))
     = [EvDownload "vulns/export/job-1/chunks/1";
        EvDownload "vulns/export/job-1/chunks/2"]).
Proof.
  split; eexists _, _; (split; [vm_compute; reflexivity|]);
    repeat split; reflexivity.
Qed.

(** With one item in every chunk the count of items and the count of
    chunks agree, and the same iterator does yield them all. *)
Example export_iterator_one_item_per_chunk :
  let b := {| scenario.submit_answer := ({| ExportUUID := "job-1" |}, None);
              scenario.poll_answers :=
                [scenario.Answers (scenario.status_of "FINISHED" [1; 2; 3])];
              scenario.wait_ends := [];
              scenario.files := [("assets/export/job-1/chunks/1", "a");
                                 ("assets/export/job-1/chunks/2", "b");
                                 ("assets/export/job-1/chunks/3", "c")]%string |} in
  exists it w,
    pulls scenario.assets_fetcher scenario.unmarshal 5
      (fst (AssetsIterator " "%char None)) (scenario.assets_start b)
    = Ret ([Some "a"; Some "b"; Some "c"; None; None]%char, it, w) /\
    Err it = None.
Proof.
  intros b. eexists _, _. split; [vm_compute; reflexivity | reflexivity].
Qed.

(** The job of P6 behind a submit endpoint that always gives an
    identifier: one submit, three polls with two waits, two downloads. *)
Lemma submits_once_given_identifiers_witness :
  gives_identifiers scenario.accepting_post /\
  (exists outs it w,
     pulls (AssetsIterator_fetcher scenario.accepting_post scenario.remote_get
              scenario.remote_download scenario.remote_select scenario.unmarshal 9)
       scenario.unmarshal 7
       (fst (AssetsIterator " "%char None))
       (fresh (snd (AssetsIterator " "%char None), connect scenario.three_chunks))
     = Ret (outs, it, w) /\
     (trace (snd (fstate w)) = [] \/
      submitted_once "assets/export" (trace (snd (fstate w)))) /\
     (Err it = None -> assets_inv (fstate w))) /\
  (exists outs it w,
     pulls (VulnsIterator_fetcher scenario.accepting_post scenario.remote_get
              scenario.remote_download scenario.remote_select 9)
       scenario.unmarshal 7
       (fst (VulnsIterator " "%char None))
       (fresh (snd (VulnsIterator " "%char None), connect scenario.three_chunks))
     = Ret (outs, it, w) /\
     (trace (snd (fstate w)) = [] \/
      submitted_once "vulns/export" (trace (snd (fstate w)))) /\
     (Err it = None -> vulns_inv (fstate w))).
Proof.
  assert (Hid : gives_identifiers scenario.accepting_post).
  { intros path body b r b' H. inversion H. discriminate. }
  pose proof (submits_once_given_identifiers _ scenario.accepting_post
                scenario.remote_get scenario.remote_download scenario.remote_select
                _ scenario.unmarshal _ scenario.unmarshal 9 7 scenario.three_chunks
                Hid) as [Ha Hv].
  split; [exact Hid|]. split.
  - eexists _, _, _. split; [vm_compute; reflexivity|].
    eapply (Ha " "%char None). vm_compute. reflexivity.
  - eexists _, _, _. split; [vm_compute; reflexivity|].
    eapply (Hv " "%char None). vm_compute. reflexivity.
Defined.

(** C8 as stated fails when the submit endpoint accepts the job without
    giving an identifier: the identifier stays empty, and the second
    page fetch submits a second job.  Both fetchers post twice in three
    calls of [Next]. *)
Lemma empty_identifier_resubmits :
  (exists outs it w,
     pulls scenario.assets_fetcher scenario.unmarshal 3
       (fst (AssetsIterator " "%char None)) (scenario.assets_start scenario.no_uuid)
     = Ret (outs, it, w) /\
     Err it = None /\
     a_exportUUID (fst (fstate w)) = ""%string /\
     map scenario.isPost (trace (snd (fstate w)))
     = [true; false; false; true; false]) /\
  (exists outs it w,
     pulls scenario.vulns_fetcher scenario.unmarshal 3
       (fst (VulnsIterator " "%char None)) (scenario.vulns_start scenario.no_uuid)
     = Ret (outs, it, w) /\
     Err it = None /\
     v_exportUUID (fst (fstate w)) = ""%string /\
     map scenario.isPost (trace (snd (fstate w)))
     = [true; false; false; true; false]).
Proof.
  split; eexists _, _, _; (split; [vm_compute; reflexivity|]);
    repeat split; reflexivity.
Qed.

End ExportFacts.

(* ================================================================== *)
(** * Further properties of the iterator *)

Module IteratorMore.

Import GoInt GoIntFacts base IteratorFacts.

Section Runs.

Variables T FS : Type.
Variable fetcher : PageFetcher FS.
Variable transformer : ItemTransformer T.

Abbreviation Next := (Next fetcher transformer).
Abbreviation pulls := (pulls fetcher transformer).
Abbreviation slices_fit := (slices_fit transformer).
Abbreviation in_page_order := (in_page_order transformer).

(** What a call of [Next] that returns false leaves. *)
Lemma Next_false_stopped (it it' : Iterator T) (w w' : World FS) :
  Next it w = Ret (false, it', w') ->
  done it' = true \/ err it' <> None.
Proof.
  intros HN.
  unfold base.Next, fetchNextPage, call_fetcher, bind in HN.
  destruct (done it) eqn:Hd.
  { inversion HN; subst. left. exact Hd. }
  destruct (err it) eqn:He.
  { inversion HN; subst. right. rewrite He. discriminate. }
  cbn [orb negb isNil] in HN.
  split_code HN; try discriminate; inversion HN; subst it' w';
    cbn [done err set_done set_err set_total];
    first [left; reflexivity | right; discriminate].
Qed.

(** X1.  A call of [Next] that returns false is final, whatever made it
    so (the total reached, the page cap, an empty page, an error, or an
    earlier end): the iterator is then done or holds an error, and every
    later call returns false and changes neither the iterator nor the
    fetcher, which is not invoked again. *)
Theorem Next_false_is_final (it it' : Iterator T) (w w' : World FS) :
  Next it w = Ret (false, it', w') ->
  (done it' = true \/ err it' <> None) /\
  forall k, pulls k it' w' = Ret (repeat None k, it', w').
Proof.
  intros HN. pose proof (Next_false_stopped _ _ _ _ HN) as H.
  split; [exact H|]. intros k. apply pulls_stopped. exact H.
Qed.

Lemma Next_in_page_order (it it' : Iterator T) (w w' : World FS) (ys : list T)
    (b : bool) :
  slices_fit ->
  in_page_order it w ys ->
  Next it w = Ret (b, it', w') ->
  in_page_order it' w' (if b then ys ++ [current it'] else ys).
Proof.
  intros Hfit (Hidx & Hmax & Hys) HN.
  unfold base.Next in HN.
  destruct (done it || negb (isNil (err it))).
  { inversion HN; subst b it' w'. repeat split; auto; lia. }
  destruct ((0 <=? total it) && (total it <=? count it)).
  { inversion HN; subst b it' w'. repeat split; auto; cbn; lia. }
  destruct (len (page it) <=? pageIndex it) eqn:Epi.
  - apply Z.leb_le in Epi.
    assert (Hall : ys = concat (map (decoded transformer) (calls w))).
    { rewrite <- Hys, skipn_past by assumption. now rewrite app_nil_r. }
    unfold fetchNextPage in HN.
    destruct ((0 <? maxPages it) && (maxPages it <=? pagesLoaded it)).
    { inversion HN; subst b it' w'. repeat split; auto; cbn; lia. }
    destruct ((0 <=? total it) && (total it <=? offset it)).
    { inversion HN; subst b it' w'. repeat split; auto; cbn; lia. }
    unfold call_fetcher, bind in HN.
    destruct (fetcher (offset it) (limit it) (fstate w))
      as [[[[data pagination] e] s']| |]; try discriminate.
    set (c := {| call_offset := offset it; call_limit := limit it;
                 call_result := (data, pagination, e) |}) in HN.
    assert (Hgrow : forall l,
              decoded transformer c = l ->
              concat (map (decoded transformer) (calls w ++ [c]))
              = concat (map (decoded transformer) (calls w)) ++ l).
    { intros l <-. rewrite map_app, concat_app. cbn [map concat].
      now rewrite app_nil_r. }
    destruct e as [e|].
    { inversion HN; subst b it' w'. unfold base.in_page_order.
      cbn [calls page pageIndex set_err].
      rewrite (Hgrow []), app_nil_r by reflexivity. auto. }
    destruct (transformer data) as [items e'] eqn:Etr.
    destruct e' as [e'|].
    { inversion HN; subst b it' w'. unfold base.in_page_order.
      cbn [calls page pageIndex set_err].
      rewrite (Hgrow []), app_nil_r
        by (unfold decoded, c; cbn; now rewrite Etr).
      destruct pagination; cbn [page pageIndex set_total]; auto. }
    assert (Hc : decoded transformer c = items)
      by (unfold decoded, c; cbn; now rewrite Etr).
    destruct (len items =? 0) eqn:El.
    { apply Z.eqb_eq, len_zero in El. subst items.
      inversion HN; subst b it' w'. unfold base.in_page_order.
      cbn [calls page pageIndex set_done].
      rewrite (Hgrow [] Hc), app_nil_r.
      destruct pagination; cbn [page pageIndex set_total]; auto. }
    apply Z.eqb_neq in El.
    cbn [page pageIndex load_page] in HN.
    destruct items as [|x items]; [now elim El|].
    cbn [index Z.ltb Z.compare Z.to_nat nth_error] in HN.
    inversion HN; subst b it' w'.
    assert (Hfx : len (x :: items) <= MaxInt).
    { specialize (Hfit data). now rewrite Etr in Hfit. }
    unfold base.in_page_order. cbn [calls pageIndex page advance load_page current].
    change (add 0 1) with 1. rewrite (Hgrow _ Hc).
    repeat split; try lia.
    + rewrite len_cons. pose proof (len_nonneg items). lia.
    + change (Z.to_nat 1) with 1%nat. cbn [skipn].
      rewrite <- app_assoc. cbn [app]. now rewrite Hall.
  - apply Z.leb_gt in Epi.
    destruct (index_in_range (page it) (pageIndex it)) as (x & Hx & Hnth); [lia|].
    rewrite Hx in HN. inversion HN; subst b it' w'.
    unfold base.in_page_order. cbn [calls pageIndex page advance current].
    rewrite add_small by (unfold MinInt, MaxInt in *; lia).
    repeat split; auto; try lia.
    rewrite <- Hys, (skipn_step _ _ _ Hnth), <- app_assoc. cbn [app].
    replace (Z.to_nat (pageIndex it + 1)) with (S (Z.to_nat (pageIndex it))) by lia.
    reflexivity.
Qed.

Lemma pulls_in_page_order (n : nat) :
  slices_fit ->
  forall (it it' : Iterator T) (w w' : World FS) (ys : list T) outs,
  in_page_order it w ys ->
  pulls n it w = Ret (outs, it', w') ->
  in_page_order it' w' (ys ++ yielded outs).
Proof.
  intros Hfit. induction n as [|n IH]; intros it it' w w' ys outs Hi Hp;
    cbn [base.pulls] in Hp.
  - inversion Hp; subst. cbn. now rewrite app_nil_r.
  - destruct (Next it w) as [[[b it1] w1]| |] eqn:HN; try discriminate.
    destruct (pulls n it1 w1) as [[[outs' it2] w2]| |] eqn:Hp'; try discriminate.
    inversion Hp; subst outs it2 w2.
    pose proof (Next_in_page_order _ _ _ _ _ _ Hfit Hi HN) as H1.
    pose proof (IH _ _ _ _ _ _ H1 Hp') as H2.
    destruct b; cbn [yielded]; [|exact H2].
    unfold Item. now rewrite <- app_assoc in H2.
Qed.

(** After the first false, only false. *)
Lemma pulls_shape (n : nat) :
  forall (it it' : Iterator T) (w w' : World FS) outs,
  pulls n it w = Ret (outs, it', w') ->
  outs = map Some (yielded outs)
           ++ repeat None (List.length outs - List.length (yielded outs)).
Proof.
  induction n as [|n IH]; intros it it' w w' outs Hp; cbn [base.pulls] in Hp.
  - inversion Hp; subst. reflexivity.
  - destruct (Next it w) as [[[b it1] w1]| |] eqn:HN; try discriminate.
    destruct b.
    + destruct (pulls n it1 w1) as [[[outs' it2] w2]| |] eqn:Hp'; try discriminate.
      inversion Hp; subst outs it2 w2. cbn [yielded map length app].
      rewrite Nat.sub_succ. f_equal. exact (IH _ _ _ _ _ Hp').
    + rewrite (pulls_stopped _ _ _ _ n _ _ (Next_false_stopped _ _ _ _ HN)) in Hp.
      inversion Hp; subst outs it' w'. clear.
      change (None :: repeat None n) with (repeat (@None T) (S n)).
      assert (Hy : yielded (repeat (@None T) (S n)) = []).
      { generalize (S n). intros m. induction m; cbn; auto. }
      rewrite Hy, repeat_length. cbn [map app length]. now rewrite Nat.sub_0_r.
Qed.

(** X2.  The items come out in the order of the pages and, within a
    page, in the order decoded, none left out and none twice: after any
    number of calls of [Next] on a new iterator, the items handed out,
    followed by what is left of the current page, are the decoded pages
    of the fetches made so far, one after the other; and the calls that
    returned true all come before those that returned false. *)
Theorem items_in_page_order (zero : T) (opts : list IteratorOption) (s : FS)
    (n : nat) (outs : list (option T)) (it : Iterator T) (w : World FS) :
  slices_fit ->
  pulls n (NewIterator zero opts) (fresh s) = Ret (outs, it, w) ->
  yielded outs ++ skipn (Z.to_nat (pageIndex it)) (page it)
    = concat (map (decoded transformer) (calls w)) /\
  outs = map Some (yielded outs)
           ++ repeat None (List.length outs - List.length (yielded outs)).
Proof.
  intros Hfit Hp. split; [|exact (pulls_shape _ _ _ _ _ _ Hp)].
  refine (proj2 (proj2 (pulls_in_page_order n Hfit _ _ _ _ [] _ _ Hp))).
  destruct (NewIterator_pristine _ zero opts) as (_ & Hpg & Hi & _).
  unfold base.in_page_order. rewrite Hpg, Hi. cbn.
  repeat split; try lia. unfold MaxInt. lia.
Qed.

Lemma len_snoc {A : Type} (l : list A) (x : A) : len (l ++ [x]) = len l + 1.
Proof. rewrite len_app. reflexivity. Qed.

Lemma Next_within_cap (k : Z) (it it' : Iterator T) (w w' : World FS) (b : bool) :
  0 < k <= MaxInt ->
  within_cap k it w ->
  Next it w = Ret (b, it', w') ->
  within_cap k it' w'.
Proof.
  intros Hk (Hm & Hc & Hp) HN.
  unfold base.Next, fetchNextPage, call_fetcher, bind in HN.
  destruct (done it) eqn:Hd.
  { inversion HN; subst. repeat split; auto. intros; congruence. }
  destruct (err it) eqn:He.
  { inversion HN; subst. repeat split; auto. intros; congruence. }
  specialize (Hp eq_refl eq_refl).
  cbn [orb negb isNil] in HN. rewrite Hm in HN.
  pose proof (len_nonneg (calls w)) as H0.
  split_code HN; try discriminate; inversion HN; subst b it' w';
    unfold within_cap;
    cbn [maxPages calls done err pagesLoaded set_done set_err set_total
         advance load_page];
    rewrite ?len_snoc;
    try match goal with
        | H : (0 <? k) && (k <=? pagesLoaded it) = false |- _ =>
            apply andb_false_iff in H;
            destruct H as [H | H]; [apply Z.ltb_ge in H; lia | apply Z.leb_gt in H]
        end;
    (split; [exact Hm|]); (split; [lia|]);
    intros; try discriminate; auto.
  all: rewrite add_small by (unfold MinInt, MaxInt in *; lia); lia.
Qed.

(** X3 (page cap).  On an iterator built with a page cap [k > 0], the
    fetcher is invoked at most [k] times, whatever the number of calls
    of [Next] and whatever the fetcher returns. *)
Theorem page_cap (zero : T) (opts : list IteratorOption) (k : Z) (s : FS)
    (n : nat) (outs : list (option T)) (it : Iterator T) (w : World FS) :
  0 < k <= MaxInt ->
  maxPages (NewIterator zero opts) = k ->
  pulls n (NewIterator zero opts) (fresh s) = Ret (outs, it, w) ->
  len (calls w) <= k.
Proof.
  intros Hk Hm Hp.
  assert (H0 : within_cap k (NewIterator zero opts) (fresh s)).
  { destruct (NewIterator_pristine _ zero opts) as (_ & _ & _ & _ & Hpl & _).
    unfold within_cap. rewrite Hpl. cbn. repeat split; auto; lia. }
  revert Hp H0. generalize (NewIterator zero opts) (fresh s). clear Hm.
  revert outs. induction n as [|n IH]; intros outs i0 w0 Hp H0; cbn [base.pulls] in Hp.
  - inversion Hp; subst. apply H0.
  - destruct (Next i0 w0) as [[[b it1] w1]| |] eqn:HN; try discriminate.
    destruct (pulls n it1 w1) as [[[outs' it2] w2]| |] eqn:Hp'; try discriminate.
    inversion Hp; subst outs it2 w2.
    exact (IH _ _ _ Hp' (Next_within_cap _ _ _ _ _ _ Hk H0 HN)).
Qed.

(** X4 (empty source).  When the first fetch of a new iterator returns
    data that decode to no item, the first [Next] returns false, and so
    does every later one: nothing is handed out, the count stays 0,
    [Err()] stays nil, and the fetcher was invoked once, whatever total
    it reported. *)
Theorem empty_first_page (zero : T) (opts : list IteratorOption) (s s' : FS)
    (data : RawMessage) (p : option PaginationInfo) (k : nat) :
  let it0 := NewIterator zero opts in
  fetcher (offset it0) (limit it0) s = Ret ((data, p, None), s') ->
  transformer data = ([], None) ->
  exists it w,
    pulls (S k) it0 (fresh s) = Ret (repeat None (S k), it, w) /\
    Err it = None /\ Count it = 0 /\ List.length (calls w) = 1%nat.
Proof.
  intros it0 Hf Htr.
  destruct (NewIterator_pristine _ zero opts) as (P1 & P2 & P3 & P4 & P5 & P6 & P7 & P8).
  fold it0 in P1, P2, P3, P4, P5, P6, P7, P8.
  assert (HN : exists it w,
            Next it0 (fresh s) = Ret (false, it, w) /\
            err it = None /\ count it = 0 /\ List.length (calls w) = 1%nat).
  { unfold base.Next. rewrite P6, P7, P1, P2, P3. cbn [orb negb isNil andb].
    change (0 <=? -1) with false. cbn [andb].
    change (len [] <=? 0) with true. cbn iota.
    unfold fetchNextPage. rewrite P5, P1, no_page_cap_yet.
    change (0 <=? -1) with false. cbn [andb].
    unfold call_fetcher. cbn [fstate fresh calls app bind]. rewrite Hf. cbn [bind].
    rewrite Htr. change (len [] =? 0) with true. cbn iota.
    eexists _, _. split; [reflexivity|].
    destruct p; cbn [err count calls set_done set_total length]; auto. }
  destruct HN as (it & w & HN & He & Hc & Hl).
  exists it, w. split; [|auto].
  cbn [base.pulls repeat]. rewrite HN.
  rewrite (pulls_stopped _ _ _ _ k _ _ (Next_false_stopped _ _ _ _ HN)). reflexivity.
Qed.

Lemma yielded_length_le (outs : list (option T)) :
  (List.length (yielded outs) <= List.length outs)%nat.
Proof.
  induction outs as [|[x|] outs IH]; cbn [yielded length]; lia.
Qed.

(** X5.  [Count()] is the number of items handed out: after [n] calls of
    [Next] on a new iterator ([n] an [int]), it equals the number of
    calls that returned true. *)
Theorem Count_counts_items (zero : T) (opts : list IteratorOption) (s : FS)
    (n : nat) (outs : list (option T)) (it : Iterator T) (w : World FS) :
  Z.of_nat n <= MaxInt ->
  pulls n (NewIterator zero opts) (fresh s) = Ret (outs, it, w) ->
  Count it = len (yielded outs).
Proof.
  intros Hn Hp.
  assert (Hgen : forall m i0 w0 o i1 w1,
            pulls m i0 w0 = Ret (o, i1, w1) ->
            0 <= count i0 -> count i0 + Z.of_nat m <= MaxInt ->
            count i1 = count i0 + len (yielded o)).
  { clear. induction m as [|m IH]; intros i0 w0 o i1 w1 Hp H0 Hm;
      cbn [base.pulls] in Hp.
    - inversion Hp; subst. cbn. lia.
    - destruct (Next i0 w0) as [[[b i2] w2]| |] eqn:HN; try discriminate.
      destruct (pulls m i2 w2) as [[[o' i3] w3]| |] eqn:Hp'; try discriminate.
      inversion Hp; subst o i3 w3.
      pose proof (Next_count _ _ _ _ _ _ _ _ _ HN) as Hc.
      destruct b; cbn [yielded].
      + rewrite add_small in Hc by (unfold MinInt, MaxInt in *; lia).
        rewrite (IH _ _ _ _ _ Hp'), Hc, len_cons by lia. lia.
      + rewrite (IH _ _ _ _ _ Hp'), Hc by lia. reflexivity. }
  destruct (NewIterator_pristine _ zero opts) as (_ & _ & _ & Hc & _).
  unfold Count. rewrite (Hgen _ _ _ _ _ _ Hp); rewrite Hc; lia.
Qed.

Lemma last_cons_default {A : Type} (l : list A) :
  forall x d : A, last (x :: l) d = last l x.
Proof.
  induction l as [|y l IH]; intros x d; [reflexivity|].
  change (last (x :: y :: l) d) with (last (y :: l) d).
  now rewrite !IH.
Qed.

Lemma Next_current (it it' : Iterator T) (w w' : World FS) :
  Next it w = Ret (false, it', w') -> current it' = current it.
Proof.
  intros HN. unfold base.Next, fetchNextPage, call_fetcher, bind in HN.
  split_code HN; try discriminate; inversion HN; subst it' w'; reflexivity.
Qed.

(** X6.  [Item()] is the item of the last call of [Next] that returned
    true, also after calls that returned false, and the zero value when
    no call has returned true yet. *)
Theorem Item_is_last_yielded (zero : T) (opts : list IteratorOption) (s : FS)
    (n : nat) (outs : list (option T)) (it : Iterator T) (w : World FS) :
  pulls n (NewIterator zero opts) (fresh s) = Ret (outs, it, w) ->
  Item it = last (yielded outs) zero.
Proof.
  intros Hp.
  assert (Hgen : forall m i0 w0 o i1 w1,
            pulls m i0 w0 = Ret (o, i1, w1) ->
            current i1 = last (yielded o) (current i0)).
  { clear. induction m as [|m IH]; intros i0 w0 o i1 w1 Hp; cbn [base.pulls] in Hp.
    - inversion Hp; subst. reflexivity.
    - destruct (Next i0 w0) as [[[b i2] w2]| |] eqn:HN; try discriminate.
      destruct (pulls m i2 w2) as [[[o' i3] w3]| |] eqn:Hp'; try discriminate.
      inversion Hp; subst o i3 w3. rewrite (IH _ _ _ _ _ Hp').
      destruct b; cbn [yielded].
      + unfold Item. symmetry. apply last_cons_default.
      + now rewrite (Next_current _ _ _ _ HN). }
  destruct (NewIterator_pristine _ zero opts) as (_ & _ & _ & _ & _ & _ & _ & Hc).
  unfold Item. rewrite (Hgen _ _ _ _ _ _ Hp), Hc. reflexivity.
Qed.

(** X7.  [Total()] is what the last fetch that reported a total
    reported, and -1 as long as none did: after any number of calls of
    [Next] on a new iterator, it is the last of the totals reported by
    the fetches made. *)
Theorem Total_is_last_report (zero : T) (opts : list IteratorOption) (s : FS)
    (n : nat) (outs : list (option T)) (it : Iterator T) (w : World FS) :
  pulls n (NewIterator zero opts) (fresh s) = Ret (outs, it, w) ->
  Iterator_Total it = last (reports (calls w)) (-1).
Proof.
  intros Hp.
  assert (Hgen : forall m i0 w0 o i1 w1 d,
            pulls m i0 w0 = Ret (o, i1, w1) ->
            total i0 = last (reports (calls w0)) d ->
            total i1 = last (reports (calls w1)) d).
  { clear. induction m as [|m IH]; intros i0 w0 o i1 w1 d Hp H0;
      cbn [base.pulls] in Hp.
    - inversion Hp; subst. exact H0.
    - destruct (Next i0 w0) as [[[b i2] w2]| |] eqn:HN; try discriminate.
      destruct (pulls m i2 w2) as [[[o' i3] w3]| |] eqn:Hp'; try discriminate.
      inversion Hp; subst o i3 w3. apply (IH _ _ _ _ _ _ Hp').
      destruct (Next_total _ _ _ _ _ _ _ _ _ HN) as [[Hc Ht] | (c & Hc & Ht)].
      + now rewrite Hc, Ht.
      + rewrite Hc, Ht. unfold reports. rewrite flat_map_app. cbn [flat_map].
        rewrite app_nil_r. fold (reports (calls w0)).
        destruct (reported c) as [t|].
        * now rewrite last_last.
        * now rewrite app_nil_r. }
  destruct (NewIterator_pristine _ zero opts) as (Ht & _).
  unfold Iterator_Total. apply (Hgen _ _ _ _ _ _ _ Hp). rewrite Ht. reflexivity.
Qed.

Lemma snoc_split {A : Type} (pre post cs : list A) (c0 c : A) :
  pre ++ c0 :: post = cs ++ [c] ->
  (post = [] /\ pre = cs /\ c0 = c) \/
  (exists post', post = post' ++ [c] /\ cs = pre ++ c0 :: post').
Proof.
  intros H. destruct post as [|p post] using rev_ind.
  - left. apply app_inj_tail in H. tauto.
  - right. clear IHpost. exists post.
    change (pre ++ c0 :: post ++ [p]) with (pre ++ (c0 :: post) ++ [p]) in H.
    rewrite app_assoc in H. apply app_inj_tail in H.
    destruct H as [H1 H2]. subst. auto.
Qed.

Lemma Next_asked_in_turn (o l : Z) (it it' : Iterator T) (w w' : World FS)
    (b : bool) :
  asked_in_turn transformer o l it w ->
  Next it w = Ret (b, it', w') ->
  asked_in_turn transformer o l it' w'.
Proof.
  intros (Hl & Hc & Ho) HN.
  unfold base.Next, fetchNextPage, call_fetcher, bind in HN.
  destruct (done it) eqn:Hd.
  { inversion HN; subst.
    split; [reflexivity | split; [exact Hc | intros; congruence]]. }
  destruct (err it) eqn:He.
  { inversion HN; subst.
    split; [reflexivity | split; [exact Hc | intros; congruence]]. }
  specialize (Ho eq_refl eq_refl).
  cbn [orb negb isNil] in HN.
  assert (Hsnoc : forall c,
            call_limit c = l -> call_offset c = offset it ->
            forall pre c0 post,
              calls w ++ [c] = pre ++ c0 :: post ->
              call_limit c0 = l /\ call_offset c0 = end_offset transformer o pre).
  { intros c H1 H2 pre c0 post Heq. symmetry in Heq.
    destruct (snoc_split _ _ _ _ _ Heq) as [(_ & -> & ->) | (post' & _ & Hcs)].
    - rewrite H1, H2, Ho. auto.
    - exact (Hc _ _ _ Hcs). }
  split_code HN; try discriminate; inversion HN; subst b it' w';
    unfold asked_in_turn;
    cbn [limit calls done err offset set_done set_err set_total advance load_page];
    (split; [exact Hl|]);
    (split; [first [exact Hc | apply Hsnoc; cbn; auto]|]);
    intros; try discriminate; auto.
  all: unfold end_offset; rewrite fold_left_app; cbn [fold_left];
    fold (end_offset transformer o (calls w)); rewrite <- Ho;
    unfold decoded; cbn [call_result];
    match goal with H : transformer _ = _ |- _ => rewrite H end; reflexivity.
Qed.

(** X13 (what is asked of the fetcher).  Every invocation of the fetcher
    asks for the page size the iterator was built with, and for the
    offset it was built with moved by the numbers of items the earlier
    invocations delivered: the first page is asked at the starting
    offset, and each later one where the page before it ended. *)
Theorem requests_advance (zero : T) (opts : list IteratorOption) (s : FS)
    (n : nat) (outs : list (option T)) (it : Iterator T) (w : World FS)
    (pre post : list FetchCall) (c : FetchCall) :
  pulls n (NewIterator zero opts) (fresh s) = Ret (outs, it, w) ->
  calls w = pre ++ c :: post ->
  call_limit c = limit (NewIterator zero opts) /\
  call_offset c = end_offset transformer (offset (NewIterator zero opts)) pre.
Proof.
  intros Hp Hc.
  assert (H0 : asked_in_turn transformer (offset (NewIterator zero opts))
                 (limit (NewIterator zero opts)) (NewIterator zero opts) (fresh s)).
  { split; [reflexivity | split; [|reflexivity]].
    intros pre' c' post' H. now destruct pre'. }
  revert Hp H0.
  generalize (offset (NewIterator zero opts)) (limit (NewIterator zero opts)).
  intros o l. generalize (NewIterator zero opts) (fresh s).
  revert outs. induction n as [|n IH]; intros outs i0 w0 Hp H0; cbn [base.pulls] in Hp.
  - inversion Hp; subst. destruct H0 as (_ & H & _). exact (H _ _ _ Hc).
  - destruct (Next i0 w0) as [[[b it1] w1]| |] eqn:HN; try discriminate.
    destruct (pulls n it1 w1) as [[[outs' it2] w2]| |] eqn:Hp'; try discriminate.
    inversion Hp; subst outs it2 w2.
    exact (IH _ _ _ Hp' (Next_asked_in_turn _ _ _ _ _ _ _ H0 HN)).
Qed.

Lemma collect_upto_bounds (k : nat) :
  forall (acc results : list T) (it it' : Iterator T) (w w' : World FS),
  collect_upto fetcher transformer k acc it w = Ret (results, it', w') ->
  (List.length results <= List.length acc + k)%nat /\
  (List.length (calls w') <= List.length (calls w) + k)%nat.
Proof.
  induction k as [|k IH]; intros acc results it it' w w' Hc;
    cbn [base.collect_upto] in Hc.
  - inversion Hc; subst. lia.
  - destruct (Next it w) as [[[b it1] w1]| |] eqn:HN; try discriminate.
    assert (Hcalls : (List.length (calls w1) <= S (List.length (calls w)))%nat).
    { destruct (Next_total _ _ _ _ _ _ _ _ _ HN) as [[H _] | (c & H & _)];
        rewrite H; [lia|]. rewrite length_app. cbn. lia. }
    destruct b.
    + apply IH in Hc. rewrite length_app in Hc. cbn [length] in Hc. lia.
    + inversion Hc; subst. lia.
Qed.

(** X10.  [Take(n)] calls [Next] at most [n] times: it returns at most
    [n] items (none for [n <= 0]) and invokes the fetcher at most [n]
    times more. *)
Theorem Take_at_most (n : Z) (it it' : Iterator T) (w w' : World FS)
    (res : list T) (e : option error) :
  Take fetcher transformer n it w = Ret ((res, e), it', w') ->
  len res <= Z.max n 0 /\
  len (calls w') <= len (calls w) + Z.max n 0.
Proof.
  unfold Take, finish. intros H.
  destruct (collect_upto fetcher transformer (Z.to_nat n) [] it w)
    as [[[results i1] w1]| |] eqn:Hc; try discriminate.
  destruct (collect_upto_bounds _ _ _ _ _ _ _ Hc) as [H1 H2].
  cbn [length] in H1. unfold len.
  destruct (err i1); inversion H; subst; cbn [length]; lia.
Qed.

(** A call of [Next] keeps the page size, and either leaves the fetcher
    and the offset alone or invokes the fetcher once, at the iterator's
    offset and page size. *)
Lemma Next_requests (it it' : Iterator T) (w w' : World FS) (b : bool) :
  Next it w = Ret (b, it', w') ->
  limit it' = limit it /\
  ((fstate w' = fstate w /\ offset it' = offset it) \/
   (exists r, fetcher (offset it) (limit it) (fstate w) = Ret (r, fstate w'))).
Proof.
  intros HN.
  unfold base.Next, fetchNextPage, call_fetcher, bind in HN.
  split_code HN; try discriminate; inversion HN; subst b it' w';
    cbn [fstate limit offset set_done set_err set_total advance load_page];
    (split; [reflexivity|]);
    first [left; split; reflexivity | right; eexists; reflexivity].
Qed.

(** A call of [Next] leaves the fetcher and its log alone, or invokes
    the fetcher once, at the iterator's offset and page size, and logs
    that. *)
Lemma Next_calls (it it' : Iterator T) (w w' : World FS) (b : bool) :
  Next it w = Ret (b, it', w') ->
  (fstate w' = fstate w /\ calls w' = calls w) \/
  (exists r,
     fetcher (offset it) (limit it) (fstate w) = Ret (r, fstate w') /\
     calls w' = calls w ++ [{| call_offset := offset it; call_limit := limit it;
                               call_result := r |}]).
Proof.
  intros HN.
  unfold base.Next, fetchNextPage, call_fetcher, bind in HN.
  split_code HN; try discriminate; inversion HN; subst b it' w';
    cbn [fstate calls];
    first [left; split; reflexivity
          | right; eexists; split; reflexivity].
Qed.

Section Visitors.

Variable VS : Type.
Variable fn : T -> VS -> option error * VS.

Abbreviation ForEach := (ForEach fetcher transformer fn).
Abbreviation collect := (collect fetcher transformer).

Lemma ForEach_collect (fuel : nat) :
  forall (acc results : list T) (it it' : Iterator T) (w w' : World FS)
         (vs vs' : VS),
  collect fuel acc it w = Ret (results, it', w') ->
  (forall ys, results = acc ++ ys -> visits fn ys vs = (None, vs')) ->
  ForEach fuel it w vs = Ret (err it', it', w', vs').
Proof.
  induction fuel as [|fuel IH]; intros acc results it it' w w' vs vs' Hc Hv;
    cbn [base.collect] in Hc; [discriminate|].
  cbn [base.ForEach].
  destruct (Next it w) as [[[[|] it1] w1]| |] eqn:HN; try discriminate.
  - destruct (collect_pulls _ _ _ _ _ _ _ _ _ _ _ Hc) as (ys & Hr & _).
    rewrite <- app_assoc in Hr. cbn [app] in Hr.
    pose proof (Hv _ Hr) as Hx. cbn [visits] in Hx.
    destruct (fn (Item it1) vs) as [[e|] vs1]; [discriminate|].
    apply (IH _ _ _ _ _ _ _ _ Hc).
    intros zs Hz. rewrite Hr, <- app_assoc in Hz. cbn [app] in Hz.
    apply app_inv_head in Hz. inversion Hz; subst zs. exact Hx.
  - inversion Hc; subst results it1 w1.
    specialize (Hv [] (eq_sym (app_nil_r acc))). cbn in Hv.
    inversion Hv; subst vs'. reflexivity.
Qed.

(** X8.  [ForEach] with a visitor that accepts every item it is shown
    visits exactly the items the loop of [All] collects, in order, each
    once, and returns what [Err()] then returns (nil after a clean end,
    the error of the fetch or of the decoding that ended the
    iteration). *)
Theorem ForEach_visits_all (fuel : nat) (results : list T)
    (it it' : Iterator T) (w w' : World FS) (vs vs' : VS) :
  collect fuel [] it w = Ret (results, it', w') ->
  visits fn results vs = (None, vs') ->
  ForEach fuel it w vs = Ret (Err it', it', w', vs').
Proof.
  intros Hc Hv. apply (ForEach_collect fuel [] results _ _ _ _ _ _ Hc).
  intros ys Hy. cbn [app] in Hy. now subst ys.
Qed.

(** X9.  [ForEach] stops at the first item its visitor fails on: if the
    calls of [Next] hand out the items [xs] and then [x], and the
    visitor accepts [xs] and fails on [x], then [ForEach] returns the
    error of the visitor, having called [Next] just often enough to
    reach [x]: the iterator and the fetcher are left as that call left
    them, so the error is not recorded in the iterator, and no item
    after [x] is fetched on the visitor's behalf. *)
Theorem ForEach_stops_at_failure (xs : list T) :
  forall (x : T) (fuel : nat) (it it' : Iterator T) (w w' : World FS)
         (vs vs1 vs' : VS) (e : error),
  pulls (S (List.length xs)) it w = Ret (map Some (xs ++ [x]), it', w') ->
  visits fn xs vs = (None, vs1) ->
  fn x vs1 = (Some e, vs') ->
  (List.length xs < fuel)%nat ->
  ForEach fuel it w vs = Ret (Some e, it', w', vs').
Proof.
  induction xs as [|y xs IH]; intros x fuel it it' w w' vs vs1 vs' e Hp Hv Hx Hf;
    (destruct fuel as [|fuel]; [cbn in Hf; lia|]);
    cbn [length] in Hp;
    change (base.pulls fetcher transformer (S ?k) it w)
      with (bind (Next it w) (fun '(b, i, u) =>
              match pulls k i u with
              | Ret (outs, it'', w'') =>
                  Ret ((if b then Some (Item i) else None) :: outs, it'', w'')
              | Panic => Panic
              | OutOfFuel => OutOfFuel
              end)) in Hp;
    destruct (Next it w) as [[[b it1] w1]| |] eqn:HN; cbn [bind] in Hp;
    try discriminate; cbn [base.ForEach]; rewrite HN.
  - cbn [base.pulls] in Hp. cbn [app map] in Hp.
    inversion Hp as [[Hb H1 H2]]. destruct b; [|discriminate].
    inversion Hb; subst it1 w1. cbn in Hv. inversion Hv; subst vs1.
    rewrite H0, Hx. reflexivity.
  - destruct (pulls (S (List.length xs)) it1 w1) as [[[outs it2] w2]| |] eqn:Hp';
      try discriminate.
    cbn [app map] in Hp. inversion Hp as [[Hb Ho H1 H2]].
    destruct b; [|discriminate]. inversion Hb as [Hy]. subst it2 w2 outs.
    cbn [visits] in Hv. rewrite Hy in *.
    destruct (fn y vs) as [[e0|] vs0]; [discriminate|].
    apply (IH x fuel it1 it' w1 w' vs0 vs1 vs' e Hp' Hv Hx).
    cbn [length] in Hf. lia.
Qed.

End Visitors.

End Runs.

(** *** The iterator on the test doubles *)

(** A source without items: the first [Next] is false, and final. *)
Lemma Next_false_is_final_witness :
  exists it' w',
    base.Next scenario.scripted scenario.chars (NewIterator " "%char []) (fresh [])
    = Ret (false, it', w') /\
    (done it' = true \/ err it' <> None) /\
    forall k, base.pulls scenario.scripted scenario.chars k it' w'
              = Ret (repeat None k, it', w').
Proof.
  eexists _, _. split; [vm_compute; reflexivity|].
  refine (Next_false_is_final _ _ scenario.scripted scenario.chars
            (NewIterator " "%char []) _ (fresh []) _ _).
  vm_compute. reflexivity.
Defined.

(** Two pages of two items, then an error: four items in page order. *)
Lemma items_in_page_order_witness :
  base.slices_fit scenario.chars /\
  exists outs it w,
    base.pulls scenario.scripted scenario.chars 6 (NewIterator " "%char [])
      (fresh scenario.two_pages_then_error) = Ret (outs, it, w) /\
    yielded outs ++ skipn (Z.to_nat (pageIndex it)) (page it)
      = concat (map (decoded scenario.chars) (calls w)) /\
    outs = map Some (yielded outs)
             ++ repeat None (List.length outs - List.length (yielded outs)).
Proof.
  split; [exact chars_fit|].
  eexists _, _, _. split; [vm_compute; reflexivity|].
  refine (items_in_page_order _ _ scenario.scripted scenario.chars " "%char []
            scenario.two_pages_then_error 6 _ _ _ chars_fit _).
  vm_compute. reflexivity.
Defined.

(** Five items in pages of one under a cap of two pages: two fetches. *)
Lemma page_cap_witness :
  0 < 2 <= MaxInt /\
  maxPages (NewIterator " "%char [WithLimit 1; WithMaxPages 2]) = 2 /\
  exists outs it w,
    base.pulls (scenario.collection "abcde") scenario.chars 9
      (NewIterator " "%char [WithLimit 1; WithMaxPages 2]) (fresh tt)
    = Ret (outs, it, w) /\
    len (calls w) <= 2.
Proof.
  assert (Hk : 0 < 2 <= MaxInt) by (unfold MaxInt; lia).
  split; [exact Hk|]. split; [reflexivity|].
  eexists _, _, _. split; [vm_compute; reflexivity|].
  refine (page_cap _ _ (scenario.collection "abcde") scenario.chars " "%char
            [WithLimit 1; WithMaxPages 2] 2 tt 9 _ _ _ Hk eq_refl _).
  vm_compute. reflexivity.
Defined.

(** The script that is used up returns an empty page at once. *)
Lemma empty_first_page_witness :
  let it0 := NewIterator " "%char [] in
  scenario.scripted (offset it0) (limit it0) []
  = Ret ((""%string, None, None), []) /\
  scenario.chars ""%string = ([], None) /\
  exists it w,
    base.pulls scenario.scripted scenario.chars 3 it0 (fresh [])
    = Ret (repeat None 3, it, w) /\
    Err it = None /\ Count it = 0 /\ List.length (calls w) = 1%nat.
Proof.
  intros it0. split; [reflexivity|]. split; [reflexivity|].
  exact (empty_first_page _ _ scenario.scripted scenario.chars " "%char []
           [] [] ""%string None 2 eq_refl eq_refl).
Defined.

Lemma Count_counts_items_witness :
  Z.of_nat 6 <= MaxInt /\
  exists outs it w,
    base.pulls scenario.scripted scenario.chars 6 (NewIterator " "%char [])
      (fresh scenario.two_pages_then_error) = Ret (outs, it, w) /\
    Count it = len (yielded outs).
Proof.
  assert (Hn : Z.of_nat 6 <= MaxInt) by (unfold MaxInt; lia).
  split; [exact Hn|].
  eexists _, _, _. split; [vm_compute; reflexivity|].
  refine (Count_counts_items _ _ scenario.scripted scenario.chars " "%char []
            scenario.two_pages_then_error 6 _ _ _ Hn _).
  vm_compute. reflexivity.
Defined.

Lemma Item_is_last_yielded_witness :
  exists outs it w,
    base.pulls scenario.scripted scenario.chars 3 (NewIterator " "%char [])
      (fresh scenario.two_pages_then_error) = Ret (outs, it, w) /\
    Item it = last (yielded outs) " "%char.
Proof.
  eexists _, _, _. split; [vm_compute; reflexivity|].
  refine (Item_is_last_yielded _ _ scenario.scripted scenario.chars " "%char []
            scenario.two_pages_then_error 3 _ _ _ _).
  vm_compute. reflexivity.
Defined.

(** The second page reports a smaller total than the first. *)
Lemma Total_is_last_report_witness :
  exists outs it w,
    base.pulls scenario.scripted scenario.chars 4 (NewIterator " "%char [])
      (fresh scenario.shrinking_total) = Ret (outs, it, w) /\
    Iterator_Total it = last (reports (calls w)) (-1).
Proof.
  eexists _, _, _. split; [vm_compute; reflexivity|].
  refine (Total_is_last_report _ _ scenario.scripted scenario.chars " "%char []
            scenario.shrinking_total 4 _ _ _ _).
  vm_compute. reflexivity.
Defined.

Lemma Take_at_most_witness :
  exists res e it' w',
    base.Take (scenario.collection "abcde") scenario.chars 3
      (NewIterator " "%char [WithLimit 2]) (fresh tt)
    = Ret ((res, e), it', w') /\
    len res <= Z.max 3 0 /\
    len (calls w') <= len (calls (fresh tt)) + Z.max 3 0.
Proof.
  eexists _, _, _, _. split; [vm_compute; reflexivity|].
  refine (Take_at_most _ _ (scenario.collection "abcde") scenario.chars 3
            (NewIterator " "%char [WithLimit 2]) _ (fresh tt) _ _ _ _).
  vm_compute. reflexivity.
Defined.

(** The visitor that gathers is given every item, in order. *)
Lemma ForEach_visits_all_witness :
  exists results it' w' seen,
    base.collect (scenario.collection "abc") scenario.chars 9 []
      (NewIterator " "%char [WithLimit 2]) (fresh tt)
    = Ret (results, it', w') /\
    visits scenario.gather results [] = (None, seen) /\
    base.ForEach (scenario.collection "abc") scenario.chars scenario.gather 9
      (NewIterator " "%char [WithLimit 2]) (fresh tt) []
    = Ret (Err it', it', w', seen).
Proof.
  eexists _, _, _, _. split; [vm_compute; reflexivity|].
  split; [vm_compute; reflexivity|].
  refine (ForEach_visits_all _ _ (scenario.collection "abc") scenario.chars _
            scenario.gather 9 ["a"; "b"; "c"]%char
            (NewIterator " "%char [WithLimit 2]) _ (fresh tt) _ [] _ _ _).
  - vm_compute. reflexivity.
  - vm_compute. reflexivity.
Defined.

(** The visitor that refuses [b] stops the walk there; [c] is never
    fetched. *)
Lemma ForEach_stops_at_failure_witness :
  exists it' w',
    base.pulls (scenario.collection "abc") scenario.chars
      (S (List.length ["a"%char])) (NewIterator " "%char [WithLimit 2]) (fresh tt)
    = Ret (map Some (["a"%char] ++ ["b"%char]), it', w') /\
    visits (scenario.refuse "b") ["a"%char] [] = (None, ["a"%char]) /\
    scenario.refuse "b" "b"%char ["a"%char]
    = (Some (LibError "refused"), ["a"%char]) /\
    (List.length ["a"%char] < 5)%nat /\
    base.ForEach (scenario.collection "abc") scenario.chars (scenario.refuse "b") 5
      (NewIterator " "%char [WithLimit 2]) (fresh tt) []
    = Ret (Some (LibError "refused"), it', w', ["a"%char]).
Proof.
  assert (Hf : (List.length ["a"%char] < 5)%nat) by (cbn; lia).
  eexists _, _. split; [vm_compute; reflexivity|].
  split; [reflexivity|]. split; [reflexivity|]. split; [exact Hf|].
  refine (ForEach_stops_at_failure _ _ (scenario.collection "abc") scenario.chars _
            (scenario.refuse "b") ["a"%char] "b"%char 5
            (NewIterator " "%char [WithLimit 2]) _ (fresh tt) _
            [] ["a"%char] ["a"%char] (LibError "refused") _ eq_refl eq_refl Hf).
  vm_compute. reflexivity.
Defined.

(** Five items in pages of two: the second page is asked at offset 2. *)
Lemma requests_advance_witness :
  let c1 := {| call_offset := 0; call_limit := 2;
               call_result := ("ab"%string,
                               Some {| Total := 5; Limit := 2; Offset := 0 |},
                               None) |} in
  let c2 := {| call_offset := 2; call_limit := 2;
               call_result := ("cd"%string,
                               Some {| Total := 5; Limit := 2; Offset := 2 |},
                               None) |} in
  exists outs it w,
    base.pulls (scenario.collection "abcde") scenario.chars 4
      (NewIterator " "%char [WithLimit 2]) (fresh tt) = Ret (outs, it, w) /\
    calls w = [c1] ++ c2 :: [] /\
    call_limit c2 = limit (NewIterator " "%char [WithLimit 2]) /\
    call_offset c2
    = end_offset scenario.chars (offset (NewIterator " "%char [WithLimit 2])) [c1].
Proof.
  intros c1 c2.
  eexists _, _, _. split; [vm_compute; reflexivity|].
  split; [reflexivity|].
  refine (requests_advance _ _ (scenario.collection "abcde") scenario.chars " "%char
            [WithLimit 2] tt 4 _ _ _ [c1] [] c2 _ _).
  - vm_compute. reflexivity.
  - reflexivity.
Defined.

End IteratorMore.

Module DrainMore.

Import GoInt GoIntFacts base IteratorFacts DrainFacts.

Section Drain.

Variables T FS : Type.
Variable fetcher : PageFetcher FS.
Variable transformer : ItemTransformer T.
Variable src : list T.

Abbreviation Next := (Next fetcher transformer).
Abbreviation collect := (collect fetcher transformer).
Abbreviation collect_upto := (collect_upto fetcher transformer).
Abbreviation All := (All fetcher transformer).
Abbreviation Take := (Take fetcher transformer).
Abbreviation draining := (draining src).
Abbreviation draining_capped := (draining_capped src).

Hypothesis Hserves : serves fetcher transformer src.
Hypothesis Hfits : len src <= MaxInt.

(** The loop of [Take] while draining, asked for no more than is left. *)
Lemma collect_upto_draining (o l : Z) :
  1 <= l ->
  forall (k : nat) (rem acc : list T) (it : Iterator T) (w : World FS),
  draining o l it rem ->
  (k <= List.length rem)%nat ->
  exists it' w',
    collect_upto k acc it w = Ret (acc ++ firstn k rem, it', w') /\
    draining o l it' (skipn k rem).
Proof.
  intros Hl. induction k as [|k IH]; intros rem acc it w Hdr Hk.
  - exists it, w. cbn. rewrite app_nil_r. auto.
  - destruct rem as [|x rem]; [cbn in Hk; lia|].
    pose proof (drain_step _ _ _ _ _ Hserves Hfits o l it w _ Hl Hdr) as Hstep.
    cbn iota in Hstep. destruct Hstep as (it1 & w1 & HN & Hcur & Hdr').
    cbn [base.collect_upto]. rewrite HN. unfold Item. rewrite Hcur.
    destruct (IH rem (acc ++ [x]) it1 w1 Hdr') as (it' & w' & Hc & Hd).
    { cbn [length] in Hk. lia. }
    exists it', w'. rewrite Hc, <- app_assoc. cbn [firstn skipn app]. auto.
Qed.

(** X11.  Over a fetcher backed by a collection, [Take(n)] followed by
    [All()] splits what is left of the collection: on an iterator
    started at offset [o] with a page size of at least 1, [Take(n)]
    returns the [n] items from position [o] and no error, and [All()] on
    the same iterator then returns the items from position [o + n] on,
    none of them lost or repeated at the seam. *)
Theorem Take_then_All (zero : T) (o limit n : Z) (s : FS) (fuel : nat) :
  0 <= o <= len src ->
  1 <= limit ->
  0 <= n <= len src - o ->
  (List.length src < fuel)%nat ->
  exists it1 w1 it2 w2,
    Take n (NewIterator zero [WithLimit limit; WithOffset o]) (fresh s)
      = Ret ((firstn (Z.to_nat n) (skipn (Z.to_nat o) src), None), it1, w1) /\
    All fuel it1 w1
      = Ret ((skipn (Z.to_nat (o + n)) src, None), it2, w2).
Proof.
  intros Ho Hl Hn Hfuel.
  pose proof (NewIterator_draining _ src zero o limit Ho) as H0.
  destruct (collect_upto_draining o limit Hl (Z.to_nat n) _ [] _ (fresh s) H0)
    as (it1 & w1 & Hc & Hd).
  { rewrite length_skipn. unfold len in *. clear - Ho Hn. lia. }
  destruct (collect_draining _ _ _ _ _ Hserves Hfits o limit _ Hl fuel [] it1 w1 Hd)
    as (it2 & w2 & Hc2 & He2).
  { rewrite !length_skipn. lia. }
  exists it1, w1, it2, w2. split.
  - unfold base.Take. rewrite Hc. cbn [finish app].
    destruct Hd as (_ & _ & _ & He & _). now rewrite He.
  - unfold base.All. rewrite Hc2. cbn [finish app]. rewrite He2.
    rewrite skipn_skipn.
    replace (Z.to_nat (o + n)) with (Z.to_nat n + Z.to_nat o)%nat by lia.
    reflexivity.
Qed.

Lemma firstn_add {A : Type} (a b : nat) (xs : list A) :
  firstn (a + b) xs = firstn a xs ++ firstn b (skipn a xs).
Proof.
  revert xs. induction a as [|a IH]; intros xs; [reflexivity|].
  destruct xs as [|x xs]; cbn [Nat.add firstn skipn app].
  - now rewrite firstn_nil.
  - now rewrite IH.
Qed.

(** One call of [Next] while draining under a page cap. *)
Lemma capped_step (o l k : Z) (it : Iterator T) (w : World FS) (rem : list T) :
  1 <= l ->
  0 < k <= MaxInt ->
  draining_capped o l k it rem ->
  match rem with
  | [] => exists it' w', Next it w = Ret (false, it', w') /\ err it' = None
  | x :: rem' =>
      exists it' w',
        Next it w = Ret (true, it', w') /\ current it' = x /\
        draining_capped o l k it' rem'
  end.
Proof.
  intros Hl Hk (Hlim & Hmp & Hd & He & Ho & pre & post & Hsrc & Hoff & Hidx & Hpl
                & Hrem & Hop & Hcnt & Htot).
  assert (Hlen : len src = len pre + len (page it) + len post).
  { rewrite Hsrc, !len_app. lia. }
  pose proof (len_nonneg pre) as Hp0. pose proof (len_nonneg post) as Hq0.
  unfold base.Next. rewrite Hd, He. cbn [orb negb isNil].
  destruct ((0 <=? total it) && (total it <=? count it)) eqn:E1.
  { apply andb_true_iff in E1. destruct E1 as [E1 E2].
    apply Z.leb_le in E1, E2.
    destruct Htot as [Htot | (Htot & _)]; [|lia].
    assert (len post = 0) by lia. assert (pageIndex it = len (page it)) by lia.
    rewrite (len_zero _ H), skipn_past, firstn_nil in Hrem by lia. subst rem.
    eexists _, _. split; [reflexivity | exact He]. }
  destruct (len (page it) <=? pageIndex it) eqn:E2.
  - apply Z.leb_le in E2.
    rewrite skipn_past in Hrem by lia. cbn [app] in Hrem.
    unfold fetchNextPage. rewrite Hmp.
    destruct ((0 <? k) && (k <=? pagesLoaded it)) eqn:E0.
    { apply andb_true_iff in E0. destruct E0 as [_ E0]. apply Z.leb_le in E0.
      replace (pagesLoaded it) with k in Hrem by lia.
      rewrite Z.sub_diag in Hrem. cbn in Hrem. subst rem.
      eexists _, _. split; [reflexivity | exact He]. }
    assert (Hj : pagesLoaded it < k).
    { apply andb_false_iff in E0.
      destruct E0 as [E0 | E0]; [apply Z.ltb_ge in E0; lia | apply Z.leb_gt in E0; lia]. }
    destruct ((0 <=? total it) && (total it <=? offset it)) eqn:E3.
    { apply andb_true_iff in E3. destruct E3 as [E3 E4].
      apply Z.leb_le in E3, E4.
      destruct Htot as [Htot | (Htot & _)]; [|lia].
      assert (Hz : len post = 0) by lia.
      rewrite (len_zero _ Hz), firstn_nil in Hrem. subst rem.
      eexists _, _. split; [reflexivity | exact He]. }
    destruct (Hserves (offset it) l (fstate w)) as (data & p & s' & Hf & Hp & Htr);
      [lia|].
    unfold call_fetcher. rewrite Hlim, Hf. cbn [bind]. rewrite Htr.
    assert (Hwin : window src (offset it) l = firstn (Z.to_nat l) post).
    { unfold window. rewrite Hsrc, app_assoc, Hoff, <- len_app, skipn_len_app.
      reflexivity. }
    rewrite Hwin.
    replace ((k - pagesLoaded it) * l) with (l + (k - pagesLoaded it - 1) * l)
      in Hrem by ring.
    rewrite Z2Nat.inj_add, firstn_add in Hrem by nia.
    destruct post as [|x post'].
    + rewrite firstn_nil in *. cbn [len length Z.of_nat Z.eqb].
      rewrite skipn_nil, firstn_nil in Hrem. cbn in Hrem. subst rem.
      eexists _, _. split; [reflexivity | exact He].
    + destruct (Z.to_nat l) as [|m] eqn:Em; [lia|].
      cbn [firstn] in *. set (items := x :: firstn m post') in *.
      assert (Hitems : x :: post' = items ++ skipn m post').
      { unfold items. cbn [app]. now rewrite firstn_skipn. }
      assert (Hil : len items <= len (x :: post')).
      { rewrite Hitems, len_app. pose proof (len_nonneg (skipn m post')). lia. }
      assert (Hi1 : 1 <= len items) by (unfold items; rewrite len_cons;
                                          pose proof (len_nonneg (firstn m post')); lia).
      replace (len items =? 0) with false by (symmetry; apply Z.eqb_neq; lia).
      cbn [page pageIndex load_page]. unfold items at 1.
      cbn [index Z.ltb Z.compare Z.to_nat nth_error].
      unfold items in Hrem. cbn [app skipn] in Hrem. subst rem.
      eexists _, _. split; [reflexivity|]. split; [reflexivity|].
      unfold base.draining_capped.
      cbn [limit maxPages done err page offset pageIndex count total pagesLoaded
           advance load_page set_total].
      change (add 0 1) with 1.
      rewrite (add_small (offset it)), (add_small (count it)),
        (add_small (pagesLoaded it))
        by (unfold MinInt, MaxInt in *; lia).
      repeat split; auto; try lia.
      exists (pre ++ page it), (skipn m post').
      rewrite len_app.
      repeat split; try lia.
      * rewrite Hsrc, <- app_assoc, Hitems. reflexivity.
      * change (Z.to_nat 1) with 1%nat. unfold items. cbn [skipn app].
        replace (k - (pagesLoaded it + 1)) with (k - pagesLoaded it - 1) by lia.
        reflexivity.
  - apply Z.leb_gt in E2.
    destruct (index_in_range (page it) (pageIndex it)) as (x & Hx & Hnth); [lia|].
    rewrite Hx. rewrite (skipn_step _ _ _ Hnth) in Hrem. cbn [app] in Hrem.
    subst rem.
    eexists _, _. split; [reflexivity|]. split; [reflexivity|].
    assert (Htot' : total it = len src).
    { destruct Htot as [Htot | (_ & Hnil & _)]; [exact Htot|].
      rewrite Hnil in E2. cbn in E2. lia. }
    unfold base.draining_capped.
    cbn [limit maxPages done err page offset pageIndex count total pagesLoaded
         advance].
    rewrite (add_small (pageIndex it)), (add_small (count it))
      by (unfold MinInt, MaxInt in *; lia).
    repeat split; auto.
    exists pre, post.
    repeat split; auto; try lia.
    replace (Z.to_nat (pageIndex it + 1)) with (S (Z.to_nat (pageIndex it))) by lia.
    reflexivity.
Qed.

Lemma collect_capped (o l k : Z) (rem : list T) :
  1 <= l ->
  0 < k <= MaxInt ->
  forall (fuel : nat) (acc : list T) (it : Iterator T) (w : World FS),
  draining_capped o l k it rem ->
  (List.length rem < fuel)%nat ->
  exists it' w',
    collect fuel acc it w = Ret (acc ++ rem, it', w') /\ err it' = None.
Proof.
  intros Hl Hk. induction rem as [|x rem IH]; intros fuel acc it w Hdr Hfuel;
    (destruct fuel as [|fuel]; [cbn in Hfuel; lia|]);
    pose proof (capped_step o l k it w _ Hl Hk Hdr) as Hstep; cbn iota in Hstep.
  - destruct Hstep as (it' & w' & HN & He).
    exists it', w'. cbn [base.collect]. rewrite HN, app_nil_r. auto.
  - destruct Hstep as (it' & w' & HN & Hcur & Hdr').
    cbn [base.collect]. rewrite HN. unfold Item. rewrite Hcur.
    destruct (IH fuel (acc ++ [x]) it' w' Hdr') as (it'' & w'' & Hc & He).
    { cbn [length] in Hfuel. lia. }
    exists it'', w''. rewrite Hc, <- app_assoc. auto.
Qed.

(** X12 (page cap over a collection).  Over a fetcher backed by a
    collection, an iterator started at offset [o] with a page size
    [limit >= 1] and a page cap [k > 0] is drained by [All] to exactly
    the first [k * limit] items from position [o] (all of them when
    there are fewer), in order, and ends without error although more
    items may exist. *)
Theorem page_cap_drain (zero : T) (o limit k : Z) (s : FS) (fuel : nat) :
  0 <= o <= len src ->
  1 <= limit ->
  0 < k <= MaxInt ->
  (List.length src < fuel)%nat ->
  exists it' w',
    All fuel (NewIterator zero [WithLimit limit; WithOffset o; WithMaxPages k])
      (fresh s)
      = Ret ((firstn (Z.to_nat (k * limit)) (skipn (Z.to_nat o) src), None),
             it', w') /\
    Err it' = None.
Proof.
  intros Ho Hl Hk Hfuel.
  assert (H0 : draining_capped o limit k
                 (NewIterator zero [WithLimit limit; WithOffset o; WithMaxPages k])
                 (firstn (Z.to_nat (k * limit)) (skipn (Z.to_nat o) src))).
  { unfold base.draining_capped. cbn.
    repeat split; try lia.
    exists (firstn (Z.to_nat o) src), (skipn (Z.to_nat o) src).
    assert (Hlen : len (firstn (Z.to_nat o) src) = o).
    { unfold len in *. rewrite length_firstn. lia. }
    rewrite Hlen, firstn_skipn, Z.sub_0_r.
    repeat split; try lia. right. auto. }
  destruct (collect_capped o limit k _ Hl Hk fuel [] _ (fresh s) H0)
    as (it' & w' & Hc & He).
  { rewrite length_firstn, length_skipn. lia. }
  exists it', w'. unfold base.All. rewrite Hc. cbn [finish app].
  rewrite He. auto.
Qed.

End Drain.

(** Five items in pages of two, from the second on: [Take] of two, then
    [All] for the rest. *)
Lemma Take_then_All_witness :
  let src := ["a"; "b"; "c"; "d"; "e"]%char in
  serves (scenario.collection "abcde") scenario.chars src /\
  len src <= MaxInt /\
  0 <= 1 <= len src /\
  1 <= 2 /\
  0 <= 2 <= len src - 1 /\
  (List.length src < 9)%nat /\
  exists it1 w1 it2 w2,
    base.Take (scenario.collection "abcde") scenario.chars 2
      (NewIterator " "%char [WithLimit 2; WithOffset 1]) (fresh tt)
    = Ret ((firstn (Z.to_nat 2) (skipn (Z.to_nat 1) src), None), it1, w1) /\
    base.All (scenario.collection "abcde") scenario.chars 9 it1 w1
    = Ret ((skipn (Z.to_nat (1 + 2)) src, None), it2, w2).
Proof.
  intros src.
  assert (Hs : serves (scenario.collection "abcde") scenario.chars src)
    by (apply (collection_serves "abcde"); cbn; lia).
  assert (Hf : len src <= MaxInt) by (vm_compute; discriminate).
  assert (Ho : 0 <= 1 <= len src) by (vm_compute; split; discriminate).
  assert (Hl : 1 <= 2) by lia.
  assert (Hn : 0 <= 2 <= len src - 1) by (vm_compute; split; discriminate).
  assert (Hfuel : (List.length src < 9)%nat) by (cbn; lia).
  repeat (split; [assumption|]).
  exact (Take_then_All _ _ _ _ src Hs Hf " "%char 1 2 2 tt 9%nat Ho Hl Hn Hfuel).
Defined.

(** Five items in pages of two under a cap of two pages: four items. *)
Lemma page_cap_drain_witness :
  let src := ["a"; "b"; "c"; "d"; "e"]%char in
  serves (scenario.collection "abcde") scenario.chars src /\
  len src <= MaxInt /\
  0 <= 0 <= len src /\
  1 <= 2 /\
  0 < 2 <= MaxInt /\
  (List.length src < 9)%nat /\
  exists it' w',
    base.All (scenario.collection "abcde") scenario.chars 9
      (NewIterator " "%char [WithLimit 2; WithOffset 0; WithMaxPages 2]) (fresh tt)
    = Ret ((firstn (Z.to_nat (2 * 2)) (skipn (Z.to_nat 0) src), None), it', w') /\
    Err it' = None.
Proof.
  intros src.
  assert (Hs : serves (scenario.collection "abcde") scenario.chars src)
    by (apply (collection_serves "abcde"); cbn; lia).
  assert (Hf : len src <= MaxInt) by (vm_compute; discriminate).
  assert (Ho : 0 <= 0 <= len src) by (vm_compute; split; discriminate).
  assert (Hl : 1 <= 2) by lia.
  assert (Hk : 0 < 2 <= MaxInt) by (unfold MaxInt; lia).
  assert (Hfuel : (List.length src < 9)%nat) by (cbn; lia).
  repeat (split; [assumption|]).
  exact (page_cap_drain _ _ _ _ src Hs Hf " "%char 0 2 2 tt 9%nat Ho Hl Hk Hfuel).
Defined.

End DrainMore.

(* ================================================================== *)
(** ** More on the exports *)

Module ExportMore.

Import GoInt GoIntFacts base tio.

Section Waiting.

Variable B : Type.
Variable get : string -> B -> ExportStatus * option error * B.
Variable select : Z -> B -> option error * B.

Lemma statusPath_none (exportType exportUUID : string) :
  statusPath exportType exportUUID = None ->
  (exportType =? "assets")%string = false /\
  (exportType =? "vulns")%string = false /\
  (exportType =? "compliance")%string = false.
Proof.
  unfold statusPath.
  destruct (exportType =? "assets")%string; [discriminate|].
  destruct (exportType =? "vulns")%string; [discriminate|].
  destruct (exportType =? "compliance")%string; [discriminate|]. auto.
Qed.

Lemma client_Get_trace (path : string) (n n1 : Net B) (st : ExportStatus)
    (e : option error) :
  client_Get get path n = (st, e, n1) -> trace n1 = trace n ++ [EvGet path].
Proof.
  unfold client_Get. destruct (get path (remote n)) as [[r e0] b].
  intros H. inversion H. reflexivity.
Qed.

Lemma ctx_select_trace (d : Z) (n n1 : Net B) (e : option error) :
  ctx_select select d n = (e, n1) -> trace n1 = trace n ++ [EvSelect d].
Proof.
  unfold ctx_select. destruct (select d (remote n)) as [e0 b].
  intros H. inversion H. reflexivity.
Qed.

(** X14.  Whatever the service and the context do, [WaitForExport] does
    not panic, and when it returns: it returns a status or an error,
    never both and never neither, and a status it returns is FINISHED;
    all it asked of the client meanwhile are polls of the status path of
    its own export and waits of the poll interval (5 seconds for an
    interval of 0), so it submits, cancels and downloads nothing; and
    for an export type it does not know it asks nothing at all and
    returns the [ValidationError] at once. *)
Theorem WaitForExport_sound (fuel : nat) (exportType exportUUID : string)
    (pollInterval : Z) (n : Net B) :
  let d := if pollInterval =? 0 then 5 * Second else pollInterval in
  match WaitForExport get select fuel exportType exportUUID pollInterval n with
  | Ret (st, e, n') =>
      match st, e with
      | Some s, None => Status s = "FINISHED"%string
      | None, Some _ => True
      | _, _ => False
      end /\
      (exists evs,
         trace n' = trace n ++ evs /\
         Forall (fun ev =>
                   ev = EvSelect d \/
                   statusPath exportType exportUUID
                   = match ev with EvGet p => Some p | _ => None end /\
                   isPoll ev = true) evs) /\
      (statusPath exportType exportUUID = None ->
       e = Some (ValidationError "exportType" "invalid export type") /\ n' = n)
  | Panic => False
  | OutOfFuel => fuel = 0%nat \/ statusPath exportType exportUUID <> None
  end.
Proof.
  intros d. unfold WaitForExport. fold d. generalize d. clear d. intros d.
  revert n. induction fuel as [|fuel IH]; intros n; [left; reflexivity|].
  destruct (statusPath exportType exportUUID) as [path|] eqn:Hp.
  - rewrite (ExportFacts.waitLoop_turn B get select fuel _ _ _ d n Hp).
    destruct (client_Get get path n) as [[st e] n1] eqn:Hg.
    pose proof (client_Get_trace _ _ _ _ _ Hg) as Hn1.
    assert (Hone : Forall (fun ev =>
                     ev = EvSelect d \/
                     Some path = match ev with EvGet p => Some p | _ => None end /\
                     isPoll ev = true) [EvGet path])
      by (apply Forall_cons; [right; split; reflexivity | apply Forall_nil]).
    destruct e as [e|].
    { split; [exact I|]. split; [eauto | discriminate]. }
    destruct (Status st =? "FINISHED")%string eqn:E1.
    { split; [now apply String.eqb_eq|]. split; [eauto | discriminate]. }
    destruct (Status st =? "CANCELLED")%string.
    { split; [exact I|]. split; [eauto | discriminate]. }
    destruct (Status st =? "ERROR")%string.
    { split; [exact I|]. split; [eauto | discriminate]. }
    destruct (ctx_select select d n1) as [e2 n2] eqn:Hs.
    pose proof (ctx_select_trace _ _ _ _ Hs) as Hn2.
    assert (Htwo : Forall (fun ev =>
                     ev = EvSelect d \/
                     Some path = match ev with EvGet p => Some p | _ => None end /\
                     isPoll ev = true) [EvGet path; EvSelect d])
      by (apply Forall_cons; [right; split; reflexivity|];
          apply Forall_cons; [left; reflexivity | apply Forall_nil]).
    destruct e2 as [e2|].
    { split; [exact I|]. split; [|discriminate].
      exists [EvGet path; EvSelect d]. rewrite Hn2, Hn1, <- app_assoc. auto. }
    specialize (IH n2).
    destruct (waitLoop get select fuel exportType exportUUID d n2)
      as [[[st' e'] n']| |]; [|exact IH|right; discriminate].
    destruct IH as (H1 & (evs & Ht & Hf) & _).
    split; [exact H1|]. split; [|discriminate].
    exists ([EvGet path; EvSelect d] ++ evs).
    rewrite Ht, Hn2, Hn1, <- !app_assoc. split; [reflexivity|].
    apply Forall_app. auto.
  - destruct (statusPath_none _ _ Hp) as (H1 & H2 & H3).
    cbn [waitLoop]. rewrite H1, H2, H3.
    split; [exact I|]. split; [|auto].
    exists []. rewrite app_nil_r. auto.
Qed.

End Waiting.

Section Requests.

Variable B : Type.
Variable post : string -> Body -> B -> ExportResponse * option error * B.

(** X15 (the size an export is submitted with).  [AssetsExport] and
    [VulnsExport] post one request each, never with a size of 0: a size
    of 0, and a nil request, are sent as 1000 assets per chunk, and 500
    for vulnerabilities, and any other size, negative ones too, as it
    is.  The caller's request is left holding what was sent, so that
    submitting it again sends the same; and a failed submit returns the
    empty identifier. *)
Theorem export_requests_sized (n : Net B) :
  (forall req id e req' n',
     AssetsExport post req n = (id, e, req', n') ->
     exists r,
       trace n' = trace n ++ [EvPost "assets/export" (AssetsBody r)] /\
       ExportAssetsRequest.ChunkSize r <> 0 /\
       r = match req with
           | None => {| ExportAssetsRequest.ChunkSize := 1000;
                        ExportAssetsRequest.Filters := [];
                        ExportAssetsRequest.IncludeUnlicensed := false |}
           | Some r0 =>
               if ExportAssetsRequest.ChunkSize r0 =? 0
               then {| ExportAssetsRequest.ChunkSize := 1000;
                       ExportAssetsRequest.Filters := ExportAssetsRequest.Filters r0;
                       ExportAssetsRequest.IncludeUnlicensed :=
                         ExportAssetsRequest.IncludeUnlicensed r0 |}
               else r0
           end /\
       req' = match req with None => None | Some _ => Some r end /\
       (e <> None -> id = ""%string) /\
       forall n2,
         trace (snd (AssetsExport post req' n2))
         = trace n2 ++ [EvPost "assets/export" (AssetsBody r)]) /\
  (forall req id e req' n',
     VulnsExport post req n = (id, e, req', n') ->
     exists r,
       trace n' = trace n ++ [EvPost "vulns/export" (VulnsBody r)] /\
       ExportVulnsRequest.NumAssets r <> 0 /\
       r = match req with
           | None => {| ExportVulnsRequest.NumAssets := 500;
                        ExportVulnsRequest.Filters := [];
                        ExportVulnsRequest.IncludeUnlicensed := false |}
           | Some r0 =>
               if ExportVulnsRequest.NumAssets r0 =? 0
               then {| ExportVulnsRequest.NumAssets := 500;
                       ExportVulnsRequest.Filters := ExportVulnsRequest.Filters r0;
                       ExportVulnsRequest.IncludeUnlicensed :=
                         ExportVulnsRequest.IncludeUnlicensed r0 |}
               else r0
           end /\
       req' = match req with None => None | Some _ => Some r end /\
       (e <> None -> id = ""%string) /\
       forall n2,
         trace (snd (VulnsExport post req' n2))
         = trace n2 ++ [EvPost "vulns/export" (VulnsBody r)]).
Proof.
  split; intros req id e req' n' H.
  - unfold AssetsExport, client_Post in *.
    destruct req as [r0|]; cbn [ExportAssetsRequest.empty] in *.
    + destruct (ExportAssetsRequest.ChunkSize r0 =? 0) eqn:E.
      * destruct (post _ _ (remote n)) as [[res e0] b'].
        eexists. split; [destruct e0; inversion H; reflexivity|].
        split; [cbn; discriminate|]. split; [reflexivity|].
        split; [destruct e0; inversion H; reflexivity|].
        split; [destruct e0; inversion H; subst; [reflexivity | intros X; now elim X]|].
        intros n2. replace req' with (Some {|
            ExportAssetsRequest.ChunkSize := 1000;
            ExportAssetsRequest.Filters := ExportAssetsRequest.Filters r0;
            ExportAssetsRequest.IncludeUnlicensed :=
              ExportAssetsRequest.IncludeUnlicensed r0 |})
          by (destruct e0; inversion H; reflexivity).
        cbn [ExportAssetsRequest.ChunkSize Z.eqb].
        destruct (post _ _ (remote n2)) as [[res2 e2] b2]. destruct e2; reflexivity.
      * destruct (post _ _ (remote n)) as [[res e0] b'].
        exists r0. split; [destruct e0; inversion H; reflexivity|].
        split; [now apply Z.eqb_neq|]. split; [reflexivity|].
        split; [destruct e0; inversion H; reflexivity|].
        split; [destruct e0; inversion H; subst; [reflexivity | intros X; now elim X]|].
        intros n2. replace req' with (Some r0)
          by (destruct e0; inversion H; reflexivity).
        rewrite E.
        destruct (post _ _ (remote n2)) as [[res2 e2] b2]. destruct e2; reflexivity.
    + cbn [ExportAssetsRequest.ChunkSize Z.eqb ExportAssetsRequest.Filters
           ExportAssetsRequest.IncludeUnlicensed] in *.
      destruct (post _ _ (remote n)) as [[res e0] b'].
      eexists. split; [destruct e0; inversion H; reflexivity|].
      split; [cbn; discriminate|]. split; [reflexivity|].
      split; [destruct e0; inversion H; reflexivity|].
      split; [destruct e0; inversion H; subst; [reflexivity | intros X; now elim X]|].
      intros n2. replace req' with (@None ExportAssetsRequest.t)
        by (destruct e0; inversion H; reflexivity).
      cbn [ExportAssetsRequest.ChunkSize Z.eqb ExportAssetsRequest.Filters
           ExportAssetsRequest.IncludeUnlicensed ExportAssetsRequest.empty].
      destruct (post _ _ (remote n2)) as [[res2 e2] b2]. destruct e2; reflexivity.
  - unfold VulnsExport, client_Post in *.
    destruct req as [r0|]; cbn [ExportVulnsRequest.empty] in *.
    + destruct (ExportVulnsRequest.NumAssets r0 =? 0) eqn:E.
      * destruct (post _ _ (remote n)) as [[res e0] b'].
        eexists. split; [destruct e0; inversion H; reflexivity|].
        split; [cbn; discriminate|]. split; [reflexivity|].
        split; [destruct e0; inversion H; reflexivity|].
        split; [destruct e0; inversion H; subst; [reflexivity | intros X; now elim X]|].
        intros n2. replace req' with (Some {|
            ExportVulnsRequest.NumAssets := 500;
            ExportVulnsRequest.Filters := ExportVulnsRequest.Filters r0;
            ExportVulnsRequest.IncludeUnlicensed :=
              ExportVulnsRequest.IncludeUnlicensed r0 |})
          by (destruct e0; inversion H; reflexivity).
        cbn [ExportVulnsRequest.NumAssets Z.eqb].
        destruct (post _ _ (remote n2)) as [[res2 e2] b2]. destruct e2; reflexivity.
      * destruct (post _ _ (remote n)) as [[res e0] b'].
        exists r0. split; [destruct e0; inversion H; reflexivity|].
        split; [now apply Z.eqb_neq|]. split; [reflexivity|].
        split; [destruct e0; inversion H; reflexivity|].
        split; [destruct e0; inversion H; subst; [reflexivity | intros X; now elim X]|].
        intros n2. replace req' with (Some r0)
          by (destruct e0; inversion H; reflexivity).
        rewrite E.
        destruct (post _ _ (remote n2)) as [[res2 e2] b2]. destruct e2; reflexivity.
    + cbn [ExportVulnsRequest.NumAssets Z.eqb ExportVulnsRequest.Filters
           ExportVulnsRequest.IncludeUnlicensed] in *.
      destruct (post _ _ (remote n)) as [[res e0] b'].
      eexists. split; [destruct e0; inversion H; reflexivity|].
      split; [cbn; discriminate|]. split; [reflexivity|].
      split; [destruct e0; inversion H; reflexivity|].
      split; [destruct e0; inversion H; subst; [reflexivity | intros X; now elim X]|].
      intros n2. replace req' with (@None ExportVulnsRequest.t)
        by (destruct e0; inversion H; reflexivity).
      cbn [ExportVulnsRequest.NumAssets Z.eqb ExportVulnsRequest.Filters
           ExportVulnsRequest.IncludeUnlicensed ExportVulnsRequest.empty].
      destruct (post _ _ (remote n2)) as [[res2 e2] b2]. destruct e2; reflexivity.
Qed.

End Requests.

Section Chunks.

Variable B : Type.
Variable post : string -> Body -> B -> ExportResponse * option error * B.
Variable get : string -> B -> ExportStatus * option error * B.
Variable download : string -> B -> string * option error * B.
Variable select : Z -> B -> option error * B.
Variable ExportedAsset : Type.
Variable unmarshalAssets : string -> list ExportedAsset * option error.

Lemma wrap_range (z : Z) : MinInt <= wrap z <= MaxInt.
Proof.
  unfold wrap, MinInt, MaxInt.
  pose proof (Z.mod_pos_bound (z + 9223372036854775808) 18446744073709551616).
  lia.
Qed.

Lemma downloads_snoc (tr : list Event) (p : string) :
  downloads (tr ++ [EvDownload p]) = downloads tr ++ [EvDownload p].
Proof. unfold downloads. now rewrite filter_app. Qed.

Lemma downloads_polls (tr polls : list Event) :
  Forall (fun ev => isPoll ev = true) polls ->
  downloads (tr ++ polls) = downloads tr.
Proof.
  intros H. unfold downloads. rewrite filter_app.
  replace (filter isDownload polls) with (@nil Event); [apply app_nil_r|].
  induction H as [|ev polls Hev _ IH]; [reflexivity|].
  cbn [filter]. destruct ev; try discriminate; exact IH.
Qed.

Lemma firstn_snoc {A : Type} (l : list A) (k : nat) (x : A) :
  nth_error l k = Some x -> firstn (S k) l = firstn k l ++ [x].
Proof.
  revert k. induction l as [|a l IH]; intros [|k] H; cbn in *; try discriminate.
  - now inversion H.
  - now rewrite (IH _ H).
Qed.

(** The index a fetch reads its chunk at. *)
Lemma chunk_at (ids : list Z) (cur chunkID : Z) :
  MinInt <= cur <= MaxInt ->
  index ids cur = Some chunkID ->
  0 <= cur /\
  firstn (S (Z.to_nat cur)) ids = firstn (Z.to_nat cur) ids ++ [chunkID] /\
  MinInt <= add cur 1 <= MaxInt /\
  (0 <= add cur 1 -> Z.to_nat (add cur 1) = S (Z.to_nat cur)).
Proof.
  intros Hr Hi. unfold index in Hi.
  destruct (cur <? 0) eqn:E; [discriminate|]. apply Z.ltb_ge in E.
  split; [exact E|]. split; [now apply firstn_snoc|].
  split; [apply wrap_range|].
  intros H. destruct (Z.eq_dec cur MaxInt) as [->|Hne].
  - vm_compute in H. now elim H.
  - rewrite add_small by (unfold MinInt, MaxInt in *; lia). lia.
Qed.

Abbreviation assets_fetcher :=
  (AssetsIterator_fetcher post get download select unmarshalAssets).
Abbreviation vulns_fetcher :=
  (VulnsIterator_fetcher post get download select).

Lemma assets_downloads_ready (fuel : nat) (off lim : Z)
    (v : AssetsVars ExportedAsset) (n : Net B) (r : FetchResult)
    (s' : AssetsState B ExportedAsset) :
  a_status v <> None ->
  assets_downloads_inv (v, n) ->
  assets_fetcher fuel off lim (v, n) = Ret (r, s') ->
  assets_downloads_shape s' /\ (snd r = None -> assets_downloads_inv s').
Proof.
  intros Hs Hinv HF. unfold assets_downloads_inv in Hinv. cbn [fst snd] in Hinv.
  destruct (a_status v) as [st|] eqn:Est; [clear Hs | now elim Hs].
  destruct Hinv as (Hu & Hr & Hd).
  unfold AssetsIterator_fetcher in HF.
  apply String.eqb_neq in Hu. rewrite Hu in HF. apply String.eqb_neq in Hu.
  cbn [bind] in HF. rewrite Est in HF. cbn [bind] in HF. rewrite Est in HF.
  unfold AssetsExportChunk, ReadAll in HF.
  destruct (len (ChunksAvailable st) <=? a_currentChunk v) eqn:Ec.
  { apply Z.leb_le in Ec. pose proof (len_nonneg (ChunksAvailable st)) as H0.
    inversion HF; subst r s'.
    unfold assets_downloads_shape, assets_downloads_inv. cbn [fst snd].
    rewrite Est. split; [|intros _; auto].
    eexists. apply Hd. lia. }
  destruct (index (ChunksAvailable st) (a_currentChunk v)) as [chunkID|] eqn:Ei;
    [|discriminate].
  destruct (chunk_at _ _ _ Hr Ei) as (H0 & Hsn & Hr' & Hnext).
  specialize (Hd H0).
  destruct (exportChunk download _ n) as [[reader e] n3] eqn:Hc.
  pose proof (ExportFacts.exportChunk_trace B download _ _ _ _ _ Hc) as Hn3.
  assert (Hdl : downloads (trace n3)
                = assets_chunk_events (a_exportUUID v)
                    (firstn (S (Z.to_nat (a_currentChunk v))) (ChunksAvailable st))).
  { rewrite Hn3, downloads_snoc, Hd, Hsn. unfold assets_chunk_events.
    rewrite map_app. reflexivity. }
  split_code HF; try discriminate; inversion HF; subst r s';
    unfold assets_downloads_shape, assets_downloads_inv;
    cbn [fst snd a_status a_exportUUID a_currentChunk]; rewrite ?Est;
    (split; [eexists; exact Hdl|]); intros Hok; try discriminate.
  split; [exact Hu|]. split; [exact Hr'|].
  intros Hpos. rewrite (Hnext Hpos). exact Hdl.
Qed.

Lemma downloads_post (tr : list Event) (path : string) (body : Body) :
  downloads (tr ++ [EvPost path body]) = downloads tr.
Proof. unfold downloads. rewrite filter_app. apply app_nil_r. Qed.

Lemma assets_downloads_step (fuel : nat) (off lim : Z)
    (s s' : AssetsState B ExportedAsset) (r : FetchResult) :
  gives_identifiers post ->
  assets_downloads_inv s ->
  assets_fetcher fuel off lim s = Ret (r, s') ->
  assets_downloads_shape s' /\ (snd r = None -> assets_downloads_inv s').
Proof.
  intros Hid Hinv HF. destruct s as [v n].
  destruct (a_status v) as [st0|] eqn:Est.
  { apply (assets_downloads_ready fuel off lim v n r s'); auto.
    rewrite Est. discriminate. }
  pose proof Hinv as Hinv0.
  unfold assets_downloads_inv in Hinv. cbn [fst snd] in Hinv. rewrite Est in Hinv.
  destruct Hinv as (Hu & Hcur & Hd).
  unfold AssetsIterator_fetcher in HF. rewrite Hu in HF. cbn [String.eqb] in HF.
  destruct (AssetsExport post (a_req v) n) as [[[uuid e] req'] n1] eqn:Hsub.
  destruct (ExportFacts.AssetsExport_trace B post _ _ _ _ _ _ Hsub)
    as [(body & Hn1) Hne].
  assert (Hd1 : downloads (trace n1) = []) by (rewrite Hn1, downloads_post; exact Hd).
  destruct e as [e|].
  { inversion HF; subst r s'.
    unfold assets_downloads_shape. cbn [fst snd a_status]. rewrite ?Est.
    split; [exact Hd1 | discriminate]. }
  specialize (Hne Hid eq_refl).
  cbn [a_status] in HF. rewrite Est in HF.
  unfold WaitForExport in HF. cbn [a_exportUUID bind] in HF.
  destruct (waitLoop get select fuel "assets" uuid _ n1)
    as [[[st e2] n2]| |] eqn:Hwait; cbn [bind] in HF; try discriminate.
  destruct (ExportFacts.waitLoop_trace B get select _ _ _ _ _ _ _ _ Hwait)
    as (polls & Hn2 & Hp & Hst).
  assert (Hd2 : downloads (trace n2) = [])
    by (rewrite Hn2, (downloads_polls _ _ Hp); exact Hd1).
  destruct e2 as [e2|].
  { inversion HF; subst r s'.
    unfold assets_downloads_shape. cbn [fst snd a_status]. rewrite ?Est.
    split; [exact Hd2 | discriminate]. }
  specialize (Hst eq_refl).
  destruct st as [st|]; [|now elim Hst].
  pose (v2 := {| a_req := req'; a_exportUUID := uuid; a_status := Some st;
                 a_currentChunk := a_currentChunk v;
                 a_chunkData := a_chunkData v |}).
  apply (assets_downloads_ready fuel off lim v2 n2 r s').
  - discriminate.
  - unfold assets_downloads_inv, v2. cbn [fst snd a_status a_exportUUID a_currentChunk].
    rewrite Hcur. split; [exact Hne|]. split; [unfold MinInt, MaxInt; lia|].
    intros _. rewrite Hd2. reflexivity.
  - unfold AssetsIterator_fetcher, v2. cbn [a_exportUUID a_status].
    apply String.eqb_neq in Hne. rewrite Hne. cbn [bind]. exact HF.
Qed.

Lemma vulns_downloads_ready (fuel : nat) (off lim : Z)
    (v : VulnsVars) (n : Net B) (r : FetchResult) (s' : VulnsState B) :
  v_status v <> None ->
  vulns_downloads_inv (v, n) ->
  vulns_fetcher fuel off lim (v, n) = Ret (r, s') ->
  vulns_downloads_shape s' /\ (snd r = None -> vulns_downloads_inv s').
Proof.
  intros Hs Hinv HF. unfold vulns_downloads_inv in Hinv. cbn [fst snd] in Hinv.
  destruct (v_status v) as [st|] eqn:Est; [clear Hs | now elim Hs].
  destruct Hinv as (Hu & Hr & Hd).
  unfold VulnsIterator_fetcher in HF.
  apply String.eqb_neq in Hu. rewrite Hu in HF. apply String.eqb_neq in Hu.
  cbn [bind] in HF. rewrite Est in HF. cbn [bind] in HF. rewrite Est in HF.
  unfold VulnsExportChunk, ReadAll in HF.
  destruct (len (ChunksAvailable st) <=? v_currentChunk v) eqn:Ec.
  { apply Z.leb_le in Ec. pose proof (len_nonneg (ChunksAvailable st)) as H0.
    inversion HF; subst r s'.
    unfold vulns_downloads_shape, vulns_downloads_inv. cbn [fst snd].
    rewrite Est. split; [|intros _; auto].
    eexists. apply Hd. lia. }
  destruct (index (ChunksAvailable st) (v_currentChunk v)) as [chunkID|] eqn:Ei;
    [|discriminate].
  destruct (chunk_at _ _ _ Hr Ei) as (H0 & Hsn & Hr' & Hnext).
  specialize (Hd H0).
  destruct (exportChunk download _ n) as [[reader e] n3] eqn:Hc.
  pose proof (ExportFacts.exportChunk_trace B download _ _ _ _ _ Hc) as Hn3.
  assert (Hdl : downloads (trace n3)
                = vulns_chunk_events (v_exportUUID v)
                    (firstn (S (Z.to_nat (v_currentChunk v))) (ChunksAvailable st))).
  { rewrite Hn3, downloads_snoc, Hd, Hsn. unfold vulns_chunk_events.
    rewrite map_app. reflexivity. }
  split_code HF; try discriminate; inversion HF; subst r s';
    unfold vulns_downloads_shape, vulns_downloads_inv;
    cbn [fst snd v_status v_exportUUID v_currentChunk]; rewrite ?Est;
    (split; [eexists; exact Hdl|]); intros Hok; try discriminate.
  split; [exact Hu|]. split; [exact Hr'|].
  intros Hpos. rewrite (Hnext Hpos). exact Hdl.
Qed.

Lemma vulns_downloads_step (fuel : nat) (off lim : Z)
    (s s' : VulnsState B) (r : FetchResult) :
  gives_identifiers post ->
  vulns_downloads_inv s ->
  vulns_fetcher fuel off lim s = Ret (r, s') ->
  vulns_downloads_shape s' /\ (snd r = None -> vulns_downloads_inv s').
Proof.
  intros Hid Hinv HF. destruct s as [v n].
  destruct (v_status v) as [st0|] eqn:Est.
  { apply (vulns_downloads_ready fuel off lim v n r s'); auto.
    rewrite Est. discriminate. }
  pose proof Hinv as Hinv0.
  unfold vulns_downloads_inv in Hinv. cbn [fst snd] in Hinv. rewrite Est in Hinv.
  destruct Hinv as (Hu & Hcur & Hd).
  unfold VulnsIterator_fetcher in HF. rewrite Hu in HF. cbn [String.eqb] in HF.
  destruct (VulnsExport post (v_req v) n) as [[[uuid e] req'] n1] eqn:Hsub.
  destruct (ExportFacts.VulnsExport_trace B post _ _ _ _ _ _ Hsub)
    as [(body & Hn1) Hne].
  assert (Hd1 : downloads (trace n1) = []) by (rewrite Hn1, downloads_post; exact Hd).
  destruct e as [e|].
  { inversion HF; subst r s'.
    unfold vulns_downloads_shape. cbn [fst snd v_status]. rewrite ?Est.
    split; [exact Hd1 | discriminate]. }
  specialize (Hne Hid eq_refl).
  cbn [v_status] in HF. rewrite Est in HF.
  unfold WaitForExport in HF. cbn [v_exportUUID bind] in HF.
  destruct (waitLoop get select fuel "vulns" uuid _ n1)
    as [[[st e2] n2]| |] eqn:Hwait; cbn [bind] in HF; try discriminate.
  destruct (ExportFacts.waitLoop_trace B get select _ _ _ _ _ _ _ _ Hwait)
    as (polls & Hn2 & Hp & Hst).
  assert (Hd2 : downloads (trace n2) = [])
    by (rewrite Hn2, (downloads_polls _ _ Hp); exact Hd1).
  destruct e2 as [e2|].
  { inversion HF; subst r s'.
    unfold vulns_downloads_shape. cbn [fst snd v_status]. rewrite ?Est.
    split; [exact Hd2 | discriminate]. }
  specialize (Hst eq_refl).
  destruct st as [st|]; [|now elim Hst].
  pose (v2 := {| v_req := req'; v_exportUUID := uuid; v_status := Some st;
                 v_currentChunk := v_currentChunk v |}).
  apply (vulns_downloads_ready fuel off lim v2 n2 r s').
  - discriminate.
  - unfold vulns_downloads_inv, v2. cbn [fst snd v_status v_exportUUID v_currentChunk].
    rewrite Hcur. split; [exact Hne|]. split; [unfold MinInt, MaxInt; lia|].
    intros _. rewrite Hd2. reflexivity.
  - unfold VulnsIterator_fetcher, v2. cbn [v_exportUUID v_status].
    apply String.eqb_neq in Hne. rewrite Hne. cbn [bind]. exact HF.
Qed.

Variable ExportedVuln : Type.
Variable unmarshalVulns : string -> list ExportedVuln * option error.

(** X16 (chunks in the order listed).  Let the service give every job
    it accepts a non-empty identifier.  Then, whatever the number of
    calls of [Next] on an export iterator and whatever fails on the way:
    before the export's status is known nothing is downloaded, and from
    then on the downloads made are those of the first chunks the status
    lists, all of that one job, each once and in the order listed. *)
Theorem chunks_downloaded_in_listed_order (fuel n : nat) (b : B) :
  gives_identifiers post ->
  (forall (zero : ExportedAsset) req outs it w,
     pulls (assets_fetcher fuel) unmarshalAssets n
       (fst (AssetsIterator zero req))
       (fresh (snd (AssetsIterator zero req), connect b)) = Ret (outs, it, w) ->
     match a_status (fst (fstate w)) with
     | None => downloads (trace (snd (fstate w))) = []
     | Some st =>
         exists j,
           downloads (trace (snd (fstate w)))
           = assets_chunk_events (a_exportUUID (fst (fstate w)))
               (firstn j (ChunksAvailable st))
     end) /\
  (forall (zero : ExportedVuln) req outs it w,
     pulls (vulns_fetcher fuel) unmarshalVulns n
       (fst (VulnsIterator zero req))
       (fresh (snd (VulnsIterator zero req), connect b)) = Ret (outs, it, w) ->
     match v_status (fst (fstate w)) with
     | None => downloads (trace (snd (fstate w))) = []
     | Some st =>
         exists j,
           downloads (trace (snd (fstate w)))
           = vulns_chunk_events (v_exportUUID (fst (fstate w)))
               (firstn j (ChunksAvailable st))
     end).
Proof.
  intros Hid. split; intros zero req outs it w Hp.
  - refine (proj1 (IteratorFacts.pulls_preserve _ _ _ _
              (@assets_downloads_inv B ExportedAsset)
              (@assets_downloads_shape B ExportedAsset)
              _ n _ _ _ _ _ _ _ Hp)).
    + intros off lim s r s'. apply assets_downloads_step. exact Hid.
    + reflexivity.
    + intros _. cbn. auto.
  - refine (proj1 (IteratorFacts.pulls_preserve _ _ _ _
              (@vulns_downloads_inv B) (@vulns_downloads_shape B)
              _ n _ _ _ _ _ _ _ Hp)).
    + intros off lim s r s'. apply vulns_downloads_step. exact Hid.
    + reflexivity.
    + intros _. cbn. auto.
Qed.

End Chunks.

Section Readers.

Lemma sizes_nonneg (ms : list Z) :
  Forall (fun m => 1 <= m) ms -> 0 <= fold_right Z.add 0 ms.
Proof. induction 1; cbn [fold_right]; lia. Qed.

Lemma skipn_firstn_length {A : Type} (m : nat) (xs : list A) :
  skipn (List.length (firstn m xs)) xs = skipn m xs.
Proof.
  rewrite length_firstn. destruct (Nat.le_ge_cases m (List.length xs)) as [H | H].
  - now rewrite Nat.min_l.
  - rewrite Nat.min_r by exact H. now rewrite !skipn_all2 by lia.
Qed.

Lemma reads_from (data : list ascii) (ms : list Z) :
  len data <= MaxInt ->
  Forall (fun m => 1 <= m) ms ->
  forall p,
    0 <= p <= len data ->
    exists outs r',
      reads ms {| bytesReader.data := data; bytesReader.pos := p |} = Ret (outs, r') /\
      concat (map (fun o => fst (fst o)) outs)
      = firstn (Z.to_nat (fold_right Z.add 0 ms)) (skipn (Z.to_nat p) data) /\
      Forall (fun o => snd (fst o) = len (fst (fst o)) /\
                       snd o = match fst (fst o) with
                               | [] => Some io_EOF
                               | _ :: _ => None
                               end) outs.
Proof.
  intros Hfit Hms. induction Hms as [|m ms Hm Hms IH]; intros p Hp.
  - eexists _, _. split; [reflexivity|]. cbn. auto.
  - cbn [reads fold_right]. unfold bytesReader_Read.
    cbn [bytesReader.data bytesReader.pos].
    pose proof (sizes_nonneg _ Hms) as Hsum.
    destruct (len data <=? p) eqn:E.
    + apply Z.leb_le in E. cbn [bind].
      destruct (IH p Hp) as (outs & r' & Hr & Hc & Hf).
      rewrite Hr. cbn [bind]. eexists _, _. split; [reflexivity|].
      cbn [map concat fst snd app]. split.
      * rewrite Hc. rewrite skipn_all2 by (unfold len in *; lia).
        now rewrite !firstn_nil.
      * constructor; [cbn; auto | exact Hf].
    + apply Z.leb_gt in E.
      replace (p <? 0) with false by (symmetry; apply Z.ltb_ge; lia).
      cbn [bind]. set (xs := skipn (Z.to_nat p) data).
      set (copied := firstn (Z.to_nat m) xs).
      assert (Hlen : len copied <= len data - p).
      { unfold copied, xs, len in *. rewrite length_firstn, length_skipn. lia. }
      assert (Hne : copied <> []).
      { unfold copied, xs. destruct (Z.to_nat m) eqn:Em; [lia|].
        destruct (skipn (Z.to_nat p) data) eqn:Es; [|discriminate].
        apply (f_equal (@List.length ascii)) in Es.
        rewrite length_skipn in Es. unfold len in *. cbn in Es. lia. }
      pose proof (len_nonneg copied) as H0.
      rewrite add_small by (unfold MinInt, MaxInt in *; lia).
      destruct (IH (p + len copied)) as (outs & r' & Hr & Hc & Hf); [lia|].
      rewrite Hr. cbn [bind]. eexists _, _. split; [reflexivity|].
      cbn [map concat fst snd]. split.
      * rewrite Hc, (Z2Nat.inj_add m), DrainMore.firstn_add by lia.
        fold xs. fold copied. f_equal. f_equal.
        replace (Z.to_nat (p + len copied))
          with (List.length copied + Z.to_nat p)%nat by (unfold len; lia).
        rewrite <- skipn_skipn. fold xs. apply skipn_firstn_length.
      * constructor; [|exact Hf]. cbn [fst snd]. split; [reflexivity|].
        destruct copied; [now elim Hne | reflexivity].
Qed.

(** X17 (reading a download).  A fresh [bytesReader] hands out the
    bytes it wraps in order, none left out and none twice, whatever the
    sizes of the buffers it is read with, as long as none is empty:
    what the reads copied, one after the other, is the start of the
    bytes, as long as the buffers together.  Each read reports the
    number of bytes it copied, and [io.EOF] when, and only when, it
    copied none, so that reading to the end returns the download. *)
Theorem bytesReader_hands_out_its_bytes (data : list ascii) (ms : list Z) :
  len data <= MaxInt ->
  Forall (fun m => 1 <= m) ms ->
  exists outs r',
    reads ms {| bytesReader.data := data; bytesReader.pos := 0 |} = Ret (outs, r') /\
    concat (map (fun o => fst (fst o)) outs)
    = firstn (Z.to_nat (fold_right Z.add 0 ms)) data /\
    Forall (fun o => snd (fst o) = len (fst (fst o)) /\
                     snd o = match fst (fst o) with
                             | [] => Some io_EOF
                             | _ :: _ => None
                             end) outs.
Proof.
  intros Hfit Hms.
  exact (reads_from data ms Hfit Hms 0 (conj (Z.le_refl 0) (len_nonneg data))).
Qed.

End Readers.

(** *** The exports on the test double *)

(** A request of size 0 is sent with 1000 assets per chunk, and a nil
    request for vulnerabilities with 500 assets. *)
Lemma export_requests_sized_witness :
  let n := connect scenario.three_chunks in
  let req := Some {| ExportAssetsRequest.ChunkSize := 0;
                     ExportAssetsRequest.Filters := [];
                     ExportAssetsRequest.IncludeUnlicensed := true |} in
  (exists id e req' n',
     AssetsExport scenario.remote_post req n = (id, e, req', n') /\
     exists r,
       trace n' = trace n ++ [EvPost "assets/export" (AssetsBody r)] /\
       ExportAssetsRequest.ChunkSize r = 1000 /\
       req' = Some r) /\
  (exists id e req' n',
     VulnsExport scenario.remote_post None n = (id, e, req', n') /\
     exists r,
       trace n' = trace n ++ [EvPost "vulns/export" (VulnsBody r)] /\
       ExportVulnsRequest.NumAssets r = 500 /\
       req' = None).
Proof.
  intros n req.
  destruct (export_requests_sized _ scenario.remote_post n) as [Ha Hv].
  split.
  - eexists _, _, _, _. split; [vm_compute; reflexivity|].
    destruct (Ha req _ _ _ _ eq_refl) as (r & Ht & _ & Hr & Hq & _).
    exists r. split; [exact Ht|]. split; [rewrite Hr; reflexivity | exact Hq].
  - eexists _, _, _, _. split; [vm_compute; reflexivity|].
    destruct (Hv None _ _ _ _ eq_refl) as (r & Ht & _ & Hr & Hq & _).
    exists r. split; [exact Ht|]. split; [rewrite Hr; reflexivity | exact Hq].
Defined.

(** The job of P6 behind a submit endpoint that always gives an
    identifier: the chunks 1 and 2 are downloaded, in that order. *)
Lemma chunks_downloaded_in_listed_order_witness :
  gives_identifiers scenario.accepting_post /\
  (exists outs it w,
     pulls (AssetsIterator_fetcher scenario.accepting_post scenario.remote_get
              scenario.remote_download scenario.remote_select scenario.unmarshal 9)
       scenario.unmarshal 7
       (fst (AssetsIterator " "%char None))
       (fresh (snd (AssetsIterator " "%char None), connect scenario.three_chunks))
     = Ret (outs, it, w) /\
     match a_status (fst (fstate w)) with
     | None => downloads (trace (snd (fstate w))) = []
     | Some st =>
         exists j,
           downloads (trace (snd (fstate w)))
           = assets_chunk_events (a_exportUUID (fst (fstate w)))
               (firstn j (ChunksAvailable st))
     end) /\
  (exists outs it w,
     pulls (VulnsIterator_fetcher scenario.accepting_post scenario.remote_get
              scenario.remote_download scenario.remote_select 9)
       scenario.unmarshal 7
       (fst (VulnsIterator " "%char None))
       (fresh (snd (VulnsIterator " "%char None), connect scenario.three_chunks))
     = Ret (outs, it, w) /\
     match v_status (fst (fstate w)) with
     | None => downloads (trace (snd (fstate w))) = []
     | Some st =>
         exists j,
           downloads (trace (snd (fstate w)))
           = vulns_chunk_events (v_exportUUID (fst (fstate w)))
               (firstn j (ChunksAvailable st))
     end).
Proof.
  assert (Hid : gives_identifiers scenario.accepting_post).
  { intros path body b r b' H. inversion H. discriminate. }
  pose proof (chunks_downloaded_in_listed_order _ scenario.accepting_post
                scenario.remote_get scenario.remote_download scenario.remote_select
                _ scenario.unmarshal _ scenario.unmarshal 9 7 scenario.three_chunks
                Hid) as [Ha Hv].
  split; [exact Hid|]. split.
  - eexists _, _, _. split; [vm_compute; reflexivity|].
    eapply (Ha " "%char None). vm_compute. reflexivity.
  - eexists _, _, _. split; [vm_compute; reflexivity|].
    eapply (Hv " "%char None). vm_compute. reflexivity.
Defined.

(** Five bytes read with buffers of two: [he], [ll], [o], then the end. *)
Lemma bytesReader_hands_out_its_bytes_witness :
  let data := ["h"; "e"; "l"; "l"; "o"]%char in
  let ms := [2; 2; 2; 2] in
  len data <= MaxInt /\
  Forall (fun m => 1 <= m) ms /\
  exists outs r',
    reads ms {| bytesReader.data := data; bytesReader.pos := 0 |} = Ret (outs, r') /\
    concat (map (fun o => fst (fst o)) outs)
    = firstn (Z.to_nat (fold_right Z.add 0 ms)) data /\
    Forall (fun o => snd (fst o) = len (fst (fst o)) /\
                     snd o = match fst (fst o) with
                             | [] => Some io_EOF
                             | _ :: _ => None
                             end) outs.
Proof.
  intros data ms.
  assert (Hfit : len data <= MaxInt) by (vm_compute; discriminate).
  assert (Hms : Forall (fun m => 1 <= m) ms) by (repeat constructor; lia).
  split; [exact Hfit|]. split; [exact Hms|].
  exact (bytesReader_hands_out_its_bytes data ms Hfit Hms).
Defined.

(** The same reads, spelled out. *)
Example bytesReader_read_by_twos :
  exists r',
    reads [2; 2; 2; 2]
      {| bytesReader.data := ["h"; "e"; "l"; "l"; "o"]%char; bytesReader.pos := 0 |}
    = Ret ([(["h"; "e"]%char, 2, None); (["l"; "l"]%char, 2, None);
            (["o"]%char, 1, None); ([], 0, Some io_EOF)], r') /\
    bytesReader.pos r' = 5.
Proof. eexists. split; vm_compute; reflexivity. Qed.

End ExportMore.

(* ================================================================== *)
(** ** A paged listing *)

Module AgentsFacts.

Import GoInt GoIntFacts base tio.

Section Listing.

Variable B : Type.
Variable Agent : Type.
Variable getWithParams :
  string -> list (string * string) -> B
  -> (list Agent * PaginationInfo) * option error * B.
Variable Marshal : list Agent -> RawMessage.
Variable Unmarshal : RawMessage -> list Agent * option error.

Abbreviation List_fetcher := (AgentsAPI_List_fetcher getWithParams Marshal).

(** What one invocation of the fetcher asks of the service. *)
Lemma fetcher_asks (opts : option AgentListOptions.t) (sid off lim : Z)
    (n n' : Listing B) (r : FetchResult) :
  List_fetcher opts sid off lim n = Ret (r, n') ->
  exists rest,
    asked n' = asked n ++
      [(("scanners/" ++ Itoa sid ++ "/agents")%string,
        ("limit"%string, Itoa lim) :: ("offset"%string, Itoa off) :: rest)].
Proof.
  unfold AgentsAPI_List_fetcher, client_GetWithParams. intros H.
  match type of H with
  | context [getWithParams _ ?ps _] =>
      assert (Hps : exists rest,
                ps = ("limit"%string, Itoa lim) :: ("offset"%string, Itoa off) :: rest);
      [|destruct Hps as (rest & Hps); rewrite Hps in H]
  end.
  { destruct opts as [o|]; [|exists []; reflexivity].
    destruct (AgentListOptions.Sort o =? "")%string,
             (AgentListOptions.Filter o =? "")%string,
             (AgentListOptions.Wildcard o =? "")%string,
             (AgentListOptions.WildcardFields o =? "")%string;
      cbn [app]; eexists; reflexivity. }
  destruct (getWithParams _ _ (service n)) as [[res e] b].
  exists rest. destruct e; inversion H; reflexivity.
Qed.

Lemma Next_listing_requests (opts : option AgentListOptions.t) (sid l o : Z)
    (it it' : Iterator Agent) (w w' : World (Listing B)) (b : bool) :
  listing_requests sid l o it (fstate w) ->
  Next (List_fetcher opts sid) Unmarshal it w = Ret (b, it', w') ->
  listing_requests sid l o it' (fstate w').
Proof.
  intros (Hl & Hall & Hfirst) HN.
  destruct (IteratorMore.Next_requests _ _ _ _ _ _ _ _ _ HN)
    as (Hl' & [(Hs & Ho) | (r & Hf)]).
  - unfold listing_requests. rewrite Hs, Ho, Hl'. auto.
  - destruct (fetcher_asks _ _ _ _ _ _ _ Hf) as (rest & Ha).
    unfold listing_requests. rewrite Ha, Hl'. split; [exact Hl|]. split.
    + apply Forall_app. split; [exact Hall|].
      apply Forall_cons; [|apply Forall_nil]. cbn [fst snd].
      split; [reflexivity|]. rewrite Hl. eauto.
    + destruct (asked (fstate w)) as [|q qs]; cbn [app]; [|exact Hfirst].
      cbn [snd]. rewrite Hfirst. right. left. reflexivity.
Qed.

(** X18 (what a listing asks for).  Whatever options [AgentsAPI.List]
    is given, nil ones too, and however far its iterator is run: every
    request it makes is for one scanner, with an identifier of at least
    1, and for one page size of at least 1, and the first one is for an
    offset of at least 0; these are the scanner, the limit and the
    offset of the options where those are positive, and 1, 100 and 0
    where they are not. *)
Theorem AgentsAPI_List_requests (zero : Agent) (opts : option AgentListOptions.t)
    (b : B) (n : nat) (outs : list (option Agent)) (it : Iterator Agent)
    (w : World (Listing B)) :
  pulls (snd (AgentsAPI_List getWithParams Marshal zero opts)) Unmarshal n
    (fst (AgentsAPI_List getWithParams Marshal zero opts)) (fresh (listing b))
  = Ret (outs, it, w) ->
  exists sid l o,
    1 <= sid /\ 1 <= l /\ 0 <= o /\
    (forall op, opts = Some op ->
       (0 < AgentListOptions.ScannerID op -> sid = AgentListOptions.ScannerID op) /\
       (AgentListOptions.ScannerID op <= 0 -> sid = 1) /\
       (0 < AgentListOptions.Limit op -> l = AgentListOptions.Limit op) /\
       (AgentListOptions.Limit op <= 0 -> l = 100) /\
       (0 < AgentListOptions.Offset op -> o = AgentListOptions.Offset op) /\
       (AgentListOptions.Offset op <= 0 -> o = 0)) /\
    (opts = None -> sid = 1 /\ l = 100 /\ o = 0) /\
    Forall (fun q =>
              fst q = ("scanners/" ++ Itoa sid ++ "/agents")%string /\
              exists off rest,
                snd q = ("limit"%string, Itoa l) :: ("offset"%string, Itoa off) :: rest)
           (asked (fstate w)) /\
    match asked (fstate w) with
    | [] => True
    | q :: _ => In ("offset"%string, Itoa o) (snd q)
    end.
Proof.
  unfold AgentsAPI_List. cbn [fst snd].
  set (sid := match opts with
              | Some o => if 0 <? AgentListOptions.ScannerID o
                          then AgentListOptions.ScannerID o else 1
              | None => 1
              end).
  set (l := match opts with
            | Some o => if 0 <? AgentListOptions.Limit o
                        then AgentListOptions.Limit o else 100
            | None => 100
            end).
  set (o := match opts with
            | Some o => if 0 <? AgentListOptions.Offset o
                        then AgentListOptions.Offset o else 0
            | None => 0
            end).
  intros Hp. exists sid, l, o.
  assert (Hsid : 1 <= sid).
  { unfold sid. destruct opts as [op|]; [|lia].
    destruct (0 <? AgentListOptions.ScannerID op) eqn:E; [apply Z.ltb_lt in E|]; lia. }
  assert (Hl : 1 <= l).
  { unfold l. destruct opts as [op|]; [|lia].
    destruct (0 <? AgentListOptions.Limit op) eqn:E; [apply Z.ltb_lt in E|]; lia. }
  assert (Ho : 0 <= o).
  { unfold o. destruct opts as [op|]; [|lia].
    destruct (0 <? AgentListOptions.Offset op) eqn:E; [apply Z.ltb_lt in E|]; lia. }
  split; [exact Hsid|]. split; [exact Hl|]. split; [exact Ho|].
  split.
  { intros op ->. unfold sid, l, o.
    repeat split; intros H;
      first [apply Z.ltb_lt in H | apply Z.ltb_ge in H]; now rewrite H. }
  split.
  { intros ->. auto. }
  assert (H0 : listing_requests sid l o
                 (NewIterator zero [WithLimit l; WithOffset o])
                 (fstate (fresh (listing b)))).
  { unfold listing_requests. cbn. auto. }
  assert (H : listing_requests sid l o it (fstate w)).
  { revert Hp H0. generalize (NewIterator zero [WithLimit l; WithOffset o]).
    generalize (fresh (listing b)). revert outs.
    induction n as [|n IH]; intros outs w0 i0 Hp H0; cbn [pulls] in Hp.
    - inversion Hp; subst. exact H0.
    - destruct (Next _ _ i0 w0) as [[[b1 it1] w1]| |] eqn:HN; try discriminate.
      destruct (pulls _ _ n it1 w1) as [[[outs' it2] w2]| |] eqn:Hp';
        try discriminate.
      inversion Hp; subst outs it2 w2.
      exact (IH _ _ _ Hp' (Next_listing_requests _ _ _ _ _ _ _ _ _ H0 HN)). }
  destruct H as (_ & Hall & Hfirst). split; [exact Hall|].
  destruct (asked (fstate w)); [exact I | exact Hfirst].
Qed.

End Listing.

(** Three agents listed in pages of two, sorted by name, with a scanner
    of 0 and an offset of -3 in the options: the requests go to scanner
    1, for pages of 2, from offset 0. *)
Lemma AgentsAPI_List_requests_witness :
  exists outs it w,
    pulls (snd (AgentsAPI_List scenario.scripted_listing string_of_list_ascii
                  " "%char (Some scenario.by_name)))
      scenario.chars 5
      (fst (AgentsAPI_List scenario.scripted_listing string_of_list_ascii
              " "%char (Some scenario.by_name)))
      (fresh (listing scenario.three_agents))
    = Ret (outs, it, w) /\
    exists sid l o,
      1 <= sid /\ 1 <= l /\ 0 <= o /\
      (forall op, Some scenario.by_name = Some op ->
         (0 < AgentListOptions.ScannerID op -> sid = AgentListOptions.ScannerID op) /\
         (AgentListOptions.ScannerID op <= 0 -> sid = 1) /\
         (0 < AgentListOptions.Limit op -> l = AgentListOptions.Limit op) /\
         (AgentListOptions.Limit op <= 0 -> l = 100) /\
         (0 < AgentListOptions.Offset op -> o = AgentListOptions.Offset op) /\
         (AgentListOptions.Offset op <= 0 -> o = 0)) /\
      (Some scenario.by_name = None -> sid = 1 /\ l = 100 /\ o = 0) /\
      Forall (fun q =>
                fst q = ("scanners/" ++ Itoa sid ++ "/agents")%string /\
                exists off rest,
                  snd q = ("limit"%string, Itoa l)
                            :: ("offset"%string, Itoa off) :: rest)
             (asked (fstate w)) /\
      match asked (fstate w) with
      | [] => True
      | q :: _ => In ("offset"%string, Itoa o) (snd q)
      end.
Proof.
  eexists _, _, _. split; [vm_compute; reflexivity|].
  refine (AgentsAPI_List_requests _ _ scenario.scripted_listing string_of_list_ascii
            scenario.chars " "%char (Some scenario.by_name) scenario.three_agents
            5 _ _ _ _).
  vm_compute. reflexivity.
Defined.

(** The same listing, spelled out: two requests, then the end. *)
Example AgentsAPI_List_by_name :
  exists it w,
    pulls (snd (AgentsAPI_List scenario.scripted_listing string_of_list_ascii
                  " "%char (Some scenario.by_name)))
      scenario.chars 5
      (fst (AgentsAPI_List scenario.scripted_listing string_of_list_ascii
              " "%char (Some scenario.by_name)))
      (fresh (listing scenario.three_agents))
    = Ret ([Some "a"; Some "b"; Some "c"; None; None]%char, it, w) /\
    asked (fstate w)
    = [("scanners/1/agents", [("limit", "2"); ("offset", "0"); ("sort", "name")]);
       ("scanners/1/agents", [("limit", "2"); ("offset", "2"); ("sort", "name")])
      ]%string.
Proof. eexists _, _. split; vm_compute; reflexivity. Qed.

End AgentsFacts.

(* ================================================================== *)
(** ** A listing by page number *)

Module PluginsFacts.

Import GoInt GoIntFacts base tio.

Section Listing.

Variable B : Type.
Variable getPlugins :
  string -> list (string * string) -> B -> PluginsResult * option error * B.
Variable Marshal : list Plugin.t -> RawMessage.
Variable Unmarshal : RawMessage -> list Plugin.t * option error.

Abbreviation List_fetcher := (PluginsAPI_List_fetcher getPlugins Marshal).

(** What one invocation of the fetcher asks of the service. *)
Lemma plugins_fetcher_asks (opts : option PluginListOptions.t) (off : Z)
    (n n' : Listing B) (r : FetchResult) :
  List_fetcher opts off 100 n = Ret (r, n') ->
  asked n' = asked n ++
    [plugins_request opts {| call_offset := off; call_limit := 100;
                             call_result := r |}].
Proof.
  unfold PluginsAPI_List_fetcher, client_GetPlugins, plugins_request,
    last_updated_param.
  cbn [Z.eqb call_offset]. intros H.
  match type of H with
  | context [getPlugins _ ?ps _] =>
      destruct (getPlugins "plugins" ps (service n)) as [[res e] b] eqn:Hg
  end.
  assert (Ha : asked n' = asked n ++
            [("plugins"%string,
              match opts with
              | Some o =>
                  if 0 <? PluginListOptions.LastUpdated o
                  then [("size"%string, Itoa 100);
                        ("page"%string, Itoa (wrap (Z.quot off 100)))]
                       ++ [("last_updated"%string,
                            Itoa (PluginListOptions.LastUpdated o))]
                  else [("size"%string, Itoa 100);
                        ("page"%string, Itoa (wrap (Z.quot off 100)))]
              | None => [("size"%string, Itoa 100);
                         ("page"%string, Itoa (wrap (Z.quot off 100)))]
              end)])
    by (destruct e; inversion H; reflexivity).
  rewrite Ha. destruct opts as [o|]; [|reflexivity].
  destruct (0 <? PluginListOptions.LastUpdated o); reflexivity.
Qed.

(** X19 (the pages a plugin listing asks for).  Whatever options
    [PluginsAPI.List] is given and however far its iterator is run, the
    requests it makes are, one for each invocation of its fetcher and in
    that order, for 100 plugins of the page whose number is the
    iterator's offset divided by 100, the offset being the number of
    plugins the requests before delivered; the [Size] and the [Page] of
    the options have no part in them.  So a page is followed by the next
    one only once 100 more plugins were delivered. *)
Theorem PluginsAPI_List_requests (zero : Plugin.t)
    (opts : option PluginListOptions.t) (b : B) (n : nat)
    (outs : list (option Plugin.t)) (it : Iterator Plugin.t)
    (w : World (Listing B)) :
  pulls (snd (PluginsAPI_List getPlugins Marshal zero opts)) Unmarshal n
    (fst (PluginsAPI_List getPlugins Marshal zero opts)) (fresh (listing b))
  = Ret (outs, it, w) ->
  asked (fstate w) = map (plugins_request opts) (calls w) /\
  forall pre c post,
    calls w = pre ++ c :: post ->
    call_offset c = end_offset Unmarshal 0 pre.
Proof.
  unfold PluginsAPI_List. cbn [fst snd]. intros Hp.
  assert (H0 : asked_in_turn Unmarshal 0 100 (NewIterator zero [])
                 (fresh (listing b)) /\
               asked (fstate (fresh (listing b)))
               = map (plugins_request opts) (calls (fresh (listing b)))).
  { split; [|reflexivity].
    split; [reflexivity | split; [|reflexivity]].
    intros pre c post H. now destruct pre. }
  assert (H : asked_in_turn Unmarshal 0 100 it w /\
              asked (fstate w) = map (plugins_request opts) (calls w)).
  { revert Hp H0. generalize (NewIterator zero []). generalize (fresh (listing b)).
    revert outs.
    induction n as [|n IH]; intros outs w0 i0 Hp [Ha Hm]; cbn [pulls] in Hp.
    - inversion Hp; subst. auto.
    - destruct (Next _ _ i0 w0) as [[[b1 it1] w1]| |] eqn:HN; try discriminate.
      destruct (pulls _ _ n it1 w1) as [[[outs' it2] w2]| |] eqn:Hp';
        try discriminate.
      inversion Hp; subst outs it2 w2.
      apply (IH _ _ _ Hp'). split.
      + exact (IteratorMore.Next_asked_in_turn _ _ _ _ _ _ _ _ _ _ _ Ha HN).
      + destruct (IteratorMore.Next_calls _ _ _ _ _ _ _ _ _ HN)
          as [(Hs & Hc) | (r & Hf & Hc)].
        * now rewrite Hs, Hc.
        * destruct Ha as (Hl & _). rewrite Hl in Hf, Hc.
          rewrite (plugins_fetcher_asks _ _ _ _ _ Hf), Hc, map_app, Hm.
          reflexivity. }
  destruct H as [(_ & Hoff & _) Hm]. split; [exact Hm|].
  intros pre c post Hc. exact (proj2 (Hoff _ _ _ Hc)).
Qed.

End Listing.

(** A service that hands out two plugins a page: after the first page
    the offset is 2, and page 0 is asked for again. *)
Lemma PluginsAPI_List_requests_witness :
  exists outs it w,
    pulls (snd (PluginsAPI_List scenario.scripted_plugins scenario.initials
                  (scenario.plugin_named " ") None))
      scenario.by_initials 5
      (fst (PluginsAPI_List scenario.scripted_plugins scenario.initials
              (scenario.plugin_named " ") None))
      (fresh (listing scenario.short_pages))
    = Ret (outs, it, w) /\
    asked (fstate w) = map (plugins_request None) (calls w) /\
    forall pre c post,
      calls w = pre ++ c :: post ->
      call_offset c = end_offset scenario.by_initials 0 pre.
Proof.
  eexists _, _, _. split; [vm_compute; reflexivity|].
  refine (PluginsAPI_List_requests _ scenario.scripted_plugins scenario.initials
            scenario.by_initials (scenario.plugin_named " ") None
            scenario.short_pages 5 _ _ _ _).
  vm_compute. reflexivity.
Defined.

(** The same listing, spelled out: the four plugins counted are the
    first two, twice. *)
Example PluginsAPI_List_short_pages :
  exists it w,
    pulls (snd (PluginsAPI_List scenario.scripted_plugins scenario.initials
                  (scenario.plugin_named " ") None))
      scenario.by_initials 5
      (fst (PluginsAPI_List scenario.scripted_plugins scenario.initials
              (scenario.plugin_named " ") None))
      (fresh (listing scenario.short_pages))
    = Ret (map (option_map scenario.plugin_named)
             [Some "a"; Some "b"; Some "a"; Some "b"; None]%char, it, w) /\
    Err it = None /\
    asked (fstate w)
    = [("plugins", [("size", "100"); ("page", "0")]);
       ("plugins", [("size", "100"); ("page", "0")])]%string.
Proof. eexists _, _. split; [|split]; vm_compute; reflexivity. Qed.

End PluginsFacts.
